(** * Banking_System_App: the ledger and product-lifecycle engine of [main.py]

    A shallow embedding of the core functions of [src/main.py]
    (account creation, authentication with lockout, deposit, withdrawal,
    two-phase transfers, loans and fixed deposits) together with the
    properties stated about them.

    Conventions of the embedding.
    - [st.session_state] is the record [State]; every function of the source
      that touches it is a computation in the monad [M], which threads the
      state and propagates Python exceptions ([KeyError], ...).
    - Python [int] is [Z]; Python [float] is IEEE binary64, taken from the
      Standard Library's executable specification [SpecFloat].
    - [datetime.now()] is an argument [now : Z], the wall clock in whole
      seconds counted from 1970-01-01 00:00:00. Time stamps are stored by the source with the format
      ["%Y-%m-%d %H:%M:%S"] and parsed back with the same format, which is the
      identity at a resolution of one second; comparisons of the clock
      (with microseconds) against such a stamp agree with the comparison of
      the whole seconds.
    - [str(uuid.uuid4())] is an argument, the identifier the generator
      returns at that call. *)

From Stdlib Require Import ZArith Lia Bool Ascii.
From Stdlib Require Import Floats.SpecFloat.
From stdpp Require Import gmap strings.

Open Scope Z_scope.

(** ** Python floats *)

Module Float64.

Definition prec : Z := 53.
Definition emax : Z := 1024.

Abbreviation float := spec_float.

Definition add : float -> float -> float := SFadd prec emax.
Definition sub : float -> float -> float := SFsub prec emax.
Definition mul : float -> float -> float := SFmul prec emax.
Definition div : float -> float -> float := SFdiv prec emax.

(** The binary64 number nearest to an integer (ties to even). *)
Definition of_Z (z : Z) : float := binary_normalize prec emax z 0 false.

(** The value of a finite float is [F2Z_num x * 2 ^ F2Z_exp x]. *)
Definition signed (s : bool) (m : positive) : Z := cond_Zopp s (Zpos m).

(** [x < z], [x = z] or [x > z] for a float [x] and an integer [z]:
    Python compares a float with an int by their exact values. *)
Definition compare_int (x : float) (z : Z) : option comparison :=
  match x with
  | S754_nan => None
  | S754_infinity s => Some (if s then Lt else Gt)
  | S754_zero _ => Some (0 ?= z)
  | S754_finite s m e =>
      Some (if 0 <=? e then signed s m * 2 ^ e ?= z
            else signed s m ?= z * 2 ^ (- e))
  end.

Definition le_int (x : float) (z : Z) : bool :=
  match compare_int x z with Some (Lt | Eq) => true | _ => false end.

Definition lt_int (x : float) (z : Z) : bool :=
  match compare_int x z with Some Lt => true | _ => false end.

Definition eq_int (x : float) (z : Z) : bool :=
  match compare_int x z with Some Eq => true | _ => false end.

(** [z > x] for an integer [z] and a float [x]. *)
Definition int_gt (z : Z) (x : float) : bool := lt_int x z.

(** Rounding of [m / 2 ^ k] to the nearest integer, ties to even. *)
Definition round_half_even (m k : Z) : Z :=
  let q := m / 2 ^ k in
  let r := m mod 2 ^ k in
  match 2 * r ?= 2 ^ k with
  | Lt => q
  | Gt => q + 1
  | Eq => if Z.even q then q else q + 1
  end.

(** The integer nearest to a finite float, ties to even. *)
Definition round (x : float) : Z :=
  match x with
  | S754_finite s m e =>
      cond_Zopp s (if 0 <=? e then Zpos m * 2 ^ e else round_half_even (Zpos m) (- e))
  | _ => 0
  end.

(** The decimal literals of the source, as binary64 numbers. *)
Definition lit_0_05 : float := S754_finite false 7205759403792794 (-57).
Definition lit_0_07 : float := S754_finite false 5044031582654956 (-56).

End Float64.

Abbreviation float := spec_float.

(** ** Exceptions and messages *)

Inductive exn : Type :=
  | KeyError
  | OverflowError
  | ValueError
  | ZeroDivisionError.

(** The second component of the [(success, message)] pairs the source
    returns. Messages built with an f-string carry the formatted values. *)
Inductive message : Type :=
  | UsernameAlreadyExists
  | EmailAlreadyRegistered
  | AccountCreated (account_id : string)
  | AccountLocked
  | UsernameNotFound
  | IncorrectPassword (remaining_attempts : Z)
  | LoginSuccessful
  | AmountMustBePositive
  | InsufficientFunds
  | Deposited (amount : Z) (transaction_id : string)
  | Withdrew (amount : Z) (transaction_id : string)
  | RecipientNotFound
  | AccountIdMismatch
  | CannotTransferToYourself
  | InsufficientFundsForTransfer
  | TransferId (transfer_id : string)
  | InvalidTransferRequest
  | Transferred (amount : Z) (recipient : string) (transaction_id : string)
  | LoanAmountMustBePositive
  | LoanDurationMustBePositive
  | AccountTooNew
  | ActiveLoanExists
  | LoanApproved (amount : Z) (loan_id : string)
  | LoanNotFound
  | LoanNotActive
  | PaymentAmountMustBePositive
  | InsufficientFundsForPayment
  | MinimumPaymentRequired (monthly_payment : Z)
  | PaymentApplied (amount : Z) (loan_id : string)
  | DurationMustBePositive
  | InsufficientFundsForFixedDeposit
  | FixedDepositCreated (fd_id : string)
  | FixedDepositNotFound
  | FixedDepositNotActive
  | FixedDepositNotMatured
  | FixedDepositClosed (fd_id : string) (maturity_amount : Z).

(** ** The data model: the dictionaries of [st.session_state] *)

Inductive transaction_type : Type :=
  | AccountCreationDeposit
  | Deposit
  | Withdrawal
  | TransferOut
  | TransferIn
  | LoanDisbursement
  | LoanPayment
  | FixedDepositCreation
  | FixedDepositMaturity.

Inductive loan_status : Type := LoanActive | LoanPaid.
Inductive fd_status : Type := FdActive | FdClosed.

#[export] Instance loan_status_eq_dec : EqDecision loan_status.
Proof. solve_decision. Defined.

#[export] Instance fd_status_eq_dec : EqDecision fd_status.
Proof. solve_decision. Defined.

Record Account : Type := mkAccount {
  password_hash : string;
  balance : Z;
  created : Z;
  account_id : string;
  acct_email : option string;
  last_login : option Z
}.

Record Transaction : Type := mkTransaction {
  tx_type : transaction_type;
  tx_amount : Z;
  tx_timestamp : Z;
  balance_after : Z;
  tx_id : string;
  tx_description : option string
}.

Record Transfer : Type := mkTransfer {
  tr_sender : string;
  tr_recipient : string;
  tr_recipient_account_id : string;
  tr_amount : Z;
  tr_timestamp : Z;
  tr_description : option string
}.

Record Loan : Type := mkLoan {
  loan_amount : Z;
  duration_months : Z;
  interest_rate : float;
  monthly_payment : Z;
  remaining_balance : float;
  start_date : Z;
  status : loan_status;
  payments_made : Z;
  end_date : option Z
}.

Record FixedDeposit : Type := mkFixedDeposit {
  principal : Z;
  fd_duration_months : Z;
  fd_interest_rate : float;
  maturity_amount : Z;
  fd_start_date : Z;
  maturity_date : Z;
  fd_state : fd_status;
  closed_date : option Z
}.

Record FailedAttempt : Type := mkFailedAttempt {
  count : Z;
  timestamp : Z
}.

Record State : Type := mkState {
  accounts : gmap string Account;
  transactions : gmap string (gmap string Transaction);
  transfer_data : gmap string Transfer;
  loans : gmap string (gmap string Loan);
  fixed_deposits : gmap string (gmap string FixedDeposit);
  failed_attempts : gmap string FailedAttempt;
  authenticated : bool;
  current_user : option string;
  login_time : option Z;
  transfer_confirmation : bool;
  session_transfer_id : option string
}.

(** [init_session_state] on a fresh session. *)
Definition init_session_state : State :=
  mkState ∅ ∅ ∅ ∅ ∅ ∅ false None None false None.

(** Field updates. *)
Definition set_accounts (f : gmap string Account -> gmap string Account) (s : State) : State :=
  mkState (f (accounts s)) (transactions s) (transfer_data s) (loans s)
    (fixed_deposits s) (failed_attempts s) (authenticated s) (current_user s)
    (login_time s) (transfer_confirmation s) (session_transfer_id s).

Definition set_transactions
    (f : gmap string (gmap string Transaction) -> gmap string (gmap string Transaction))
    (s : State) : State :=
  mkState (accounts s) (f (transactions s)) (transfer_data s) (loans s)
    (fixed_deposits s) (failed_attempts s) (authenticated s) (current_user s)
    (login_time s) (transfer_confirmation s) (session_transfer_id s).

Definition set_transfer_data (f : gmap string Transfer -> gmap string Transfer) (s : State) : State :=
  mkState (accounts s) (transactions s) (f (transfer_data s)) (loans s)
    (fixed_deposits s) (failed_attempts s) (authenticated s) (current_user s)
    (login_time s) (transfer_confirmation s) (session_transfer_id s).

Definition set_loans
    (f : gmap string (gmap string Loan) -> gmap string (gmap string Loan)) (s : State) : State :=
  mkState (accounts s) (transactions s) (transfer_data s) (f (loans s))
    (fixed_deposits s) (failed_attempts s) (authenticated s) (current_user s)
    (login_time s) (transfer_confirmation s) (session_transfer_id s).

Definition set_fixed_deposits
    (f : gmap string (gmap string FixedDeposit) -> gmap string (gmap string FixedDeposit))
    (s : State) : State :=
  mkState (accounts s) (transactions s) (transfer_data s) (loans s)
    (f (fixed_deposits s)) (failed_attempts s) (authenticated s) (current_user s)
    (login_time s) (transfer_confirmation s) (session_transfer_id s).

Definition set_failed_attempts
    (f : gmap string FailedAttempt -> gmap string FailedAttempt) (s : State) : State :=
  mkState (accounts s) (transactions s) (transfer_data s) (loans s)
    (fixed_deposits s) (f (failed_attempts s)) (authenticated s) (current_user s)
    (login_time s) (transfer_confirmation s) (session_transfer_id s).

Definition set_session (a : bool) (u : option string) (t : option Z) (s : State) : State :=
  mkState (accounts s) (transactions s) (transfer_data s) (loans s)
    (fixed_deposits s) (failed_attempts s) a u t
    (transfer_confirmation s) (session_transfer_id s).

Definition set_transfer_confirmation (b : bool) (s : State) : State :=
  mkState (accounts s) (transactions s) (transfer_data s) (loans s)
    (fixed_deposits s) (failed_attempts s) (authenticated s) (current_user s)
    (login_time s) b (session_transfer_id s).

Definition set_transfer_id (i : option string) (s : State) : State :=
  mkState (accounts s) (transactions s) (transfer_data s) (loans s)
    (fixed_deposits s) (failed_attempts s) (authenticated s) (current_user s)
    (login_time s) (transfer_confirmation s) i.

Definition set_balance (b : Z) (a : Account) : Account :=
  mkAccount (password_hash a) b (created a) (account_id a) (acct_email a) (last_login a).

Definition set_last_login (t : option Z) (a : Account) : Account :=
  mkAccount (password_hash a) (balance a) (created a) (account_id a) (acct_email a) t.

(** ** The state-and-exception monad *)

Inductive outcome (A : Type) : Type :=
  | Done (a : A) (s : State)
  | Raised (e : exn) (s : State).
Arguments Done {A} a s.
Arguments Raised {A} e s.

Definition M (A : Type) : Type := State -> outcome A.

#[export] Instance M_ret : MRet M := fun A a s => Done a s.
#[export] Instance M_bind : MBind M := fun A B f m s =>
  match m s with
  | Done a s' => f a s'
  | Raised e s' => Raised e s'
  end.

Definition get : M State := fun s => Done s s.
Definition modify (f : State -> State) : M unit := fun s => Done tt (f s).
Definition raise {A : Type} (e : exn) : M A := fun s => Raised e s.

(** [d[k]] raises [KeyError] on a missing key. *)
Definition subscript {V : Type} (d : gmap string V) (k : string) : M V :=
  match d !! k with
  | Some v => mret v
  | None => raise KeyError
  end.

Definition final_state {A : Type} (o : outcome A) : State :=
  match o with Done _ s => s | Raised _ s => s end.

(** ** Arithmetic between Python ints and floats *)

(** [float(z)]: [OverflowError] when [z] is too large for a float. *)
Definition float_of_int (z : Z) : M float :=
  match Float64.of_Z z with
  | S754_infinity _ => raise OverflowError
  | x => mret x
  end.

(** [z + x], [z * x], [x - z] and [x / z] for an int [z] and a float [x]:
    the int is converted first. *)
Definition int_add_float (z : Z) (x : float) : M float :=
  y ← float_of_int z; mret (Float64.add y x).

Definition int_mul_float (z : Z) (x : float) : M float :=
  y ← float_of_int z; mret (Float64.mul y x).

Definition float_sub_int (x : float) (z : Z) : M float :=
  y ← float_of_int z; mret (Float64.sub x y).

Definition float_div_int (x : float) (z : Z) : M float :=
  y ← float_of_int z;
  match y with
  | S754_zero _ => raise ZeroDivisionError
  | _ => mret (Float64.div x y)
  end.

(** [a / b] for two ints: the float nearest to the exact quotient. *)
Definition exact_of_Z (z : Z) : float :=
  match z with
  | Z0 => S754_zero false
  | Zpos p => S754_finite false p 0
  | Zneg p => S754_finite true p 0
  end.

Definition int_true_div (a b : Z) : M float :=
  if decide (b = 0) then raise ZeroDivisionError
  else match Float64.div (exact_of_Z a) (exact_of_Z b) with
       | S754_infinity _ => raise OverflowError
       | x => mret x
       end.

(** [round(x)] with one argument: the nearest int, ties to even. *)
Definition py_round (x : float) : M Z :=
  match x with
  | S754_nan => raise ValueError
  | S754_infinity _ => raise OverflowError
  | _ => mret (Float64.round x)
  end.

(** ** Constants *)

Definition LOAN_INTEREST_RATE : float := Float64.lit_0_05.
Definition FIXED_DEPOSIT_INTEREST : float := Float64.lit_0_07.
Definition MIN_PASSWORD_LENGTH : Z := 8.
Definition SESSION_TIMEOUT : Z := 1800.

(** ** Transaction recorder *)

(** [accounts[username]['balance'] += delta]. *)
Definition add_balance (username : string) (delta : Z) : M unit :=
  s ← get;
  acct ← subscript (accounts s) username;
  modify (set_accounts <[username := set_balance (balance acct + delta) acct]>).

(** The argument [uuid] is the identifier generated when the caller passes
    none. Identifiers are uuid strings, which are never empty, so the test
    [not transaction_id] of the source holds for [None] only. The stored
    amount is [int(amount)], the amount itself for an int. *)
Definition record_transaction (now : Z) (uuid : string) (username : string)
    (type : transaction_type) (amount : Z) (transaction_id : option string)
    (description : option string) : M string :=
  let transaction_id := default uuid transaction_id in
  modify (set_transactions (λ t,
    match t !! username with None => <[username := ∅]> t | Some _ => t end));;
  s ← get;
  acct ← subscript (accounts s) username;
  history ← subscript (transactions s) username;
  modify (set_transactions
    <[username := <[transaction_id :=
        mkTransaction type amount now (balance acct) transaction_id description]>
      history]>);;
  mret transaction_id.

(** ** Account management *)

Section Credentials.

(** [hash_password] is SHA-256 in the source; the properties below hold for
    every function in its place. *)
Variable hash_password : string -> string.

Definition create_account (now : Z) (new_account_id uuid : string)
    (username password email : string) (initial_deposit : Z) : M (bool * message) :=
  s ← get;
  if decide (is_Some (accounts s !! username)) then
    mret (false, UsernameAlreadyExists)
  else if decide (map_Exists (λ _ data, acct_email data = Some email) (accounts s)) then
    mret (false, EmailAlreadyRegistered)
  else
    modify (set_accounts <[username :=
      mkAccount (hash_password password) initial_deposit now new_account_id
        (Some email) None]>);;
    (if 0 <? initial_deposit then
       _ ← record_transaction now uuid username AccountCreationDeposit
             initial_deposit (Some uuid) None;
       mret tt
     else mret tt);;
    mret (true, AccountCreated new_account_id).

(** The lock test of [authenticate]: [timedelta.seconds] is the seconds
    component of the difference, between 0 and 86399, the days being a
    separate component. *)
Definition timedelta_seconds (delta : Z) : Z := delta mod 86400.
Definition timedelta_days (delta : Z) : Z := delta / 86400.

Definition is_locked (now : Z) (s : State) (username : string) : bool :=
  match failed_attempts s !! username with
  | Some fa =>
      (5 <=? count fa) && (timedelta_seconds (now - timestamp fa) <? 3600)
  | None => false
  end.

Definition authenticate (now : Z) (username password : string) : M (bool * message) :=
  s ← get;
  if is_locked now s username then mret (false, AccountLocked)
  else
    match accounts s !! username with
    | None => mret (false, UsernameNotFound)
    | Some acct =>
        if decide (password_hash acct ≠ hash_password password) then
          modify (set_failed_attempts (λ f,
            let fa := default (mkFailedAttempt 0 now) (f !! username) in
            <[username := mkFailedAttempt (count fa + 1) now]> f));;
          s ← get;
          fa ← subscript (failed_attempts s) username;
          let remaining_attempts := 5 - count fa in
          if remaining_attempts <=? 0 then mret (false, AccountLocked)
          else mret (false, IncorrectPassword remaining_attempts)
        else
          modify (set_failed_attempts (delete username));;
          modify (set_session true (Some username) (Some now));;
          modify (set_accounts <[username := set_last_login (Some now) acct]>);;
          mret (true, LoginSuccessful)
    end.

End Credentials.

(** [time.time()] is read on the clock of the model, in whole seconds. The
    test [if login_time and authenticated] of the source fails for a login
    time that is [None] or zero. *)
Definition check_session_timeout (now : Z) : M bool :=
  s ← get;
  match login_time s with
  | Some t =>
      if negb (t =? 0) && authenticated s && (SESSION_TIMEOUT <? now - t) then
        modify (set_session false None (login_time s));;
        mret true
      else mret false
  | None => mret false
  end.

(** ** Deposits, withdrawals and transfers *)

Definition deposit (now : Z) (uuid : string) (username : string) (amount : Z)
    : M (bool * message) :=
  if amount <=? 0 then mret (false, AmountMustBePositive)
  else
    add_balance username amount;;
    transaction_id ← record_transaction now uuid username Deposit amount None None;
    mret (true, Deposited amount transaction_id).

Definition withdraw (now : Z) (uuid : string) (username : string) (amount : Z)
    : M (bool * message) :=
  if amount <=? 0 then mret (false, AmountMustBePositive)
  else
    s ← get;
    acct ← subscript (accounts s) username;
    if balance acct <? amount then mret (false, InsufficientFunds)
    else
      add_balance username (- amount);;
      transaction_id ← record_transaction now uuid username Withdrawal amount None None;
      mret (true, Withdrew amount transaction_id).

Definition initiate_transfer (now : Z) (uuid : string)
    (sender_username recipient_username recipient_account_id : string)
    (amount : Z) (description : option string) : M (bool * message) :=
  s ← get;
  match accounts s !! recipient_username with
  | None => mret (false, RecipientNotFound)
  | Some recipient_account =>
      if decide (account_id recipient_account ≠ recipient_account_id) then
        mret (false, AccountIdMismatch)
      else if decide (sender_username = recipient_username) then
        mret (false, CannotTransferToYourself)
      else
        sender_account ← subscript (accounts s) sender_username;
        if balance sender_account <? amount then
          mret (false, InsufficientFundsForTransfer)
        else
          modify (set_transfer_data <[uuid :=
            mkTransfer sender_username recipient_username recipient_account_id
              amount now description]>);;
          mret (true, TransferId uuid)
  end.

Definition confirm_transfer (now : Z) (uuid : string) (transfer_id : string)
    : M (bool * message) :=
  s ← get;
  match transfer_data s !! transfer_id with
  | None => mret (false, InvalidTransferRequest)
  | Some transfer_details =>
      let sender := tr_sender transfer_details in
      let recipient := tr_recipient transfer_details in
      let amount := tr_amount transfer_details in
      let description := tr_description transfer_details in
      add_balance sender (- amount);;
      add_balance recipient amount;;
      _ ← record_transaction now uuid sender TransferOut amount (Some uuid) description;
      _ ← record_transaction now uuid recipient TransferIn amount (Some uuid) description;
      modify (set_transfer_data (delete transfer_id));;
      mret (true, Transferred amount recipient uuid)
  end.

(** ** Loans *)

Definition calculate_monthly_payment (principal months : Z) : M Z :=
  rate ← int_add_float 1 LOAN_INTEREST_RATE;
  total_amount ← int_mul_float principal rate;
  quotient ← float_div_int total_amount months;
  py_round quotient.

Definition has_active_loan (s : State) (username : string) : bool :=
  match loans s !! username with
  | Some user_loans =>
      bool_decide (map_Exists (λ _ loan, status loan = LoanActive) user_loans)
  | None => false
  end.

(** [d.setdefault(username, {})], the idiom
    [if username not in d: d[username] = {}] of the source. *)
Definition ensure_key {V : Type} (username : string)
    (d : gmap string (gmap string V)) : gmap string (gmap string V) :=
  match d !! username with None => <[username := ∅]> d | Some _ => d end.

Definition apply_for_loan (now : Z) (loan_id uuid : string) (username : string)
    (amount duration_months : Z) : M (bool * message) :=
  if amount <=? 0 then mret (false, LoanAmountMustBePositive)
  else if duration_months <=? 0 then mret (false, LoanDurationMustBePositive)
  else
    s ← get;
    acct ← subscript (accounts s) username;
    if timedelta_days (now - created acct) <? 90 then mret (false, AccountTooNew)
    else if has_active_loan s username then mret (false, ActiveLoanExists)
    else
      monthly_payment ← calculate_monthly_payment amount duration_months;
      modify (set_loans (ensure_key username));;
      rate ← int_add_float 1 LOAN_INTEREST_RATE;
      remaining ← int_mul_float amount rate;
      s ← get;
      user_loans ← subscript (loans s) username;
      modify (set_loans <[username := <[loan_id :=
        mkLoan amount duration_months LOAN_INTEREST_RATE monthly_payment
          remaining now LoanActive 0 None]> user_loans]>);;
      add_balance username amount;;
      _ ← record_transaction now uuid username LoanDisbursement amount None
            (Some ("Loan ID: " +:+ loan_id));
      mret (true, LoanApproved amount loan_id).

(** [loans[username][loan_id]], when both keys are present. *)
Definition find_loan (s : State) (username loan_id : string) : option Loan :=
  loans s !! username ≫= (.!! loan_id).

(** The loan is a dictionary shared with the store: an assignment to one of
    its keys is an update of [loans[username][loan_id]]. *)
Definition update_loan (username loan_id : string) (f : Loan -> Loan) : M unit :=
  s ← get;
  user_loans ← subscript (loans s) username;
  loan ← subscript user_loans loan_id;
  modify (set_loans <[username := <[loan_id := f loan]> user_loans]>).

Definition set_remaining_balance (r : float) (l : Loan) : Loan :=
  mkLoan (loan_amount l) (duration_months l) (interest_rate l) (monthly_payment l)
    r (start_date l) (status l) (payments_made l) (end_date l).

Definition set_payments_made (n : Z) (l : Loan) : Loan :=
  mkLoan (loan_amount l) (duration_months l) (interest_rate l) (monthly_payment l)
    (remaining_balance l) (start_date l) (status l) n (end_date l).

Definition set_paid (now : Z) (l : Loan) : Loan :=
  mkLoan (loan_amount l) (duration_months l) (interest_rate l) (monthly_payment l)
    (remaining_balance l) (start_date l) LoanPaid (payments_made l) (Some now).

Definition make_loan_payment (now : Z) (uuid : string) (username loan_id : string)
    (amount : Z) : M (bool * message) :=
  s ← get;
  match find_loan s username loan_id with
  | None => mret (false, LoanNotFound)
  | Some loan =>
      if decide (status loan ≠ LoanActive) then mret (false, LoanNotActive)
      else if amount <=? 0 then mret (false, PaymentAmountMustBePositive)
      else
        acct ← subscript (accounts s) username;
        if balance acct <? amount then mret (false, InsufficientFundsForPayment)
        else if amount <? monthly_payment loan then
          mret (false, MinimumPaymentRequired (monthly_payment loan))
        else
          add_balance username (- amount);;
          remaining ← float_sub_int (remaining_balance loan) amount;
          update_loan username loan_id (set_remaining_balance remaining);;
          update_loan username loan_id (λ l, set_payments_made (payments_made l + 1) l);;
          _ ← record_transaction now uuid username LoanPayment amount None
                (Some ("Loan ID: " +:+ loan_id));
          (if Float64.le_int remaining 0 then
             update_loan username loan_id (set_paid now)
           else mret tt);;
          mret (true, PaymentApplied amount loan_id)
  end.

(** ** Fixed deposits *)

Definition calculate_maturity_amount (principal months : Z) : M Z :=
  years ← int_true_div months 12;
  growth ← int_add_float 1 (Float64.mul FIXED_DEPOSIT_INTEREST years);
  total ← int_mul_float principal growth;
  py_round total.

(** [timedelta(days=30*duration_months)] in seconds. *)
Definition fd_term_seconds (duration_months : Z) : Z := 30 * duration_months * 86400.

(** The clock counts whole seconds from 1970-01-01 00:00:00. A [datetime]
    lies between 0001-01-01 00:00:00 and 9999-12-31 23:59:59, and a
    [timedelta] holds less than [10^9] days: [timedelta(days=d)] and the
    addition [datetime.now() + timedelta(days=d)] raise [OverflowError]
    beyond these bounds. *)
Definition DATETIME_MIN : Z := -62135596800.
Definition DATETIME_MAX : Z := 253402300799.
Definition TIMEDELTA_MAX_DAYS : Z := 999999999.

Definition datetime_add_days (now days : Z) : M Z :=
  if TIMEDELTA_MAX_DAYS <? Z.abs days then raise OverflowError
  else if (now + days * 86400 <? DATETIME_MIN) || (DATETIME_MAX <? now + days * 86400)
  then raise OverflowError
  else mret (now + days * 86400).

Definition create_fixed_deposit (now : Z) (fd_id uuid : string) (username : string)
    (amount duration_months : Z) : M (bool * message) :=
  if amount <=? 0 then mret (false, AmountMustBePositive)
  else if duration_months <=? 0 then mret (false, DurationMustBePositive)
  else
    s ← get;
    acct ← subscript (accounts s) username;
    if balance acct <? amount then mret (false, InsufficientFundsForFixedDeposit)
    else
      maturity_amount ← calculate_maturity_amount amount duration_months;
      modify (set_fixed_deposits (ensure_key username));;
      maturity_date ← datetime_add_days now (30 * duration_months);
      s ← get;
      user_fds ← subscript (fixed_deposits s) username;
      modify (set_fixed_deposits <[username := <[fd_id :=
        mkFixedDeposit amount duration_months FIXED_DEPOSIT_INTEREST maturity_amount
          now maturity_date FdActive None]> user_fds]>);;
      add_balance username (- amount);;
      _ ← record_transaction now uuid username FixedDepositCreation amount None
            (Some ("FD ID: " +:+ fd_id));
      mret (true, FixedDepositCreated fd_id).

Definition find_fixed_deposit (s : State) (username fd_id : string)
    : option FixedDeposit :=
  fixed_deposits s !! username ≫= (.!! fd_id).

Definition set_closed (now : Z) (fd : FixedDeposit) : FixedDeposit :=
  mkFixedDeposit (principal fd) (fd_duration_months fd) (fd_interest_rate fd)
    (maturity_amount fd) (fd_start_date fd) (maturity_date fd) FdClosed (Some now).

Definition update_fixed_deposit (username fd_id : string)
    (f : FixedDeposit -> FixedDeposit) : M unit :=
  s ← get;
  user_fds ← subscript (fixed_deposits s) username;
  fd ← subscript user_fds fd_id;
  modify (set_fixed_deposits <[username := <[fd_id := f fd]> user_fds]>).

Definition close_fixed_deposit (now : Z) (uuid : string) (username fd_id : string)
    : M (bool * message) :=
  s ← get;
  match find_fixed_deposit s username fd_id with
  | None => mret (false, FixedDepositNotFound)
  | Some fd =>
      if decide (fd_state fd ≠ FdActive) then mret (false, FixedDepositNotActive)
      else if now <? maturity_date fd then mret (false, FixedDepositNotMatured)
      else
        add_balance username (maturity_amount fd);;
        _ ← record_transaction now uuid username FixedDepositMaturity
              (maturity_amount fd) None (Some ("FD ID: " +:+ fd_id));
        update_fixed_deposit username fd_id (set_closed now);;
        mret (true, FixedDepositClosed fd_id (maturity_amount fd))
  end.

(** ** The transfer page of [dashboard]

    The three button handlers of the page: the form that initiates a
    transfer for the logged-in user, and the Confirm and Cancel buttons of the
    confirmation step. *)

Definition dashboard_initiate_transfer (now : Z) (uuid : string)
    (recipient_username recipient_account_id : string) (amount : Z)
    (description : option string) : M (bool * message) :=
  s ← get;
  match current_user s with
  | None => raise KeyError
  | Some user =>
      '(success, result) ← initiate_transfer now uuid user recipient_username
            recipient_account_id amount description;
      (if success : bool then
         modify (set_transfer_id (Some uuid));;
         modify (set_transfer_confirmation true)
       else mret tt);;
      mret (success, result)
  end.

Definition dashboard_confirm_transfer (now : Z) (uuid : string) : M (bool * message) :=
  s ← get;
  match session_transfer_id s with
  | None => raise KeyError
  | Some transfer_id =>
      '(success, result) ← confirm_transfer now uuid transfer_id;
      (if success : bool then modify (set_transfer_confirmation false) else mret tt);;
      mret (success, result)
  end.

Definition dashboard_cancel_transfer : M unit :=
  modify (set_transfer_confirmation false).

(** * Properties *)

(** ** Running the monad *)

Ltac munfold :=
  unfold mbind, M_bind, mret, M_ret, get, modify, raise, subscript in *.

(** Closes a goal whose premise equates a raised exception or a failure
    with a success. *)
Ltac mdiscriminate :=
  let H := fresh in intros H; munfold; simpl in H; discriminate H.

Lemma bind_Done {A B : Type} (m : M A) (f : A -> M B) (s s1 : State) (a : A) :
  m s = Done a s1 → (m ≫= f) s = f a s1.
Proof. intros H. unfold mbind, M_bind. rewrite H. reflexivity. Qed.

Lemma bind_Raised {A B : Type} (m : M A) (f : A -> M B) (s s1 : State) (e : exn) :
  m s = Raised e s1 → (m ≫= f) s = Raised e s1.
Proof. intros H. unfold mbind, M_bind. rewrite H. reflexivity. Qed.

Lemma bind_Done_inv {A B : Type} (m : M A) (f : A -> M B) (s s' : State) (b : B) :
  (m ≫= f) s = Done b s' → ∃ a s1, m s = Done a s1 ∧ f a s1 = Done b s'.
Proof. unfold mbind, M_bind. destruct (m s) as [a s1|]; [eauto | discriminate]. Qed.

Lemma bind_get {B : Type} (f : State -> M B) (s : State) : (get ≫= f) s = f s s.
Proof. reflexivity. Qed.

Lemma bind_modify {B : Type} (g : State -> State) (f : unit -> M B) (s : State) :
  (modify g ≫= f) s = f tt (g s).
Proof. reflexivity. Qed.

Lemma bind_ret {A B : Type} (a : A) (f : A -> M B) (s : State) : (mret a ≫= f) s = f a s.
Proof. reflexivity. Qed.

Lemma bind_subscript_Some {V B : Type} (d : gmap string V) (k : string) (v : V)
    (f : V -> M B) (s : State) :
  d !! k = Some v → (subscript d k ≫= f) s = f v s.
Proof. intros H. unfold subscript. rewrite H. reflexivity. Qed.

Lemma bind_subscript_None {V B : Type} (d : gmap string V) (k : string)
    (f : V -> M B) (s : State) :
  d !! k = None → (subscript d k ≫= f) s = Raised KeyError s.
Proof. intros H. unfold subscript. rewrite H. reflexivity. Qed.

Lemma bind_float_sub_int {B : Type} (x : float) (z : Z) (f : float -> M B) (s : State) :
  (float_sub_int x z ≫= f) s =
    match Float64.of_Z z with
    | S754_infinity _ => Raised OverflowError s
    | y => f (Float64.sub x y) s
    end.
Proof.
  unfold float_sub_int, float_of_int. munfold. destruct (Float64.of_Z z); reflexivity.
Qed.

(** The history of [username] with the record [t] stored under [id]. *)
Definition record (username id : string) (t : Transaction)
    (txs : gmap string (gmap string Transaction))
    : gmap string (gmap string Transaction) :=
  <[username := <[id := t]> (default ∅ (txs !! username))]> txs.

(** Sample states used to exercise the statements below: alice holds 100 and
    bob 0, with an optional pending transfer of 60 from alice to bob. *)
Definition alice : Account := mkAccount "h1" 100 0 "a1b2c3d4" (Some "alice@x.org") None.
Definition bob : Account := mkAccount "h2" 0 0 "e5f6a7b8" (Some "bob@x.org") None.

Definition two_accounts : State :=
  set_accounts (λ _, {["alice" := alice; "bob" := bob]}) init_session_state.

Definition pending_60 : Transfer := mkTransfer "alice" "bob" "e5f6a7b8" 60 10 None.

Definition one_pending : State :=
  set_transfer_data <["t1" := pending_60]> two_accounts.

Lemma add_balance_spec (username : string) (delta : Z) (s : State) (acct : Account) :
  accounts s !! username = Some acct →
  add_balance username delta s =
    Done tt (set_accounts <[username := set_balance (balance acct + delta) acct]> s).
Proof.
  intros H. unfold add_balance. munfold. rewrite H. reflexivity.
Qed.

Lemma add_balance_missing (username : string) (delta : Z) (s : State) :
  accounts s !! username = None →
  add_balance username delta s = Raised KeyError s.
Proof.
  intros H. unfold add_balance. munfold. rewrite H. reflexivity.
Qed.

Lemma record_transaction_spec now uuid username type amount tid descr s acct :
  accounts s !! username = Some acct →
  record_transaction now uuid username type amount tid descr s =
    Done (default uuid tid)
      (set_transactions (record username (default uuid tid)
         (mkTransaction type amount now (balance acct) (default uuid tid) descr)) s).
Proof.
  intros H. unfold record_transaction. munfold. simpl. rewrite H.
  destruct (transactions s !! username) as [h|] eqn:E; simpl.
  - rewrite E. unfold set_transactions, record. simpl. rewrite E. reflexivity.
  - rewrite lookup_insert_eq. unfold set_transactions, record; simpl. rewrite E. simpl.
    rewrite insert_insert_eq. reflexivity.
Qed.

Lemma record_transaction_missing now uuid username type amount tid descr s :
  accounts s !! username = None →
  ∃ s', record_transaction now uuid username type amount tid descr s = Raised KeyError s'.
Proof.
  intros H. unfold record_transaction. munfold. simpl. rewrite H. eauto.
Qed.

(** ** Transfers *)

(** The effect of a confirmation on a pending transfer between two distinct
    existing accounts, as one equation. *)
Lemma confirm_transfer_spec now uuid transfer_id s td sa ra :
  transfer_data s !! transfer_id = Some td →
  accounts s !! tr_sender td = Some sa →
  accounts s !! tr_recipient td = Some ra →
  tr_sender td ≠ tr_recipient td →
  confirm_transfer now uuid transfer_id s =
    Done (true, Transferred (tr_amount td) (tr_recipient td) uuid)
      (set_transfer_data (delete transfer_id)
        (set_transactions
          (λ txs,
             record (tr_recipient td) uuid
               (mkTransaction TransferIn (tr_amount td) now
                  (balance ra + tr_amount td) uuid (tr_description td))
               (record (tr_sender td) uuid
                  (mkTransaction TransferOut (tr_amount td) now
                     (balance sa - tr_amount td) uuid (tr_description td)) txs))
          (set_accounts
             (λ accts,
                <[tr_recipient td := set_balance (balance ra + tr_amount td) ra]>
                  (<[tr_sender td := set_balance (balance sa - tr_amount td) sa]> accts))
             s))).
Proof.
  intros Htd Hs Hr Hne. unfold confirm_transfer.
  unfold mbind at 1, M_bind at 1, get at 1. rewrite Htd.
  unfold mbind at 1, M_bind at 1. rewrite (add_balance_spec _ _ _ _ Hs).
  unfold mbind at 1, M_bind at 1.
  erewrite add_balance_spec
    by (simpl; rewrite lookup_insert_ne by done; exact Hr).
  unfold mbind at 1, M_bind at 1.
  erewrite record_transaction_spec
    by (simpl; rewrite lookup_insert_ne by done; apply lookup_insert_eq).
  unfold mbind at 1, M_bind at 1.
  erewrite record_transaction_spec by (simpl; apply lookup_insert_eq).
  simpl. munfold. rewrite Z.add_opp_r. reflexivity.
Qed.

(** [C2] A successful confirmation of a pending transfer decreases the
    sender's balance by exactly the transfer amount, increases the
    recipient's balance by exactly the transfer amount, and records one
    [TransferOut] transaction for the sender and one [TransferIn] transaction
    for the recipient under one and the same transaction identifier. *)
Theorem confirm_transfer_moves_amount now uuid transfer_id s td sa ra :
  transfer_data s !! transfer_id = Some td →
  accounts s !! tr_sender td = Some sa →
  accounts s !! tr_recipient td = Some ra →
  tr_sender td ≠ tr_recipient td →
  ∃ s',
    confirm_transfer now uuid transfer_id s =
      Done (true, Transferred (tr_amount td) (tr_recipient td) uuid) s' ∧
    balance <$> accounts s' !! tr_sender td = Some (balance sa - tr_amount td) ∧
    balance <$> accounts s' !! tr_recipient td = Some (balance ra + tr_amount td) ∧
    transactions s' =
      record (tr_recipient td) uuid
        (mkTransaction TransferIn (tr_amount td) now
           (balance ra + tr_amount td) uuid (tr_description td))
        (record (tr_sender td) uuid
           (mkTransaction TransferOut (tr_amount td) now
              (balance sa - tr_amount td) uuid (tr_description td))
           (transactions s)).
Proof.
  intros Htd Hs Hr Hne. eexists. split.
  - apply confirm_transfer_spec; eassumption.
  - simpl. rewrite lookup_insert_ne by done. rewrite !lookup_insert_eq. auto.
Qed.

Lemma confirm_transfer_moves_amount_witness :
  ∃ s',
    confirm_transfer 20 "x1" "t1" one_pending =
      Done (true, Transferred 60 "bob" "x1") s' ∧
    balance <$> accounts s' !! "alice" = Some 40 ∧
    balance <$> accounts s' !! "bob" = Some 60 ∧
    transactions s' =
      record "bob" "x1" (mkTransaction TransferIn 60 20 60 "x1" None)
        (record "alice" "x1" (mkTransaction TransferOut 60 20 40 "x1" None) ∅).
Proof.
  apply (confirm_transfer_moves_amount 20 "x1" "t1" one_pending pending_60 alice bob);
    [reflexivity | reflexivity | reflexivity | discriminate].
Defined.

Lemma confirm_transfer_unknown now uuid transfer_id s :
  transfer_data s !! transfer_id = None →
  confirm_transfer now uuid transfer_id s = Done (false, InvalidTransferRequest) s.
Proof.
  intros H. unfold confirm_transfer. munfold. rewrite H. reflexivity.
Qed.

(** Whatever [add_balance] and [record_transaction] do, they leave the
    pending transfers alone. *)
Lemma add_balance_transfer_data username delta s :
  transfer_data (final_state (add_balance username delta s)) = transfer_data s.
Proof.
  unfold add_balance. munfold. destruct (accounts s !! username); reflexivity.
Qed.

Lemma record_transaction_transfer_data now uuid username type amount tid descr s :
  transfer_data (final_state
    (record_transaction now uuid username type amount tid descr s)) = transfer_data s.
Proof.
  unfold record_transaction. munfold. simpl.
  destruct (accounts s !! username); [|reflexivity].
  destruct (transactions s !! username) eqn:E; simpl.
  - rewrite E. reflexivity.
  - rewrite lookup_insert_eq. reflexivity.
Qed.

Lemma confirm_transfer_success_deletes now uuid transfer_id s r s' :
  confirm_transfer now uuid transfer_id s = Done (true, r) s' →
  is_Some (transfer_data s !! transfer_id) ∧ transfer_data s' !! transfer_id = None.
Proof.
  unfold confirm_transfer.
  unfold mbind at 1, M_bind at 1, get at 1.
  destruct (transfer_data s !! transfer_id) as [td|] eqn:Htd; [|discriminate].
  intros H. split; [eauto|]. revert H.
  unfold mbind at 1, M_bind at 1.
  pose proof (add_balance_transfer_data (tr_sender td) (- tr_amount td) s) as H1.
  destruct (add_balance (tr_sender td) (- tr_amount td) s) as [[] s1|]; [|discriminate].
  unfold mbind at 1, M_bind at 1.
  pose proof (add_balance_transfer_data (tr_recipient td) (tr_amount td) s1) as H2.
  destruct (add_balance (tr_recipient td) (tr_amount td) s1) as [[] s2|]; [|discriminate].
  unfold mbind at 1, M_bind at 1.
  pose proof (record_transaction_transfer_data now uuid (tr_sender td) TransferOut
                (tr_amount td) (Some uuid) (tr_description td) s2) as H3.
  destruct (record_transaction now uuid (tr_sender td) TransferOut _ _ _ s2)
    as [? s3|]; [|discriminate].
  unfold mbind at 1, M_bind at 1.
  pose proof (record_transaction_transfer_data now uuid (tr_recipient td) TransferIn
                (tr_amount td) (Some uuid) (tr_description td) s3) as H4.
  destruct (record_transaction now uuid (tr_recipient td) TransferIn _ _ _ s3)
    as [? s4|]; [|discriminate].
  munfold. intros [= _ <-]. simpl. apply lookup_delete_eq.
Qed.

(** [C3] After a successful confirmation the pending entry is deleted, so
    a second confirmation of the same transfer identifier fails with the
    unknown-transfer message and changes nothing (balances included);
    confirming an identifier that is not stored as a pending transfer fails
    with the same message and leaves the whole state as it was. *)
Theorem confirm_transfer_at_most_once now uuid transfer_id s :
  (∀ r s', confirm_transfer now uuid transfer_id s = Done (true, r) s' →
     transfer_data s' !! transfer_id = None ∧
     ∀ now' uuid',
       confirm_transfer now' uuid' transfer_id s' =
         Done (false, InvalidTransferRequest) s') ∧
  (transfer_data s !! transfer_id = None →
     confirm_transfer now uuid transfer_id s = Done (false, InvalidTransferRequest) s).
Proof.
  split.
  - intros r s' H. apply confirm_transfer_success_deletes in H as [_ H].
    split; [exact H|]. intros. by apply confirm_transfer_unknown.
  - apply confirm_transfer_unknown.
Qed.

Lemma confirm_transfer_at_most_once_witness :
  ∃ s', confirm_transfer 20 "x1" "t1" one_pending = Done (true, Transferred 60 "bob" "x1") s' ∧
    transfer_data s' !! "t1" = None ∧
    confirm_transfer 30 "x2" "t1" s' = Done (false, InvalidTransferRequest) s' ∧
    confirm_transfer 20 "x1" "t9" one_pending =
      Done (false, InvalidTransferRequest) one_pending.
Proof.
  destruct (confirm_transfer 20 "x1" "t1" one_pending) as [[b m] s'|] eqn:E;
    [|discriminate E].
  assert (Hm : (b, m) = (true, Transferred 60 "bob" "x1")).
  { vm_compute in E. congruence. }
  injection Hm as -> ->.
  exists s'. split; [reflexivity|].
  destruct (confirm_transfer_at_most_once 20 "x1" "t1" one_pending) as [H1 _].
  destruct (H1 _ _ E) as [Hd Hc].
  destruct (confirm_transfer_at_most_once 20 "x1" "t9" one_pending) as [_ H2].
  split; [exact Hd|]. split; [apply Hc | apply H2; reflexivity].
Defined.

(** *** Cancelling on the transfer page *)

(** alice is logged in and has submitted the transfer form: the pending
    transfer ["t1"] of 60 to bob awaits confirmation. *)
Definition alice_logged_in : State :=
  set_session true (Some "alice") (Some 5) two_accounts.

Definition awaiting_confirmation : State :=
  final_state
    (dashboard_initiate_transfer 10 "t1" "bob" "e5f6a7b8" 60 None alice_logged_in).

Lemma awaiting_confirmation_pending :
  transfer_data awaiting_confirmation !! "t1" = Some pending_60 ∧
  transfer_confirmation awaiting_confirmation = true ∧
  session_transfer_id awaiting_confirmation = Some "t1".
Proof. repeat split; reflexivity. Qed.




(** *** Balances under transfers *)

(** alice, holding 100, initiates two transfers of 60 to bob. Each passes
    the funds check of [initiate_transfer], which compares the amount with
    the balance and ignores the transfers already pending. *)
Definition two_transfers_of_60 : M (bool * message) :=
  initiate_transfer 10 "t1" "alice" "bob" "e5f6a7b8" 60 None;;
  initiate_transfer 11 "t2" "alice" "bob" "e5f6a7b8" 60 None;;
  confirm_transfer 20 "x1" "t1";;
  confirm_transfer 21 "x2" "t2".

(** The transfer page alone reaches a negative balance as well: alice
    initiates a transfer of 100, withdraws 100 while the confirmation is
    pending, and confirms. *)
Definition transfer_then_withdraw : M (bool * message) :=
  dashboard_initiate_transfer 10 "t1" "bob" "e5f6a7b8" 100 None;;
  withdraw 15 "x0" "alice" 100;;
  dashboard_confirm_transfer 20 "x1".

(** [C1], at the input on which the code departs from it: both transfers
    are initiated and confirmed successfully, and alice's balance ends at
    [-20]. [confirm_transfer] debits the sender without the funds check that
    [withdraw], [make_loan_payment] and [create_fixed_deposit] make before
    their debit. *)
Theorem confirm_transfer_overdraws :
  ∃ s',
    two_transfers_of_60 two_accounts = Done (true, Transferred 60 "bob" "x2") s' ∧
    balance <$> accounts s' !! "alice" = Some (-20) ∧
    balance <$> accounts s' !! "bob" = Some 120.
Proof.
  eexists. split; [vm_compute; reflexivity|]. split; reflexivity.
Qed.

Lemma transfer_then_withdraw_overdraws :
  ∃ s',
    transfer_then_withdraw alice_logged_in = Done (true, Transferred 100 "bob" "x1") s' ∧
    balance <$> accounts s' !! "alice" = Some (-100).
Proof.
  eexists. split; [vm_compute; reflexivity|]. reflexivity.
Qed.

(** What [initiate_transfer] does guarantee: at the time of initiation the
    amount does not exceed the sender's balance, and no funds move. *)
Lemma initiate_transfer_checks_funds now uuid sender recipient rid amount descr s m s' :
  initiate_transfer now uuid sender recipient rid amount descr s = Done (true, m) s' →
  ∃ sa ra,
    accounts s !! sender = Some sa ∧ accounts s !! recipient = Some ra ∧
    sender ≠ recipient ∧ amount ≤ balance sa ∧ m = TransferId uuid ∧
    s' = set_transfer_data
           <[uuid := mkTransfer sender recipient rid amount now descr]> s.
Proof.
  unfold initiate_transfer. munfold.
  destruct (accounts s !! recipient) as [ra|] eqn:Hr; [|discriminate].
  destruct (decide (account_id ra ≠ rid)); [discriminate|].
  destruct (decide (sender = recipient)); [discriminate|].
  destruct (accounts s !! sender) as [sa|] eqn:Hs; simpl; [|discriminate].
  destruct (balance sa <? amount) eqn:Hb; [discriminate|].
  intros [= <- <-]. apply Z.ltb_ge in Hb. eauto 10.
Qed.

(** A single confirmation keeps the sender's balance non-negative exactly
    when the amount still does not exceed the balance at that time. *)
Lemma confirm_transfer_sender_balance now uuid transfer_id s td sa ra :
  transfer_data s !! transfer_id = Some td →
  accounts s !! tr_sender td = Some sa →
  accounts s !! tr_recipient td = Some ra →
  tr_sender td ≠ tr_recipient td →
  ∃ r s' sa',
    confirm_transfer now uuid transfer_id s = Done (true, r) s' ∧
    accounts s' !! tr_sender td = Some sa' ∧
    (0 ≤ balance sa' ↔ tr_amount td ≤ balance sa).
Proof.
  intros Htd Hs Hr Hne. eexists _, _, _. split.
  - apply confirm_transfer_spec; eassumption.
  - simpl. rewrite lookup_insert_ne by done. rewrite lookup_insert_eq.
    split; [reflexivity|]. simpl. lia.
Qed.

(** ** Authentication and lockout *)

Section Lockout.

Variable hash_password : string -> string.

Lemma authenticate_locked now username password s :
  is_locked now s username = true →
  authenticate hash_password now username password s = Done (false, AccountLocked) s.
Proof.
  intros H. unfold authenticate. munfold. rewrite H. reflexivity.
Qed.

(** The state after a successful login. *)
Definition logged_in (now : Z) (username : string) (acct : Account) (s : State) : State :=
  set_accounts <[username := set_last_login (Some now) acct]>
    (set_session true (Some username) (Some now)
       (set_failed_attempts (delete username) s)).

Lemma authenticate_correct_password now username password s acct :
  is_locked now s username = false →
  accounts s !! username = Some acct →
  password_hash acct = hash_password password →
  authenticate hash_password now username password s =
    Done (true, LoginSuccessful) (logged_in now username acct s).
Proof.
  intros Hl Ha Hp. unfold authenticate. munfold. rewrite Hl, Ha.
  destruct (decide _) as [Hne|_]; [done|]. reflexivity.
Qed.

(** The state after a failed attempt: the counter is incremented (from 0 when
    there was none) and stamped with the time of the attempt. *)
Definition failed_count (s : State) (username : string) : Z :=
  default 0 (count <$> failed_attempts s !! username).

Definition attempt_failed (now : Z) (username : string) (s : State) : State :=
  set_failed_attempts
    <[username := mkFailedAttempt (failed_count s username + 1) now]> s.

Lemma authenticate_wrong_password now username password s acct :
  is_locked now s username = false →
  accounts s !! username = Some acct →
  password_hash acct ≠ hash_password password →
  authenticate hash_password now username password s =
    Done (false,
          if 5 - (failed_count s username + 1) <=? 0 then AccountLocked
          else IncorrectPassword (5 - (failed_count s username + 1)))
      (attempt_failed now username s).
Proof.
  intros Hl Ha Hp. unfold authenticate. munfold. rewrite Hl, Ha.
  destruct (decide _) as [_|Heq]; [|done].
  unfold attempt_failed, failed_count, set_failed_attempts. simpl.
  rewrite lookup_insert_eq. simpl.
  destruct (failed_attempts s !! username) as [fa|]; simpl;
    [destruct (5 - (count fa + 1) <=? 0)|]; reflexivity.
Qed.

(** The lock test in terms of the time elapsed since the last failure: the
    test looks at the elapsed time modulo one day. *)
Lemma is_locked_iff now s username :
  is_locked now s username = true ↔
  ∃ fa, failed_attempts s !! username = Some fa ∧ 5 ≤ count fa ∧
        (now - timestamp fa) mod 86400 < 3600.
Proof.
  unfold is_locked, timedelta_seconds. split.
  - destruct (failed_attempts s !! username) as [fa|]; [|discriminate].
    intros [H1 H2]%andb_true_iff. exists fa. split; [reflexivity|]. lia.
  - intros (fa & -> & H1 & H2). apply andb_true_iff. lia.
Qed.

(** Within the first day after the last failure the lock lasts one hour. *)
Lemma is_locked_first_day now s username fa :
  failed_attempts s !! username = Some fa →
  0 ≤ now - timestamp fa < 86400 →
  is_locked now s username = true ↔ 5 ≤ count fa ∧ now - timestamp fa < 3600.
Proof.
  intros Hfa Hd. rewrite is_locked_iff, Hfa.
  pose proof (Z.mod_small _ 86400 Hd) as Hm. split.
  - intros (fa' & [= <-] & H). lia.
  - intros H. exists fa. split; [reflexivity|]. lia.
Qed.

(** bob has mistyped his password five times, the last time at second 1000. *)
Definition bob_registered : State :=
  set_accounts
    (λ _, {["bob" := mkAccount (hash_password "S3cret!pw") 0 0 "e5f6a7b8"
                       (Some "bob@x.org") None]})
    init_session_state.

Definition five_failures : State :=
  set_failed_attempts (λ _, {["bob" := mkFailedAttempt 5 1000]}) bob_registered.

Definition five_wrong_attempts : M (bool * message) :=
  authenticate hash_password 100 "bob" "guess1";;
  authenticate hash_password 200 "bob" "guess2";;
  authenticate hash_password 300 "bob" "guess3";;
  authenticate hash_password 400 "bob" "guess4";;
  authenticate hash_password 1000 "bob" "guess5".

Lemma five_wrong_attempts_lock :
  (∀ guess, guess ≠ "S3cret!pw" → hash_password guess ≠ hash_password "S3cret!pw") →
  five_wrong_attempts bob_registered = Done (false, AccountLocked) five_failures.
Proof.
  intros Hinj. unfold five_wrong_attempts.
  assert (Hstep : ∀ now guess n t,
    guess ≠ "S3cret!pw" → 0 ≤ n < 5 →
    authenticate hash_password now "bob" guess
      (set_failed_attempts (λ _, {["bob" := mkFailedAttempt n t]}) bob_registered) =
    Done (false, if 5 - (n + 1) <=? 0 then AccountLocked else IncorrectPassword (5 - (n + 1)))
      (set_failed_attempts (λ _, {["bob" := mkFailedAttempt (n + 1) now]}) bob_registered)).
  { intros now guess n t Hg Hn.
    erewrite authenticate_wrong_password.
    - unfold attempt_failed, failed_count. simpl. rewrite lookup_singleton_eq. simpl.
      unfold set_failed_attempts. simpl. rewrite insert_singleton_eq. reflexivity.
    - unfold is_locked. simpl. rewrite lookup_singleton_eq. simpl.
      apply andb_false_iff. left. lia.
    - reflexivity.
    - simpl. intros E. symmetry in E. by apply Hinj in E. }
  unfold mbind at 1, M_bind at 1.
  erewrite authenticate_wrong_password; [| reflexivity | reflexivity |].
  2:{ simpl. intros E. symmetry in E. by apply Hinj in E. }
  unfold mbind at 1, M_bind at 1.
  change (attempt_failed 100 "bob" bob_registered) with
    (set_failed_attempts (λ _, {["bob" := mkFailedAttempt 1 100]}) bob_registered).
  rewrite (Hstep 200 "guess2" 1 100) by (done || lia).
  unfold mbind at 1, M_bind at 1.
  rewrite (Hstep 300 "guess3" (1 + 1) 200) by (done || lia).
  unfold mbind at 1, M_bind at 1.
  rewrite (Hstep 400 "guess4" (1 + 1 + 1) 300) by (done || lia).
  rewrite (Hstep 1000 "guess5" (1 + 1 + 1 + 1) 400) by (done || lia).
  reflexivity.
Qed.

End Lockout.

(** One hour after the fifth failure the correct password is accepted ... *)
Lemma authenticate_after_one_hour (hash_password : string -> string) :
  ∃ s',
    authenticate hash_password (1000 + 3600) "bob" "S3cret!pw"
      (five_failures hash_password) = Done (true, LoginSuccessful) s' ∧
    failed_attempts s' !! "bob" = None.
Proof.
  eexists. split.
  - apply authenticate_correct_password; reflexivity.
  - reflexivity.
Qed.

(** [C4], at the input on which the code departs from it: one day
    after the fifth failure, when far more than 3600 seconds have elapsed,
    the attempt with the correct password fails with the locked message and
    the failure record stays. The lock test reads [timedelta.seconds], the
    seconds component of the elapsed time, so the lock of one hour comes
    back every 24 hours. *)
Theorem authenticate_locked_one_day_later (hash_password : string -> string) :
  3600 ≤ (1000 + 86400) - timestamp (mkFailedAttempt 5 1000) ∧
  authenticate hash_password (1000 + 86400) "bob" "S3cret!pw"
    (five_failures hash_password) =
  Done (false, AccountLocked) (five_failures hash_password).
Proof.
  split; [simpl; lia|]. apply authenticate_locked. reflexivity.
Qed.

(** The lock recurs every day, for ever. *)
Lemma authenticate_locked_daily (hash_password : string -> string) (days seconds : Z) :
  0 ≤ seconds < 3600 →
  authenticate hash_password (1000 + days * 86400 + seconds) "bob" "S3cret!pw"
    (five_failures hash_password) =
  Done (false, AccountLocked) (five_failures hash_password).
Proof.
  intros H. apply authenticate_locked. apply is_locked_iff.
  eexists. split; [reflexivity|]. simpl. split; [lia|].
  replace (1000 + days * 86400 + seconds - 1000) with (seconds + days * 86400) by lia.
  rewrite Z.mod_add by lia. rewrite Z.mod_small by lia. lia.
Qed.

(** ** Loan payments *)

Lemma find_loan_Some s username loan_id loan :
  find_loan s username loan_id = Some loan ↔
  ∃ user_loans, loans s !! username = Some user_loans ∧ user_loans !! loan_id = Some loan.
Proof.
  unfold find_loan. destruct (loans s !! username) as [ul|]; simpl.
  - split; [eauto | by intros (? & [= <-] & ?)].
  - split; [done | by intros (? & ? & ?)].
Qed.

Lemma update_loan_spec username loan_id f s user_loans loan :
  loans s !! username = Some user_loans →
  user_loans !! loan_id = Some loan →
  update_loan username loan_id f s =
    Done tt (set_loans <[username := <[loan_id := f loan]> user_loans]> s).
Proof.
  intros H1 H2. unfold update_loan. munfold. rewrite H1. simpl. rewrite H2. reflexivity.
Qed.

(** The loan after an accepted payment that leaves [remaining] to pay. *)
Definition loan_after_payment (now : Z) (remaining : float) (loan : Loan) : Loan :=
  let paid := set_payments_made (payments_made loan + 1)
                (set_remaining_balance remaining loan) in
  if Float64.le_int remaining 0 then set_paid now paid else paid.

(** The state after an accepted payment. *)
Definition payment_applied (now : Z) (uuid username loan_id : string) (amount : Z)
    (acct : Account) (user_loans : gmap string Loan) (loan : Loan)
    (remaining : float) (s : State) : State :=
  set_loans <[username := <[loan_id := loan_after_payment now remaining loan]> user_loans]>
    (set_transactions
       (record username uuid
          (mkTransaction LoanPayment amount now (balance acct - amount) uuid
             (Some ("Loan ID: " +:+ loan_id))))
       (set_accounts <[username := set_balance (balance acct - amount) acct]> s)).

Lemma make_loan_payment_accepted now uuid username loan_id amount s acct user_loans loan :
  loans s !! username = Some user_loans →
  user_loans !! loan_id = Some loan →
  accounts s !! username = Some acct →
  status loan = LoanActive →
  0 < amount →
  amount ≤ balance acct →
  monthly_payment loan ≤ amount →
  make_loan_payment now uuid username loan_id amount s =
    match Float64.of_Z amount with
    | S754_infinity _ =>
        Raised OverflowError
          (set_accounts <[username := set_balance (balance acct - amount) acct]> s)
    | y =>
        Done (true, PaymentApplied amount loan_id)
          (payment_applied now uuid username loan_id amount acct user_loans loan
             (Float64.sub (remaining_balance loan) y) s)
    end.
Proof.
  intros Hul Hl Ha Hst Hpos Hbal Hmp.
  assert (Hfind : find_loan s username loan_id = Some loan)
    by (apply find_loan_Some; eauto).
  unfold make_loan_payment. rewrite bind_get, Hfind.
  destruct (decide (status loan ≠ LoanActive)) as [Hne|_]; [done|].
  destruct (amount <=? 0) eqn:E1; [lia|].
  unfold subscript. rewrite Ha, bind_ret.
  destruct (balance acct <? amount) eqn:E2; [lia|].
  destruct (amount <? monthly_payment loan) eqn:E3; [lia|].
  rewrite (bind_Done _ _ _ _ _ (add_balance_spec _ _ _ _ Ha)).
  rewrite Z.add_opp_r, bind_float_sub_int.
  destruct (Float64.of_Z amount) as [b|b| |b m e]; [|reflexivity| |].
  all: match goal with
       | |- context [Float64.sub (remaining_balance ?l) ?y] =>
           set (rem := Float64.sub (remaining_balance l) y)
       end.
  all: erewrite bind_Done by (apply update_loan_spec; simpl; eassumption).
  all: erewrite bind_Done
         by (apply update_loan_spec; simpl; apply lookup_insert_eq).
  all: erewrite bind_Done
         by (apply record_transaction_spec; simpl; apply lookup_insert_eq).
  all: unfold payment_applied, loan_after_payment; simpl default.
  all: match goal with |- context [Float64.le_int ?r 0] => destruct (Float64.le_int r 0) end.
  all: try (erewrite bind_Done
              by (apply update_loan_spec; simpl; apply lookup_insert_eq)).
  all: rewrite ?bind_ret; unfold mret, M_ret.
  all: unfold set_loans, set_transactions, set_accounts; simpl.
  all: rewrite !insert_insert_eq; reflexivity.
Qed.

(** The validation of a loan payment as the specification words it: five
    conditions in a fixed order, each with its message; the failure reported
    is that of the first condition of the list that holds. *)
Definition payment_checks (s : State) (username loan_id : string) (amount : Z)
    : list (bool * message) :=
  let loan := find_loan s username loan_id in
  [ (negb (bool_decide (is_Some loan)), LoanNotFound);
    (from_option (λ l, bool_decide (status l ≠ LoanActive)) false loan, LoanNotActive);
    (amount <=? 0, PaymentAmountMustBePositive);
    (from_option (λ a, balance a <? amount) false (accounts s !! username),
     InsufficientFundsForPayment);
    (from_option (λ l, amount <? monthly_payment l) false loan,
     MinimumPaymentRequired (from_option monthly_payment 0 loan)) ].

Definition first_failure (checks : list (bool * message)) : option message :=
  snd <$> List.find fst checks.

(** A user with loans, for the examples: carol borrowed 1200 over 12 months. *)
Definition carol : Account := mkAccount "h3" 500 0 "c9d0e1f2" (Some "carol@x.org") None.

Definition carol_loan : Loan :=
  mkLoan 1200 12 LOAN_INTEREST_RATE 105 (Float64.of_Z 1260) 0 LoanActive 0 None.

Definition carol_with_loan : State :=
  set_loans (λ _, {["carol" := {["l1" := carol_loan]}]})
    (set_accounts (λ _, {["carol" := carol]}) init_session_state).

(** [C5] The validation checks of [make_loan_payment] are applied in the
    order: loan not found, loan not active, non-positive amount, insufficient
    account funds, amount below the monthly payment. The failure reported is
    the first of these conditions that holds, and a failure changes neither
    an account balance nor a loan (nor anything else in the state); when none
    of the conditions holds the call reports no failure. *)
Theorem make_loan_payment_precedence now uuid username loan_id amount s :
  is_Some (accounts s !! username) →
  match first_failure (payment_checks s username loan_id amount) with
  | Some m => make_loan_payment now uuid username loan_id amount s = Done (false, m) s
  | None => ∀ m s', make_loan_payment now uuid username loan_id amount s ≠ Done (false, m) s'
  end ∧
  ∀ m s', make_loan_payment now uuid username loan_id amount s = Done (false, m) s' →
    s' = s ∧ first_failure (payment_checks s username loan_id amount) = Some m.
Proof.
  intros [acct Ha].
  assert (Hmain :
    match first_failure (payment_checks s username loan_id amount) with
    | Some m => make_loan_payment now uuid username loan_id amount s = Done (false, m) s
    | None => ∀ m s',
        make_loan_payment now uuid username loan_id amount s ≠ Done (false, m) s'
    end).
  { unfold first_failure, payment_checks.
    destruct (find_loan s username loan_id) as [loan|] eqn:Hfind.
    2:{ simpl. unfold make_loan_payment. rewrite bind_get, Hfind. reflexivity. }
    rewrite bool_decide_eq_true_2 by eauto. cbn [negb List.find fst from_option].
    destruct (decide (status loan ≠ LoanActive)) as [Hst|Hst].
    { rewrite bool_decide_eq_true_2 by done. simpl.
      unfold make_loan_payment. rewrite bind_get, Hfind.
      destruct (decide _); [reflexivity|done]. }
    rewrite bool_decide_eq_false_2 by done.
    destruct (amount <=? 0) eqn:E1.
    { simpl. unfold make_loan_payment. rewrite bind_get, Hfind.
      destruct (decide _); [done|]. rewrite E1. reflexivity. }
    rewrite Ha. cbn [from_option].
    destruct (balance acct <? amount) eqn:E2.
    { simpl. unfold make_loan_payment. rewrite bind_get, Hfind.
      destruct (decide _); [done|]. rewrite E1. unfold subscript.
      rewrite Ha, bind_ret, E2. reflexivity. }
    destruct (amount <? monthly_payment loan) eqn:E3.
    { simpl. unfold make_loan_payment. rewrite bind_get, Hfind.
      destruct (decide _); [done|]. rewrite E1. unfold subscript.
      rewrite Ha, bind_ret, E2, E3. reflexivity. }
    simpl. intros m s'.
    apply find_loan_Some in Hfind as (user_loans & Hul & Hl).
    erewrite make_loan_payment_accepted; try eassumption; try lia.
    - destruct (Float64.of_Z amount); discriminate.
    - destruct (status loan); [reflexivity|]. exfalso. apply Hst. discriminate. }
  split; [exact Hmain|].
  intros m s' Hrun. destruct (first_failure _) as [m0|].
  - rewrite Hmain in Hrun. by injection Hrun as -> ->.
  - by apply Hmain in Hrun.
Qed.

Lemma make_loan_payment_precedence_witness :
  make_loan_payment 50 "x1" "carol" "l1" 0 carol_with_loan =
    Done (false, PaymentAmountMustBePositive) carol_with_loan ∧
  make_loan_payment 50 "x1" "carol" "l1" 600 carol_with_loan =
    Done (false, InsufficientFundsForPayment) carol_with_loan ∧
  make_loan_payment 50 "x1" "carol" "l1" 100 carol_with_loan =
    Done (false, MinimumPaymentRequired 105) carol_with_loan ∧
  make_loan_payment 50 "x1" "carol" "l9" 0 carol_with_loan =
    Done (false, LoanNotFound) carol_with_loan.
Proof.
  assert (Ha : is_Some (accounts carol_with_loan !! "carol")) by (by eexists).
  split; [|split; [|split]].
  - exact (proj1 (make_loan_payment_precedence 50 "x1" "carol" "l1" 0 carol_with_loan Ha)).
  - exact (proj1 (make_loan_payment_precedence 50 "x1" "carol" "l1" 600 carol_with_loan Ha)).
  - exact (proj1 (make_loan_payment_precedence 50 "x1" "carol" "l1" 100 carol_with_loan Ha)).
  - exact (proj1 (make_loan_payment_precedence 50 "x1" "carol" "l9" 0 carol_with_loan Ha)).
Defined.

(** ** Float computations leave the state alone *)

Lemma float_of_int_Done z s y s' :
  float_of_int z s = Done y s' → s' = s ∧ y = Float64.of_Z z.
Proof.
  unfold float_of_int. munfold. destruct (Float64.of_Z z); by intros [= <- <-].
Qed.

Lemma int_add_float_Done z x s y s' :
  int_add_float z x s = Done y s' → s' = s ∧ y = Float64.add (Float64.of_Z z) x.
Proof.
  unfold int_add_float. intros (a & s1 & H1 & H2)%bind_Done_inv.
  apply float_of_int_Done in H1 as [-> ->]. by injection H2 as <- <-.
Qed.

Lemma int_mul_float_Done z x s y s' :
  int_mul_float z x s = Done y s' → s' = s ∧ y = Float64.mul (Float64.of_Z z) x.
Proof.
  unfold int_mul_float. intros (a & s1 & H1 & H2)%bind_Done_inv.
  apply float_of_int_Done in H1 as [-> ->]. by injection H2 as <- <-.
Qed.

Lemma float_div_int_Done x z s y s' :
  float_div_int x z s = Done y s' → s' = s ∧ y = Float64.div x (Float64.of_Z z).
Proof.
  unfold float_div_int. intros (a & s1 & H1 & H2)%bind_Done_inv.
  apply float_of_int_Done in H1 as [-> ->]. revert H2. munfold.
  destruct (Float64.of_Z z); by intros [= <- <-].
Qed.

Lemma int_true_div_Done a b s y s' :
  int_true_div a b s = Done y s' →
  s' = s ∧ y = Float64.div (exact_of_Z a) (exact_of_Z b).
Proof.
  unfold int_true_div. munfold. destruct (decide (b = 0)); [discriminate|].
  destruct (Float64.div _ _); by intros [= <- <-].
Qed.

Lemma py_round_Done x s n s' :
  py_round x s = Done n s' → s' = s ∧ n = Float64.round x.
Proof.
  unfold py_round. munfold. destruct x; by intros [= <- <-].
Qed.

Lemma datetime_add_days_Done now days s t s' :
  datetime_add_days now days s = Done t s' →
  s' = s ∧ t = now + days * 86400 ∧ Z.abs days ≤ TIMEDELTA_MAX_DAYS ∧
  DATETIME_MIN ≤ t ≤ DATETIME_MAX.
Proof.
  unfold datetime_add_days.
  destruct (TIMEDELTA_MAX_DAYS <? Z.abs days) eqn:E1; [mdiscriminate|].
  destruct (now + days * 86400 <? DATETIME_MIN) eqn:E2; [mdiscriminate|].
  destruct (DATETIME_MAX <? now + days * 86400) eqn:E3; [mdiscriminate|].
  simpl. intros [= <- <-]. unfold TIMEDELTA_MAX_DAYS, DATETIME_MIN, DATETIME_MAX in *.
  split; [reflexivity|lia].
Qed.

Lemma datetime_add_days_spec now days s :
  Z.abs days ≤ TIMEDELTA_MAX_DAYS →
  DATETIME_MIN ≤ now + days * 86400 ≤ DATETIME_MAX →
  datetime_add_days now days s = Done (now + days * 86400) s.
Proof.
  intros H1 H2. unfold datetime_add_days.
  unfold TIMEDELTA_MAX_DAYS, DATETIME_MIN, DATETIME_MAX in *.
  destruct (999999999 <? Z.abs days) eqn:E1; [lia|].
  destruct (now + days * 86400 <? -62135596800) eqn:E2; [lia|].
  destruct (253402300799 <? now + days * 86400) eqn:E3; [lia|]. reflexivity.
Qed.

(** The amount owed on a loan of [principal]: [principal * (1 + 0.05)],
    whatever the duration. *)
Definition loan_total (principal : Z) : float :=
  Float64.mul (Float64.of_Z principal)
    (Float64.add (Float64.of_Z 1) LOAN_INTEREST_RATE).

Lemma calculate_monthly_payment_Done principal months s n s' :
  calculate_monthly_payment principal months s = Done n s' →
  s' = s ∧
  n = Float64.round (Float64.div (loan_total principal) (Float64.of_Z months)).
Proof.
  unfold calculate_monthly_payment.
  intros (rate & s1 & H1 & H2)%bind_Done_inv.
  apply int_add_float_Done in H1 as [-> ->].
  apply bind_Done_inv in H2 as (total & s2 & H2 & H3).
  apply int_mul_float_Done in H2 as [-> ->].
  apply bind_Done_inv in H3 as (q & s3 & H3 & H4).
  apply float_div_int_Done in H3 as [-> ->].
  apply py_round_Done in H4 as [-> ->]. done.
Qed.

(** ** Loan applications *)

Lemma ensure_key_lookup {V : Type} (username : string) (d : gmap string (gmap string V)) :
  ensure_key username d !! username = Some (default ∅ (d !! username)).
Proof.
  unfold ensure_key. destruct (d !! username) eqn:E; simpl.
  - exact E.
  - apply lookup_insert_eq.
Qed.

(** The state after an approved loan. *)
Definition loan_granted (now : Z) (loan_id uuid username : string)
    (amount duration_months : Z) (acct : Account) (s : State) : State :=
  set_transactions
    (record username uuid
       (mkTransaction LoanDisbursement amount now (balance acct + amount) uuid
          (Some ("Loan ID: " +:+ loan_id))))
    (set_accounts <[username := set_balance (balance acct + amount) acct]>
       (set_loans
          (λ l, <[username :=
                   <[loan_id :=
                      mkLoan amount duration_months LOAN_INTEREST_RATE
                        (Float64.round
                           (Float64.div (loan_total amount) (Float64.of_Z duration_months)))
                        (loan_total amount) now LoanActive 0 None]>
                     (default ∅ (l !! username))]> l)
          s)).

Lemma apply_for_loan_Done now loan_id uuid username amount duration_months s m s' :
  apply_for_loan now loan_id uuid username amount duration_months s = Done (true, m) s' →
  ∃ acct,
    accounts s !! username = Some acct ∧
    m = LoanApproved amount loan_id ∧
    s' = loan_granted now loan_id uuid username amount duration_months acct s.
Proof.
  unfold apply_for_loan.
  destruct (amount <=? 0); [discriminate|].
  destruct (duration_months <=? 0); [discriminate|].
  rewrite bind_get.
  destruct (accounts s !! username) as [acct|] eqn:Ha;
    [|by rewrite (bind_subscript_None _ _ _ _ Ha)].
  rewrite (bind_subscript_Some _ _ _ _ _ Ha).
  destruct (timedelta_days (now - created acct) <? 90); [discriminate|].
  destruct (has_active_loan s username); [discriminate|].
  intros (mp & s1 & H1 & H2)%bind_Done_inv.
  apply calculate_monthly_payment_Done in H1 as [-> ->].
  rewrite bind_modify in H2.
  apply bind_Done_inv in H2 as (rate & s2 & H2 & H3).
  apply int_add_float_Done in H2 as [-> ->].
  apply bind_Done_inv in H3 as (rem & s3 & H3 & H4).
  apply int_mul_float_Done in H3 as [-> ->].
  rewrite bind_get in H4.
  rewrite (bind_subscript_Some _ _ _ _ _ (ensure_key_lookup username (loans s))) in H4.
  rewrite bind_modify in H4.
  erewrite bind_Done in H4 by (apply add_balance_spec; simpl; exact Ha).
  erewrite bind_Done in H4
    by (apply record_transaction_spec; simpl; apply lookup_insert_eq).
  injection H4 as <- <-. exists acct. split; [reflexivity|]. split; [reflexivity|].
  unfold loan_granted, set_transactions, set_accounts, set_loans, ensure_key. simpl.
  destruct (loans s !! username) eqn:E; simpl; rewrite ?insert_insert_eq; reflexivity.
Qed.

(** [C6] For a successful loan application with principal [P] and
    duration [M], the monthly payment stored with the loan is
    [round(P * (1 + 0.05) / M)], the remaining balance starts at
    [P * (1 + 0.05)], an expression in which the duration does not occur, and
    the balance of the account grows by exactly [P]. For [P = 1200] and
    [M = 12] the monthly payment is 105 and the remaining balance 1260. *)
Theorem apply_for_loan_terms now loan_id uuid username P M s m s' :
  apply_for_loan now loan_id uuid username P M s = Done (true, m) s' →
  ∃ acct loan,
    accounts s !! username = Some acct ∧
    find_loan s' username loan_id = Some loan ∧
    monthly_payment loan =
      Float64.round
        (Float64.div
           (Float64.mul (Float64.of_Z P)
              (Float64.add (Float64.of_Z 1) Float64.lit_0_05))
           (Float64.of_Z M)) ∧
    remaining_balance loan =
      Float64.mul (Float64.of_Z P) (Float64.add (Float64.of_Z 1) Float64.lit_0_05) ∧
    status loan = LoanActive ∧
    balance <$> accounts s' !! username = Some (balance acct + P) ∧
    (P = 1200 → M = 12 →
       monthly_payment loan = 105 ∧ remaining_balance loan = Float64.of_Z 1260 ∧
       Float64.eq_int (remaining_balance loan) 1260 = true).
Proof.
  intros (acct & Ha & -> & ->)%apply_for_loan_Done.
  exists acct. eexists. split; [exact Ha|]. split.
  { unfold find_loan, loan_granted. simpl. rewrite lookup_insert_eq. simpl.
    apply lookup_insert_eq. }
  simpl. rewrite lookup_insert_eq. repeat (split; [reflexivity|]).
  intros -> ->. vm_compute. auto.
Qed.

(** dave opened his account 100 days ago. *)
Definition dave : Account := mkAccount "h4" 50 0 "0a1b2c3d" (Some "dave@x.org") None.

Definition dave_registered : State :=
  set_accounts (λ _, {["dave" := dave]}) init_session_state.

Lemma apply_for_loan_terms_witness :
  ∃ s' loan,
    apply_for_loan (100 * 86400) "l1" "x1" "dave" 1200 12 dave_registered =
      Done (true, LoanApproved 1200 "l1") s' ∧
    find_loan s' "dave" "l1" = Some loan ∧
    monthly_payment loan = 105 ∧
    remaining_balance loan = Float64.of_Z 1260 ∧
    balance <$> accounts s' !! "dave" = Some 1250.
Proof.
  destruct (apply_for_loan (100 * 86400) "l1" "x1" "dave" 1200 12 dave_registered)
    as [[b m] s'|] eqn:E; [|vm_compute in E; discriminate E].
  assert (Hm : (b, m) = (true, LoanApproved 1200 "l1")).
  { vm_compute in E. congruence. }
  injection Hm as -> ->.
  destruct (apply_for_loan_terms _ _ _ _ _ _ _ _ _ E)
    as (acct & loan & Ha & Hl & _ & _ & _ & Hb & Hex).
  exists s', loan. split; [reflexivity|]. split; [exact Hl|].
  destruct (Hex eq_refl eq_refl) as (Hmp & Hrem & _).
  split; [exact Hmp|]. split; [exact Hrem|].
  injection Ha as <-. exact Hb.
Defined.

(** ** Fixed deposits *)

Lemma find_fixed_deposit_Some s username fd_id fd :
  find_fixed_deposit s username fd_id = Some fd ↔
  ∃ user_fds, fixed_deposits s !! username = Some user_fds ∧ user_fds !! fd_id = Some fd.
Proof.
  unfold find_fixed_deposit. destruct (fixed_deposits s !! username) as [ul|]; simpl.
  - split; [eauto | by intros (? & [= <-] & ?)].
  - split; [done | by intros (? & ? & ?)].
Qed.

Lemma update_fixed_deposit_spec username fd_id f s user_fds fd :
  fixed_deposits s !! username = Some user_fds →
  user_fds !! fd_id = Some fd →
  update_fixed_deposit username fd_id f s =
    Done tt (set_fixed_deposits <[username := <[fd_id := f fd]> user_fds]> s).
Proof.
  intros H1 H2. unfold update_fixed_deposit. munfold. rewrite H1. simpl. rewrite H2.
  reflexivity.
Qed.

(** The amount paid at maturity: [round(principal * (1 + 0.07 * (months/12)))]. *)
Definition maturity_value (principal months : Z) : Z :=
  Float64.round
    (Float64.mul (Float64.of_Z principal)
       (Float64.add (Float64.of_Z 1)
          (Float64.mul Float64.lit_0_07
             (Float64.div (exact_of_Z months) (exact_of_Z 12))))).

Lemma calculate_maturity_amount_Done principal months s n s' :
  calculate_maturity_amount principal months s = Done n s' →
  s' = s ∧ n = maturity_value principal months.
Proof.
  unfold calculate_maturity_amount.
  intros (years & s1 & H1 & H2)%bind_Done_inv.
  apply int_true_div_Done in H1 as [-> ->].
  apply bind_Done_inv in H2 as (growth & s2 & H2 & H3).
  apply int_add_float_Done in H2 as [-> ->].
  apply bind_Done_inv in H3 as (total & s3 & H3 & H4).
  apply int_mul_float_Done in H3 as [-> ->].
  apply py_round_Done in H4 as [-> ->]. done.
Qed.

(** The state after the creation of a fixed deposit. *)
Definition fixed_deposit_created (now : Z) (fd_id uuid username : string)
    (amount duration_months : Z) (acct : Account) (s : State) : State :=
  set_transactions
    (record username uuid
       (mkTransaction FixedDepositCreation amount now (balance acct - amount) uuid
          (Some ("FD ID: " +:+ fd_id))))
    (set_accounts <[username := set_balance (balance acct - amount) acct]>
       (set_fixed_deposits
          (λ d, <[username :=
                   <[fd_id :=
                      mkFixedDeposit amount duration_months FIXED_DEPOSIT_INTEREST
                        (maturity_value amount duration_months) now
                        (now + fd_term_seconds duration_months) FdActive None]>
                     (default ∅ (d !! username))]> d)
          s)).

Lemma create_fixed_deposit_Done now fd_id uuid username amount duration_months s m s' :
  create_fixed_deposit now fd_id uuid username amount duration_months s = Done (true, m) s' →
  ∃ acct,
    accounts s !! username = Some acct ∧ 0 < amount ≤ balance acct ∧
    0 < duration_months ∧
    DATETIME_MIN ≤ now + fd_term_seconds duration_months ≤ DATETIME_MAX ∧
    m = FixedDepositCreated fd_id ∧
    s' = fixed_deposit_created now fd_id uuid username amount duration_months acct s.
Proof.
  unfold create_fixed_deposit.
  destruct (amount <=? 0) eqn:E1; [discriminate|].
  destruct (duration_months <=? 0) eqn:E2; [discriminate|].
  rewrite bind_get.
  destruct (accounts s !! username) as [acct|] eqn:Ha;
    [|by rewrite (bind_subscript_None _ _ _ _ Ha)].
  rewrite (bind_subscript_Some _ _ _ _ _ Ha).
  destruct (balance acct <? amount) eqn:E3; [discriminate|].
  intros (ma & s1 & H1 & H2)%bind_Done_inv.
  apply calculate_maturity_amount_Done in H1 as [-> ->].
  rewrite bind_modify in H2.
  apply bind_Done_inv in H2 as (md & s2 & Hd & H2).
  apply datetime_add_days_Done in Hd as (-> & -> & _ & Hrange).
  replace (now + 30 * duration_months * 86400)
    with (now + fd_term_seconds duration_months) in * by (unfold fd_term_seconds; lia).
  rewrite bind_get in H2.
  rewrite (bind_subscript_Some _ _ _ _ _
             (ensure_key_lookup username (fixed_deposits s))) in H2.
  rewrite bind_modify in H2.
  erewrite bind_Done in H2 by (apply add_balance_spec; simpl; exact Ha).
  erewrite bind_Done in H2
    by (apply record_transaction_spec; simpl; apply lookup_insert_eq).
  injection H2 as <- <-. exists acct. split; [reflexivity|].
  split; [lia|]. split; [lia|]. split; [exact Hrange|]. split; [reflexivity|].
  unfold fixed_deposit_created, set_transactions, set_accounts, set_fixed_deposits,
    ensure_key. simpl. rewrite Z.add_opp_r.
  destruct (fixed_deposits s !! username) eqn:E; simpl;
    rewrite ?insert_insert_eq; reflexivity.
Qed.


Lemma close_fixed_deposit_not_matured now uuid username fd_id s fd :
  find_fixed_deposit s username fd_id = Some fd →
  fd_state fd = FdActive →
  now < maturity_date fd →
  close_fixed_deposit now uuid username fd_id s = Done (false, FixedDepositNotMatured) s.
Proof.
  intros Hf Hst Hlt. unfold close_fixed_deposit. rewrite bind_get, Hf.
  destruct (decide _) as [Hn|_]; [done|].
  destruct (now <? maturity_date fd) eqn:E; [reflexivity|lia].
Qed.

(** The state after the closure of a matured deposit. *)
Definition fixed_deposit_closed (now : Z) (uuid username fd_id : string)
    (acct : Account) (user_fds : gmap string FixedDeposit) (fd : FixedDeposit)
    (s : State) : State :=
  set_fixed_deposits <[username := <[fd_id := set_closed now fd]> user_fds]>
    (set_transactions
       (record username uuid
          (mkTransaction FixedDepositMaturity (maturity_amount fd) now
             (balance acct + maturity_amount fd) uuid (Some ("FD ID: " +:+ fd_id))))
       (set_accounts
          <[username := set_balance (balance acct + maturity_amount fd) acct]> s)).

Lemma close_fixed_deposit_matured now uuid username fd_id s acct user_fds fd :
  fixed_deposits s !! username = Some user_fds →
  user_fds !! fd_id = Some fd →
  accounts s !! username = Some acct →
  fd_state fd = FdActive →
  maturity_date fd ≤ now →
  close_fixed_deposit now uuid username fd_id s =
    Done (true, FixedDepositClosed fd_id (maturity_amount fd))
      (fixed_deposit_closed now uuid username fd_id acct user_fds fd s).
Proof.
  intros Hu Hf Ha Hst Hge.
  assert (Hfind : find_fixed_deposit s username fd_id = Some fd)
    by (apply find_fixed_deposit_Some; eauto).
  unfold close_fixed_deposit. rewrite bind_get, Hfind.
  destruct (decide _) as [Hn|_]; [done|].
  destruct (now <? maturity_date fd) eqn:E; [lia|].
  rewrite (bind_Done _ _ _ _ _ (add_balance_spec _ _ _ _ Ha)).
  erewrite bind_Done
    by (apply record_transaction_spec; simpl; apply lookup_insert_eq).
  erewrite bind_Done by (apply update_fixed_deposit_spec; simpl; eassumption).
  reflexivity.
Qed.

(** ** The balance-after field of recorded transactions *)

(** [transactions[username][id]], when both keys are present. *)
Definition find_transaction (s : State) (username id : string) : option Transaction :=
  transactions s !! username ≫= (.!! id).

(** Every record of [s] that [s0] does not hold carries the balance its
    owner has in [s]. *)
Definition snapshots_current (s0 s : State) : Prop :=
  ∀ username id t,
    find_transaction s username id = Some t →
    find_transaction s0 username id ≠ Some t →
    ∃ acct, accounts s !! username = Some acct ∧ balance_after t = balance acct.

Lemma snapshots_current_no_record s0 s :
  transactions s = transactions s0 → snapshots_current s0 s.
Proof.
  intros H username id t H1 H2. unfold find_transaction in *. rewrite H in H1. done.
Qed.

Lemma snapshots_current_frame s0 s s' :
  snapshots_current s0 s →
  accounts s' = accounts s → transactions s' = transactions s →
  snapshots_current s0 s'.
Proof.
  intros H Ha Ht username id t H1 H2. unfold find_transaction in *.
  rewrite Ht in H1. rewrite Ha. by apply (H username id t).
Qed.

Lemma find_transaction_record s username id t username' id' :
  find_transaction (set_transactions (record username id t) s) username' id' =
    if decide (username = username' ∧ id = id') then Some t
    else find_transaction s username' id'.
Proof.
  unfold find_transaction, record. simpl.
  destruct (decide (username = username')) as [<-|Hu].
  - rewrite lookup_insert_eq. simpl.
    destruct (decide (id = id')) as [<-|Hi].
    + rewrite lookup_insert_eq. by rewrite decide_True.
    + rewrite lookup_insert_ne by done. rewrite decide_False by (by intros [_ ?]).
      by destruct (transactions s !! username).
  - rewrite lookup_insert_ne by done. by rewrite decide_False by (by intros [? _]).
Qed.

Lemma record_transaction_Done now uuid username type amount tid descr s i s' :
  record_transaction now uuid username type amount tid descr s = Done i s' →
  ∃ acct,
    accounts s !! username = Some acct ∧ i = default uuid tid ∧
    s' = set_transactions
           (record username i (mkTransaction type amount now (balance acct) i descr)) s.
Proof.
  destruct (accounts s !! username) as [acct|] eqn:Ha.
  - rewrite (record_transaction_spec _ _ _ _ _ _ _ _ _ Ha). intros [= <- <-]. eauto.
  - destruct (record_transaction_missing now uuid username type amount tid descr s Ha)
      as [s1 ->]. discriminate.
Qed.

Lemma record_transaction_snapshot now uuid username type amount tid descr s0 s i s' :
  snapshots_current s0 s →
  record_transaction now uuid username type amount tid descr s = Done i s' →
  snapshots_current s0 s'.
Proof.
  intros H (acct & Ha & -> & ->)%record_transaction_Done username' id' t H1 H2.
  rewrite find_transaction_record in H1. simpl.
  destruct (decide _) as [[<- <-]|_].
  - injection H1 as <-. eauto.
  - by apply (H username' id' t).
Qed.

Lemma add_balance_Done username delta s x s' :
  add_balance username delta s = Done x s' →
  ∃ acct, accounts s !! username = Some acct ∧
    s' = set_accounts <[username := set_balance (balance acct + delta) acct]> s.
Proof.
  destruct (accounts s !! username) as [acct|] eqn:Ha.
  - rewrite (add_balance_spec _ _ _ _ Ha). intros [= <-]. eauto.
  - by rewrite (add_balance_missing _ _ _ Ha).
Qed.

Lemma add_balance_transactions username delta s x s' :
  add_balance username delta s = Done x s' → transactions s' = transactions s.
Proof. by intros (acct & _ & ->)%add_balance_Done. Qed.

Lemma update_loan_Done username loan_id f s x s' :
  update_loan username loan_id f s = Done x s' →
  accounts s' = accounts s ∧ transactions s' = transactions s.
Proof.
  unfold update_loan. rewrite bind_get.
  intros (ul & s1 & H1 & H2)%bind_Done_inv.
  apply bind_Done_inv in H2 as (l & s2 & H2 & H3).
  revert H1 H2 H3. munfold.
  destruct (loans s !! username) as [user_loans|]; [|discriminate].
  intros H1. injection H1 as <- <-.
  destruct (user_loans !! loan_id); [|discriminate].
  intros H2 H3. injection H2 as <- <-. by injection H3 as <- <-.
Qed.

Lemma update_fixed_deposit_Done username fd_id f s x s' :
  update_fixed_deposit username fd_id f s = Done x s' →
  accounts s' = accounts s ∧ transactions s' = transactions s.
Proof.
  unfold update_fixed_deposit. rewrite bind_get.
  intros (ul & s1 & H1 & H2)%bind_Done_inv.
  apply bind_Done_inv in H2 as (l & s2 & H2 & H3).
  revert H1 H2 H3. munfold.
  destruct (fixed_deposits s !! username) as [user_fds|]; [|discriminate].
  intros H1. injection H1 as <- <-.
  destruct (user_fds !! fd_id); [|discriminate].
  intros H2 H3. injection H2 as <- <-. by injection H3 as <- <-.
Qed.

Lemma float_sub_int_Done x z s y s' :
  float_sub_int x z s = Done y s' → s' = s ∧ y = Float64.sub x (Float64.of_Z z).
Proof.
  unfold float_sub_int. intros (a & s1 & H1 & H2)%bind_Done_inv.
  apply float_of_int_Done in H1 as [-> ->]. by injection H2 as <- <-.
Qed.

(** Each operation records after its balance mutation, and mutates no
    balance once it has recorded. *)

Lemma deposit_snapshots now uuid username amount s r s' :
  deposit now uuid username amount s = Done r s' → snapshots_current s s'.
Proof.
  unfold deposit. destruct (amount <=? 0).
  { intros [= <- <-]. by apply snapshots_current_no_record. }
  intros ([] & s1 & H1 & H2)%bind_Done_inv.
  apply bind_Done_inv in H2 as (i & s2 & H2 & [= <- <-]).
  eapply record_transaction_snapshot; [|exact H2].
  apply snapshots_current_no_record. by eapply add_balance_transactions.
Qed.

Lemma withdraw_snapshots now uuid username amount s r s' :
  withdraw now uuid username amount s = Done r s' → snapshots_current s s'.
Proof.
  unfold withdraw. destruct (amount <=? 0).
  { intros [= <- <-]. by apply snapshots_current_no_record. }
  rewrite bind_get.
  intros (acct & s1 & H1 & H2)%bind_Done_inv.
  assert (s1 = s) as ->.
  { revert H1. munfold. destruct (accounts s !! username); by intros [= <- <-]. }
  destruct (balance acct <? amount).
  { injection H2 as <- <-. by apply snapshots_current_no_record. }
  apply bind_Done_inv in H2 as ([] & s2 & H2 & H3).
  apply bind_Done_inv in H3 as (i & s3 & H3 & [= <- <-]).
  eapply record_transaction_snapshot; [|exact H3].
  apply snapshots_current_no_record. by eapply add_balance_transactions.
Qed.

Lemma initiate_transfer_snapshots now uuid sender recipient rid amount descr s r s' :
  initiate_transfer now uuid sender recipient rid amount descr s = Done r s' →
  snapshots_current s s'.
Proof.
  intros H. apply snapshots_current_no_record. revert H.
  unfold initiate_transfer. munfold.
  destruct (accounts s !! recipient); [|by intros [= <- <-]].
  destruct (decide _); [by intros [= <- <-]|].
  destruct (decide _); [by intros [= <- <-]|].
  destruct (accounts s !! sender); simpl; [|discriminate].
  destruct (_ <? _); by intros [= <- <-].
Qed.

Lemma confirm_transfer_snapshots now uuid transfer_id s r s' :
  confirm_transfer now uuid transfer_id s = Done r s' → snapshots_current s s'.
Proof.
  unfold confirm_transfer. rewrite bind_get.
  destruct (transfer_data s !! transfer_id) as [td|].
  2:{ intros [= <- <-]. by apply snapshots_current_no_record. }
  intros ([] & s1 & H1 & H2)%bind_Done_inv.
  apply bind_Done_inv in H2 as ([] & s2 & H2 & H3).
  apply bind_Done_inv in H3 as (i1 & s3 & H3 & H4).
  apply bind_Done_inv in H4 as (i2 & s4 & H4 & H5).
  rewrite bind_modify in H5. injection H5 as <- <-.
  apply add_balance_transactions in H1, H2.
  apply (snapshots_current_frame s s4); [|reflexivity|reflexivity].
  eapply record_transaction_snapshot; [|exact H4].
  eapply record_transaction_snapshot; [|exact H3].
  apply snapshots_current_no_record. congruence.
Qed.

Lemma apply_for_loan_snapshots now loan_id uuid username amount months s r s' :
  apply_for_loan now loan_id uuid username amount months s = Done r s' →
  snapshots_current s s'.
Proof.
  unfold apply_for_loan.
  destruct (amount <=? 0).
  { intros [= <- <-]. by apply snapshots_current_no_record. }
  destruct (months <=? 0).
  { intros [= <- <-]. by apply snapshots_current_no_record. }
  rewrite bind_get.
  destruct (accounts s !! username) as [acct|] eqn:Ha;
    [|by rewrite (bind_subscript_None _ _ _ _ Ha)].
  rewrite (bind_subscript_Some _ _ _ _ _ Ha).
  destruct (_ <? 90).
  { intros [= <- <-]. by apply snapshots_current_no_record. }
  destruct (has_active_loan s username).
  { intros [= <- <-]. by apply snapshots_current_no_record. }
  intros (mp & s1 & H1 & H2)%bind_Done_inv.
  apply calculate_monthly_payment_Done in H1 as [-> ->].
  rewrite bind_modify in H2.
  apply bind_Done_inv in H2 as (rate & s2 & H2 & H3).
  apply int_add_float_Done in H2 as [-> ->].
  apply bind_Done_inv in H3 as (rem & s3 & H3 & H4).
  apply int_mul_float_Done in H3 as [-> ->].
  rewrite bind_get in H4.
  rewrite (bind_subscript_Some _ _ _ _ _ (ensure_key_lookup username (loans s))) in H4.
  rewrite bind_modify in H4.
  apply bind_Done_inv in H4 as ([] & s4 & H4 & H5).
  apply bind_Done_inv in H5 as (i & s5 & H5 & [= <- <-]).
  eapply record_transaction_snapshot; [|exact H5].
  apply snapshots_current_no_record.
  by rewrite (add_balance_transactions _ _ _ _ _ H4).
Qed.

Lemma make_loan_payment_snapshots now uuid username loan_id amount s r s' :
  make_loan_payment now uuid username loan_id amount s = Done r s' →
  snapshots_current s s'.
Proof.
  unfold make_loan_payment. rewrite bind_get.
  destruct (find_loan s username loan_id) as [loan|].
  2:{ intros [= <- <-]. by apply snapshots_current_no_record. }
  destruct (decide _).
  { intros [= <- <-]. by apply snapshots_current_no_record. }
  destruct (amount <=? 0).
  { intros [= <- <-]. by apply snapshots_current_no_record. }
  destruct (accounts s !! username) as [acct|] eqn:Ha;
    [|by rewrite (bind_subscript_None _ _ _ _ Ha)].
  rewrite (bind_subscript_Some _ _ _ _ _ Ha).
  destruct (_ <? amount).
  { intros [= <- <-]. by apply snapshots_current_no_record. }
  destruct (amount <? _).
  { intros [= <- <-]. by apply snapshots_current_no_record. }
  intros ([] & s1 & H1 & H2)%bind_Done_inv.
  apply bind_Done_inv in H2 as (rem & s2 & H2 & H3).
  apply float_sub_int_Done in H2 as [-> ->].
  apply bind_Done_inv in H3 as ([] & s3 & H3 & H4).
  apply bind_Done_inv in H4 as ([] & s4 & H4 & H5).
  apply bind_Done_inv in H5 as (i & s5 & H5 & H6).
  apply bind_Done_inv in H6 as ([] & s6 & H6 & [= <- <-]).
  apply add_balance_transactions in H1.
  apply update_loan_Done in H3 as [_ H3], H4 as [_ H4].
  assert (Hrec : snapshots_current s s5).
  { eapply record_transaction_snapshot; [|exact H5].
    apply snapshots_current_no_record. congruence. }
  destruct (Float64.le_int _ 0).
  - apply update_loan_Done in H6 as [H6 H7].
    by apply (snapshots_current_frame s s5).
  - by injection H6 as <-.
Qed.

Lemma create_fixed_deposit_snapshots now fd_id uuid username amount months s r s' :
  create_fixed_deposit now fd_id uuid username amount months s = Done r s' →
  snapshots_current s s'.
Proof.
  unfold create_fixed_deposit.
  destruct (amount <=? 0).
  { intros [= <- <-]. by apply snapshots_current_no_record. }
  destruct (months <=? 0).
  { intros [= <- <-]. by apply snapshots_current_no_record. }
  rewrite bind_get.
  destruct (accounts s !! username) as [acct|] eqn:Ha;
    [|by rewrite (bind_subscript_None _ _ _ _ Ha)].
  rewrite (bind_subscript_Some _ _ _ _ _ Ha).
  destruct (_ <? amount).
  { intros [= <- <-]. by apply snapshots_current_no_record. }
  intros (ma & s1 & H1 & H2)%bind_Done_inv.
  apply calculate_maturity_amount_Done in H1 as [-> ->].
  rewrite bind_modify in H2.
  apply bind_Done_inv in H2 as (md & s2 & Hd & H2).
  apply datetime_add_days_Done in Hd as (-> & -> & _ & _).
  rewrite bind_get in H2.
  rewrite (bind_subscript_Some _ _ _ _ _
             (ensure_key_lookup username (fixed_deposits s))) in H2.
  rewrite bind_modify in H2.
  apply bind_Done_inv in H2 as ([] & s4 & H4 & H5).
  apply bind_Done_inv in H5 as (i & s5 & H5 & [= <- <-]).
  eapply record_transaction_snapshot; [|exact H5].
  apply snapshots_current_no_record.
  by rewrite (add_balance_transactions _ _ _ _ _ H4).
Qed.

Lemma close_fixed_deposit_snapshots now uuid username fd_id s r s' :
  close_fixed_deposit now uuid username fd_id s = Done r s' →
  snapshots_current s s'.
Proof.
  unfold close_fixed_deposit. rewrite bind_get.
  destruct (find_fixed_deposit s username fd_id) as [fd|].
  2:{ intros [= <- <-]. by apply snapshots_current_no_record. }
  destruct (decide _).
  { intros [= <- <-]. by apply snapshots_current_no_record. }
  destruct (now <? _).
  { intros [= <- <-]. by apply snapshots_current_no_record. }
  intros ([] & s1 & H1 & H2)%bind_Done_inv.
  apply bind_Done_inv in H2 as (i & s2 & H2 & H3).
  apply bind_Done_inv in H3 as ([] & s3 & H3 & [= <- <-]).
  apply add_balance_transactions in H1.
  apply update_fixed_deposit_Done in H3 as [H3 H4].
  apply (snapshots_current_frame s s2); [|exact H3|exact H4].
  eapply record_transaction_snapshot; [|exact H2].
  by apply snapshots_current_no_record.
Qed.

Section Operations.

Variable hash_password : string -> string.

Lemma create_account_snapshots now aid uuid username password email deposit s r s' :
  create_account hash_password now aid uuid username password email deposit s = Done r s' →
  snapshots_current s s'.
Proof.
  unfold create_account. rewrite bind_get.
  destruct (decide _).
  { intros [= <- <-]. by apply snapshots_current_no_record. }
  destruct (decide _).
  { intros [= <- <-]. by apply snapshots_current_no_record. }
  rewrite bind_modify.
  destruct (0 <? deposit).
  - intros ([] & s1 & H1 & [= <- <-])%bind_Done_inv.
    apply bind_Done_inv in H1 as (i & s2 & H1 & [= <-]).
    eapply record_transaction_snapshot; [|exact H1].
    by apply snapshots_current_no_record.
  - intros [= <- <-]. by apply snapshots_current_no_record.
Qed.

Lemma authenticate_snapshots now username password s r s' :
  authenticate hash_password now username password s = Done r s' →
  snapshots_current s s'.
Proof.
  intros H. apply snapshots_current_no_record. revert H.
  unfold authenticate. rewrite bind_get.
  destruct (is_locked now s username); [by intros [= <- <-]|].
  destruct (accounts s !! username) as [acct|]; [|by intros [= <- <-]].
  destruct (decide _).
  - rewrite bind_modify, bind_get.
    intros (fa & s1 & H1 & H2)%bind_Done_inv.
    assert (transactions s1 = transactions s) as <-.
    { revert H1. munfold. simpl. destruct (_ !! username); by intros [= <- <-]. }
    destruct (_ <=? 0); by injection H2 as <- <-.
  - by intros [= <- <-].
Qed.

(** The operations of the core, with the clock reading and the identifiers
    generated during the call. *)
Inductive operation : Type :=
  | CreateAccount (now : Z) (account_id uuid username password email : string)
      (initial_deposit : Z)
  | Authenticate (now : Z) (username password : string)
  | DepositOp (now : Z) (uuid username : string) (amount : Z)
  | WithdrawOp (now : Z) (uuid username : string) (amount : Z)
  | InitiateTransfer (now : Z) (uuid sender recipient recipient_account_id : string)
      (amount : Z) (description : option string)
  | ConfirmTransfer (now : Z) (uuid transfer_id : string)
  | ApplyForLoan (now : Z) (loan_id uuid username : string) (amount duration_months : Z)
  | MakeLoanPayment (now : Z) (uuid username loan_id : string) (amount : Z)
  | CreateFixedDeposit (now : Z) (fd_id uuid username : string)
      (amount duration_months : Z)
  | CloseFixedDeposit (now : Z) (uuid username fd_id : string).

Definition run (op : operation) : M (bool * message) :=
  match op with
  | CreateAccount now aid uuid username password email initial_deposit =>
      create_account hash_password now aid uuid username password email initial_deposit
  | Authenticate now username password =>
      authenticate hash_password now username password
  | DepositOp now uuid username amount => deposit now uuid username amount
  | WithdrawOp now uuid username amount => withdraw now uuid username amount
  | InitiateTransfer now uuid sender recipient rid amount description =>
      initiate_transfer now uuid sender recipient rid amount description
  | ConfirmTransfer now uuid transfer_id => confirm_transfer now uuid transfer_id
  | ApplyForLoan now loan_id uuid username amount months =>
      apply_for_loan now loan_id uuid username amount months
  | MakeLoanPayment now uuid username loan_id amount =>
      make_loan_payment now uuid username loan_id amount
  | CreateFixedDeposit now fd_id uuid username amount months =>
      create_fixed_deposit now fd_id uuid username amount months
  | CloseFixedDeposit now uuid username fd_id =>
      close_fixed_deposit now uuid username fd_id
  end.

Lemma run_snapshots op s r s' : run op s = Done r s' → snapshots_current s s'.
Proof.
  destruct op; simpl.
  - apply create_account_snapshots.
  - apply authenticate_snapshots.
  - apply deposit_snapshots.
  - apply withdraw_snapshots.
  - apply initiate_transfer_snapshots.
  - apply confirm_transfer_snapshots.
  - apply apply_for_loan_snapshots.
  - apply make_loan_payment_snapshots.
  - apply create_fixed_deposit_snapshots.
  - apply close_fixed_deposit_snapshots.
Qed.

End Operations.

(** [C9] The balance-after field of a recorded transaction is the
    balance its account has at the moment of recording. The recorder stores
    the balance it reads from the account, without changing any account; and
    every operation mutates the balance before it calls the recorder and not
    after: when the operation returns, every transaction record it has
    written carries the balance the owning account has then. *)
Theorem balance_after_is_current_balance (hash_password : string -> string) :
  (∀ now uuid username type amount tid descr s i s',
     record_transaction now uuid username type amount tid descr s = Done i s' →
     accounts s' = accounts s ∧
     ∃ acct t,
       accounts s !! username = Some acct ∧
       find_transaction s' username i = Some t ∧
       tx_type t = type ∧ tx_amount t = amount ∧
       balance_after t = balance acct) ∧
  (∀ op s r s',
     run hash_password op s = Done r s' →
     ∀ username id t,
       find_transaction s' username id = Some t →
       find_transaction s username id ≠ Some t →
       ∃ acct, accounts s' !! username = Some acct ∧ balance_after t = balance acct).
Proof.
  split.
  - intros now uuid username type amount tid descr s i s'
      (acct & Ha & -> & ->)%record_transaction_Done.
    split; [reflexivity|]. exists acct. eexists. split; [exact Ha|].
    rewrite find_transaction_record, decide_True by done. done.
  - intros op s r s' H. exact (run_snapshots hash_password op s r s' H).
Qed.

Lemma balance_after_is_current_balance_witness :
  ∃ s' t,
    run (λ p, p) (WithdrawOp 7 "x1" "alice" 30) two_accounts =
      Done (true, Withdrew 30 "x1") s' ∧
    find_transaction s' "alice" "x1" = Some t ∧
    balance_after t = 70 ∧
    balance <$> accounts s' !! "alice" = Some 70.
Proof.
  destruct (run (λ p, p) (WithdrawOp 7 "x1" "alice" 30) two_accounts)
    as [[b m] s'|] eqn:E; [|vm_compute in E; discriminate E].
  assert (Hm : (b, m) = (true, Withdrew 30 "x1") ∧
               find_transaction s' "alice" "x1" =
                 Some (mkTransaction Withdrawal 30 7 70 "x1" None)).
  { vm_compute in E. injection E as <- <- <-. split; reflexivity. }
  destruct Hm as [Hm Ht]. injection Hm as -> ->.
  exists s', (mkTransaction Withdrawal 30 7 70 "x1" None).
  split; [reflexivity|]. split; [exact Ht|]. split; [reflexivity|].
  destruct (balance_after_is_current_balance (λ p, p)) as [_ Hops].
  destruct (Hops _ _ _ _ E "alice" "x1" _ Ht) as (acct & Ha & Hb).
  { vm_compute. discriminate. }
  rewrite Ha. simpl. by rewrite <- Hb.
Defined.

(** ** Facts about binary64 rounding

    What the loan arithmetic needs from the float model: rounding a non-zero
    number keeps its sign and does not produce a zero (the exponent of the
    operands of a subtraction is never below the least exponent, so no
    mantissa is shifted out entirely), and an integer below [2 ^ 53] converts
    to a float without rounding. *)

Module Float64Facts.
Import Float64.

Lemma digits2_pos_bounds (m : positive) :
  2 ^ (Zpos (digits2_pos m) - 1) <= Zpos m < 2 ^ Zpos (digits2_pos m).
Proof.
  induction m as [m IH|m IH|]; simpl digits2_pos.
  - rewrite Pos2Z.inj_succ.
    replace (Z.succ (Zpos (digits2_pos m)) - 1) with (Z.succ (Zpos (digits2_pos m) - 1)) by lia.
    rewrite !Z.pow_succ_r by lia. lia.
  - rewrite Pos2Z.inj_succ.
    replace (Z.succ (Zpos (digits2_pos m)) - 1) with (Z.succ (Zpos (digits2_pos m) - 1)) by lia.
    rewrite !Z.pow_succ_r by lia. lia.
  - simpl. lia.
Qed.

Lemma shr_1_m (mrs : shr_record) :
  0 <= shr_m mrs -> shr_m (shr_1 mrs) = shr_m mrs / 2.
Proof.
  destruct mrs as [m r s]. cbn [shr_m]. intros Hm.
  destruct m as [|[p|p|]|p]; cbn [shr_1 shr_m]; try lia; try reflexivity.
  - apply Z.div_unique with (r := 1); lia.
  - apply Z.div_unique with (r := 0); lia.
Qed.

Lemma iter_shr_1_m (p : positive) (mrs : shr_record) :
  0 <= shr_m mrs ->
  shr_m (SpecFloat.iter_pos shr_1 p mrs) = shr_m mrs / 2 ^ Zpos p.
Proof.
  revert mrs. induction p as [p IH|p IH|]; intros mrs Hm; cbn [SpecFloat.iter_pos].
  - assert (H1 : 0 <= shr_m (shr_1 mrs)) by (rewrite shr_1_m by lia; apply Z.div_pos; lia).
    assert (H2 : 0 <= shr_m (SpecFloat.iter_pos shr_1 p (shr_1 mrs)))
      by (rewrite IH by lia; apply Z.div_pos; lia).
    rewrite IH, IH, shr_1_m by lia.
    rewrite !Z.div_div by lia. f_equal.
    replace (Zpos p~1) with (1 + Zpos p + Zpos p) by lia.
    rewrite !Z.pow_add_r by lia. change (2 ^ 1) with 2. ring.
  - assert (H2 : 0 <= shr_m (SpecFloat.iter_pos shr_1 p mrs))
      by (rewrite IH by lia; apply Z.div_pos; lia).
    rewrite IH, IH by lia. rewrite Z.div_div by lia. f_equal.
    replace (Zpos p~0) with (Zpos p + Zpos p) by lia.
    rewrite !Z.pow_add_r by lia. ring.
  - rewrite shr_1_m by lia. reflexivity.
Qed.

(** The least exponent of a binary64 number, [-1074]. *)
Definition emin : Z := SpecFloat.emin prec emax.

Lemma shr_record_of_loc_m m l : shr_m (shr_record_of_loc m l) = m.
Proof. destruct l as [|[]]; reflexivity. Qed.

Lemma shr_fexp_positive m e l :
  0 < m -> emin <= e ->
  0 < shr_m (fst (shr_fexp prec emax m e l)) /\ emin <= snd (shr_fexp prec emax m e l).
Proof.
  intros Hm He. unfold shr_fexp, shr.
  destruct m as [|p|p]; try lia. cbn [Zdigits2].
  pose proof (digits2_pos_bounds p) as Hd.
  set (d := Zpos (digits2_pos p)) in *.
  unfold fexp. fold emin.
  destruct (Z.max (d + e - prec) emin - e) as [|n|n] eqn:En; cbn [fst snd];
    rewrite ?shr_record_of_loc_m; try lia.
  assert (Hn : Zpos n = d - prec) by lia.
  rewrite iter_shr_1_m by (rewrite shr_record_of_loc_m; lia).
  rewrite shr_record_of_loc_m. split; [|lia].
  apply Z.div_str_pos. split; [apply Z.pow_pos_nonneg; lia|].
  transitivity (2 ^ (d - 1)); [|lia].
  apply Z.pow_le_mono_r; unfold prec in *; lia.
Qed.

Lemma round_nearest_even_positive m l : 0 < m -> 0 < round_nearest_even m l.
Proof.
  intros Hm. unfold round_nearest_even.
  destruct l as [|[]]; try lia. destruct (Z.even m); lia.
Qed.

(** A float that is neither zero nor a NaN and has sign [s]. *)
Definition strictly_signed (s : bool) (x : spec_float) : Prop :=
  match x with
  | S754_finite s' _ _ => s' = s
  | S754_infinity s' => s' = s
  | _ => False
  end.

Lemma binary_round_aux_signed s m e l :
  0 < m -> emin <= e -> strictly_signed s (binary_round_aux prec emax s m e l).
Proof.
  intros Hm He. unfold binary_round_aux.
  pose proof (shr_fexp_positive m e l Hm He) as [H1 H2].
  destruct (shr_fexp prec emax m e l) as [mrs' e']. cbn [fst snd] in *.
  pose proof (round_nearest_even_positive _ (loc_of_shr_record mrs') H1) as H3.
  pose proof (shr_fexp_positive _ e' loc_Exact H3 H2) as [H4 H5].
  destruct (shr_fexp prec emax _ e' loc_Exact) as [mrs'' e'']. cbn [fst snd] in *.
  destruct (shr_m mrs'') as [|q|q]; try lia.
  destruct (e'' <=? emax - prec); reflexivity.
Qed.

Lemma pos_iter_xO (d m : positive) : Zpos (Pos.iter xO m d) = Zpos m * 2 ^ Zpos d.
Proof.
  revert m. induction d as [|d IH] using Pos.peano_ind; intros m.
  - simpl. lia.
  - rewrite Pos.iter_succ, Pos2Z.inj_xO, IH, Pos2Z.inj_succ, Z.pow_succ_r by lia. ring.
Qed.

Lemma shl_align_spec m e e' :
  e' <= e ->
  Zpos (fst (shl_align m e e')) = Zpos m * 2 ^ (e - e') /\
  (snd (shl_align m e e') = e' \/ snd (shl_align m e e') = e).
Proof.
  intros H. unfold shl_align.
  destruct (e' - e) as [|d|d] eqn:E; cbn [fst snd].
  - replace (e - e') with 0 by lia. simpl. lia.
  - lia.
  - rewrite pos_iter_xO. replace (e - e') with (Zpos d) by lia. auto.
Qed.

Lemma shl_align_exponent m e e' :
  snd (shl_align m e e') = e' \/ snd (shl_align m e e') = e.
Proof. unfold shl_align. destruct (e' - e); cbn [snd]; auto. Qed.

Lemma fexp_ge_emin e : emin <= fexp prec emax e.
Proof. unfold fexp. fold emin. lia. Qed.

Lemma binary_round_signed s m e :
  emin <= e -> strictly_signed s (binary_round prec emax s m e).
Proof.
  intros He. unfold binary_round.
  pose proof (shl_align_exponent m e (fexp prec emax (Zpos (digits2_pos m) + e))) as Hs.
  pose proof (fexp_ge_emin (Zpos (digits2_pos m) + e)).
  destruct (shl_align m e _) as [mz ez]. cbn [snd] in Hs.
  apply binary_round_aux_signed; lia.
Qed.

Lemma digits2_pos_iter_xO (k p : positive) :
  Zpos (digits2_pos (Pos.iter xO p k)) = Zpos (digits2_pos p) + Zpos k.
Proof.
  induction k as [|k IH] using Pos.peano_ind.
  - simpl. lia.
  - rewrite Pos.iter_succ. cbn [digits2_pos]. rewrite Pos2Z.inj_succ, IH. lia.
Qed.

Lemma binary_round_aux_canonical s m e :
  fexp prec emax (Zpos (digits2_pos m) + e) = e ->
  e <= emax - prec ->
  binary_round_aux prec emax s (Zpos m) e loc_Exact = S754_finite s m e.
Proof.
  intros Hc He. unfold binary_round_aux, shr_fexp. cbn [Zdigits2 shr_record_of_loc].
  rewrite Hc, Z.sub_diag. cbn [shr shr_m loc_of_shr_record round_nearest_even Zdigits2].
  rewrite Hc, Z.sub_diag. cbn [shr shr_m].
  destruct (e <=? emax - prec) eqn:E; [reflexivity|lia].
Qed.

Lemma of_Z_small (p : positive) :
  Zpos p < 2 ^ 53 ->
  exists m e,
    binary_normalize prec emax (Zpos p) 0 false = S754_finite false m e /\
    emin <= e <= 0 /\ Zpos m = Zpos p * 2 ^ (- e).
Proof.
  intros Hp. cbn [binary_normalize]. unfold binary_round.
  pose proof (digits2_pos_bounds p) as Hd.
  set (d := Zpos (digits2_pos p)) in *.
  assert (Hd53 : d <= 53).
  { destruct (Z.le_gt_cases d 53) as [H|H]; [exact H|].
    assert (2 ^ 53 <= 2 ^ (d - 1)) by (apply Z.pow_le_mono_r; lia). lia. }
  assert (Hd1 : 1 <= d) by (unfold d; lia).
  assert (Hf : fexp prec emax (d + 0) = d - 53)
    by (unfold fexp, SpecFloat.emin, prec, emax; lia).
  rewrite Hf. unfold shl_align.
  destruct (d - 53 - 0) as [|k|k] eqn:Ek; try lia.
  - exists p, 0. split; [|split; [unfold emin, SpecFloat.emin, prec, emax; lia|simpl; lia]].
    apply binary_round_aux_canonical; [|unfold emax, prec; lia].
    fold d. unfold fexp, SpecFloat.emin, prec, emax. lia.
  - exists (Pos.iter xO p k), (d - 53).
    split; [|split; [unfold emin, SpecFloat.emin, prec, emax; lia|]].
    + apply binary_round_aux_canonical; [|unfold emax, prec; lia].
      rewrite digits2_pos_iter_xO. fold d.
      unfold fexp, SpecFloat.emin, prec, emax. lia.
    + rewrite pos_iter_xO. f_equal. f_equal. lia.
Qed.

Lemma valid_binary_exponent s m e :
  valid_binary prec emax (S754_finite s m e) = true -> emin <= e.
Proof.
  cbn [valid_binary]. unfold bounded, canonical_mantissa.
  intros [H _]%andb_true_iff. apply Z.eqb_eq in H.
  rewrite <- H. apply fexp_ge_emin.
Qed.

(** [x - float(z)] is strictly negative when the integer [z], small enough
    to convert exactly, exceeds the value of [x]. *)
Lemma sub_of_Z_negative (x : float) (z : Z) :
  valid_binary prec emax x = true ->
  0 < z < 2 ^ 53 ->
  int_gt z x = true ->
  strictly_signed true (sub x (of_Z z)).
Proof.
  intros Hx Hz Hgt. destruct z as [|p|p]; try lia.
  destruct (of_Z_small p) as (m & e & Hof & He & Hm); [lia|].
  unfold of_Z. rewrite Hof.
  unfold int_gt, lt_int, compare_int in Hgt.
  destruct x as [sx|sx| |sx mx ex].
  - reflexivity.
  - destruct sx; [reflexivity|discriminate].
  - discriminate.
  - pose proof (valid_binary_exponent _ _ _ Hx) as Hex.
    unfold sub, SFsub.
    set (ez := Z.min ex e).
    destruct (shl_align_spec mx ex ez) as [H1 _]; [lia|].
    destruct (shl_align_spec m e ez) as [H2 _]; [lia|].
    rewrite H1, H2, Hm. cbn [cond_Zopp].
    assert (Hp1 : 0 < 2 ^ (ex - ez)) by (apply Z.pow_pos_nonneg; lia).
    assert (Hp2 : 0 < 2 ^ (- e)) by (apply Z.pow_pos_nonneg; lia).
    assert (Hp3 : 0 < 2 ^ (e - ez)) by (apply Z.pow_pos_nonneg; lia).
    assert (Hneg : cond_Zopp sx (Z.pos mx * 2 ^ (ex - ez)) -
                   Z.pos p * 2 ^ (- e) * 2 ^ (e - ez) < 0).
    { destruct sx; cbn [cond_Zopp]; [nia|].
      unfold signed in Hgt. cbn [cond_Zopp] in Hgt.
      rewrite <- Z.mul_assoc, <- Z.pow_add_r by lia.
      replace (- e + (e - ez)) with (- ez) by lia.
      destruct (0 <=? ex) eqn:E0.
      - apply Z.leb_le in E0.
        assert (Hlt : Z.pos mx * 2 ^ ex < Z.pos p)
          by (destruct (Z.pos mx * 2 ^ ex ?= Z.pos p) eqn:C;
              [discriminate | by apply Z.compare_lt_iff | discriminate]).
        assert (ez = e) as -> by lia.
        replace (ex - e) with (ex + - e) by lia.
        rewrite Z.pow_add_r by lia. nia.
      - apply Z.leb_gt in E0.
        assert (Hlt : Z.pos mx < Z.pos p * 2 ^ (- ex))
          by (destruct (Z.pos mx ?= Z.pos p * 2 ^ (- ex)) eqn:C;
              [discriminate | by apply Z.compare_lt_iff | discriminate]).
        replace (- ez) with (- ex + (ex - ez)) by lia.
        rewrite Z.pow_add_r by lia. nia. }
    destruct (cond_Zopp sx (Z.pos mx * 2 ^ (ex - ez)) -
              Z.pos p * 2 ^ (- e) * 2 ^ (e - ez)) as [|q|q]; try lia.
    cbn [binary_normalize]. apply binary_round_signed. lia.
Qed.

Lemma strictly_signed_negative (x : float) :
  strictly_signed true x -> lt_int x 0 = true /\ le_int x 0 = true.
Proof.
  unfold lt_int, le_int, compare_int.
  destruct x as [s|s| |s m e]; cbn [strictly_signed]; try done.
  - by intros ->.
  - intros ->. unfold signed. cbn [cond_Zopp].
    assert (Hlt : (if 0 <=? e then Z.neg m * 2 ^ e ?= 0
                   else Z.neg m ?= 0 * 2 ^ (- e)) = Lt).
    { destruct (0 <=? e) eqn:E.
      - apply Z.leb_le in E. apply Z.compare_lt_iff.
        assert (0 < 2 ^ e) by (apply Z.pow_pos_nonneg; lia). nia.
      - reflexivity. }
    change (- Z.pos m) with (Z.neg m). by rewrite Hlt.
Qed.

End Float64Facts.

(** ** Overpaying a loan *)

(** carol has [105.0] left to pay on her loan. *)
Definition carol_last_installment : State :=
  set_loans
    (λ _, {["carol" := {["l1" :=
       set_payments_made 11 (set_remaining_balance (Float64.of_Z 105) carol_loan)]}]})
    carol_with_loan.

(** [C10] A payment that passes the validations and exceeds the remaining
    balance of the loan is debited from the account in full: nothing is
    clamped or refunded, the remaining balance becomes strictly negative
    (it is the float [remaining - amount]) and the loan is marked paid in the
    same call. The amount is an integer below [2 ^ 53], as every amount the
    payment form delivers is, so that its conversion to a float is exact. *)
Theorem overpayment_debited_in_full now uuid username loan_id amount s acct
    user_loans loan :
  loans s !! username = Some user_loans →
  user_loans !! loan_id = Some loan →
  accounts s !! username = Some acct →
  status loan = LoanActive →
  valid_binary Float64.prec Float64.emax (remaining_balance loan) = true →
  0 < amount < 2 ^ 53 →
  monthly_payment loan ≤ amount →
  amount ≤ balance acct →
  Float64.int_gt amount (remaining_balance loan) = true →
  ∃ s' loan' t,
    make_loan_payment now uuid username loan_id amount s =
      Done (true, PaymentApplied amount loan_id) s' ∧
    balance <$> accounts s' !! username = Some (balance acct - amount) ∧
    find_transaction s' username uuid = Some t ∧
    tx_type t = LoanPayment ∧ tx_amount t = amount ∧
    find_loan s' username loan_id = Some loan' ∧
    remaining_balance loan' =
      Float64.sub (remaining_balance loan) (Float64.of_Z amount) ∧
    Float64.lt_int (remaining_balance loan') 0 = true ∧
    status loan' = LoanPaid ∧
    end_date loan' = Some now ∧
    payments_made loan' = payments_made loan + 1.
Proof.
  intros Hul Hl Ha Hst Hvalid Hamount Hmp Hbal Hgt.
  pose proof (Float64Facts.sub_of_Z_negative _ _ Hvalid Hamount Hgt) as Hneg.
  apply Float64Facts.strictly_signed_negative in Hneg as [Hlt Hle].
  pose proof (make_loan_payment_accepted now uuid username loan_id amount s acct
                user_loans loan Hul Hl Ha Hst ltac:(lia) Hbal Hmp) as Hrun.
  assert (Hfin : ∃ m e, Float64.of_Z amount = S754_finite false m e).
  { destruct amount as [|p|p]; try lia.
    destruct (Float64Facts.of_Z_small p) as (m & e & Hof & _); [lia|]. eauto. }
  destruct Hfin as (m & e & Hof). rewrite Hof in Hrun. rewrite <- Hof in Hrun.
  eexists _, _, _. split; [exact Hrun|].
  unfold payment_applied, loan_after_payment. rewrite Hle.
  split; [simpl; by rewrite lookup_insert_eq|].
  split; [unfold find_transaction, record; simpl; rewrite lookup_insert_eq; simpl;
          apply lookup_insert_eq|].
  split; [reflexivity|]. split; [reflexivity|].
  split; [unfold find_loan; simpl; rewrite lookup_insert_eq; simpl;
          apply lookup_insert_eq|].
  simpl. auto.
Qed.

Lemma overpayment_debited_in_full_witness :
  ∃ s' loan',
    make_loan_payment 50 "x1" "carol" "l1" 200 carol_last_installment =
      Done (true, PaymentApplied 200 "l1") s' ∧
    balance <$> accounts s' !! "carol" = Some 300 ∧
    find_loan s' "carol" "l1" = Some loan' ∧
    remaining_balance loan' = Float64.of_Z (-95) ∧
    status loan' = LoanPaid.
Proof.
  destruct (overpayment_debited_in_full 50 "x1" "carol" "l1" 200
              carol_last_installment carol
              {["l1" := set_payments_made 11
                          (set_remaining_balance (Float64.of_Z 105) carol_loan)]}
              (set_payments_made 11
                 (set_remaining_balance (Float64.of_Z 105) carol_loan)))
    as (s' & loan' & t & Hrun & Hbal & _ & _ & _ & Hfind & Hrem & _ & Hst & _);
    try reflexivity; try (simpl; lia).
  exists s', loan'. split; [exact Hrun|]. split; [exact Hbal|].
  split; [exact Hfind|]. split; [rewrite Hrem; reflexivity|exact Hst].
Defined.

(** Beyond [2 ^ 53] the conversion of the amount to a float rounds. frank
    opens an account with 10^15, borrows 8578285004515230 (which leaves
    [2 ^ 53] to pay, as a float) and then pays [2 ^ 53 + 1]. *)
Definition frank_borrows : M (bool * message) :=
  create_account (λ p, p) 0 "9f8e7d6c" "x0" "frank" "Pa55word!" "frank@x.org"
    1000000000000000;;
  apply_for_loan (100 * 86400) "l1" "x1" "frank" 8578285004515230 12.

Definition frank_in_debt : State := final_state (frank_borrows init_session_state).

Lemma frank_in_debt_loan :
  frank_borrows init_session_state =
    Done (true, LoanApproved 8578285004515230 "l1") frank_in_debt ∧
  balance <$> accounts frank_in_debt !! "frank" = Some 9578285004515230 ∧
  (remaining_balance <$> find_loan frank_in_debt "frank" "l1") =
    Some (Float64.of_Z (2 ^ 53)) ∧
  (monthly_payment <$> find_loan frank_in_debt "frank" "l1") = Some 750599937895083 ∧
  (status <$> find_loan frank_in_debt "frank" "l1") = Some LoanActive.
Proof. vm_compute. auto. Qed.

(** The payment of [2 ^ 53 + 1] passes the validations and exceeds the
    remaining balance of [2 ^ 53]; it is accepted and debited in full, the
    loan is marked paid, and the remaining balance becomes [0.0], which is not
    strictly negative. *)
Lemma overpayment_beyond_2_53_rounds :
  ∃ s' loan',
    Float64.int_gt (2 ^ 53 + 1) (Float64.of_Z (2 ^ 53)) = true ∧
    make_loan_payment (101 * 86400) "x2" "frank" "l1" (2 ^ 53 + 1) frank_in_debt =
      Done (true, PaymentApplied (2 ^ 53 + 1) "l1") s' ∧
    balance <$> accounts s' !! "frank" = Some (9578285004515230 - (2 ^ 53 + 1)) ∧
    find_loan s' "frank" "l1" = Some loan' ∧
    status loan' = LoanPaid ∧
    remaining_balance loan' = S754_zero false ∧
    Float64.lt_int (remaining_balance loan') 0 = false.
Proof.
  eexists _, _. split; [vm_compute; reflexivity|].
  split; [vm_compute; reflexivity|].
  split; [vm_compute; reflexivity|].
  split; [vm_compute; reflexivity|].
  split; [reflexivity|]. split; reflexivity.
Qed.

(** * Further properties of the ledger *)

(** ** What each operation does to the state

    The state an operation returns, case by case: either the operation
    reports a failure and returns the state it received, or it returns the
    state written out below. *)

(** The account of [username] changed by [delta] and the matching
    transaction recorded. *)
Definition posted (type : transaction_type) (now : Z) (uuid username : string)
    (delta amount : Z) (descr : option string) (acct : Account) (s : State) : State :=
  set_transactions
    (record username uuid
       (mkTransaction type amount now (balance acct + delta) uuid descr))
    (set_accounts <[username := set_balance (balance acct + delta) acct]> s).

Lemma add_then_record type now uuid username delta amount descr s acct {B : Type}
    (f : string -> M B) :
  accounts s !! username = Some acct →
  (add_balance username delta ≫= λ _,
     record_transaction now uuid username type amount None descr ≫= f) s =
  f uuid (posted type now uuid username delta amount descr acct s).
Proof.
  intros Ha. rewrite (bind_Done _ _ _ _ _ (add_balance_spec _ _ _ _ Ha)).
  erewrite bind_Done by (apply record_transaction_spec; simpl; apply lookup_insert_eq).
  reflexivity.
Qed.

Lemma deposit_Done now uuid username amount s r s' :
  deposit now uuid username amount s = Done r s' →
  (amount ≤ 0 ∧ r = (false, AmountMustBePositive) ∧ s' = s) ∨
  (0 < amount ∧ ∃ acct,
     accounts s !! username = Some acct ∧
     r = (true, Deposited amount uuid) ∧
     s' = posted Deposit now uuid username amount amount None acct s).
Proof.
  unfold deposit. destruct (amount <=? 0) eqn:E.
  { intros [= <- <-]. left. split; [lia|done]. }
  destruct (accounts s !! username) as [acct|] eqn:Ha.
  - rewrite (add_then_record _ _ _ _ _ _ _ _ _ _ Ha). intros [= <- <-].
    right. split; [lia|]. eauto.
  - rewrite (bind_Raised _ _ _ _ _ (add_balance_missing _ _ _ Ha)). discriminate.
Qed.

Lemma withdraw_Done now uuid username amount s r s' :
  withdraw now uuid username amount s = Done r s' →
  (amount ≤ 0 ∧ r = (false, AmountMustBePositive) ∧ s' = s) ∨
  (∃ acct, accounts s !! username = Some acct ∧ 0 < amount ∧ balance acct < amount ∧
           r = (false, InsufficientFunds) ∧ s' = s) ∨
  (∃ acct, accounts s !! username = Some acct ∧ 0 < amount ≤ balance acct ∧
           r = (true, Withdrew amount uuid) ∧
           s' = posted Withdrawal now uuid username (- amount) amount None acct s).
Proof.
  unfold withdraw. destruct (amount <=? 0) eqn:E.
  { intros [= <- <-]. left. split; [lia|done]. }
  rewrite bind_get.
  destruct (accounts s !! username) as [acct|] eqn:Ha;
    [|by rewrite (bind_subscript_None _ _ _ _ Ha)].
  rewrite (bind_subscript_Some _ _ _ _ _ Ha).
  destruct (balance acct <? amount) eqn:E2.
  { intros [= <- <-]. right. left. exists acct. repeat split; try done; lia. }
  rewrite (add_then_record _ _ _ _ _ _ _ _ _ _ Ha). intros [= <- <-].
  right. right. exists acct. repeat split; try done; lia.
Qed.

Lemma initiate_transfer_Done now uuid sender recipient rid amount descr s r s' :
  initiate_transfer now uuid sender recipient rid amount descr s = Done r s' →
  (fst r = false ∧ s' = s) ∨
  (∃ sa ra,
     accounts s !! sender = Some sa ∧ accounts s !! recipient = Some ra ∧
     account_id ra = rid ∧ sender ≠ recipient ∧ amount ≤ balance sa ∧
     r = (true, TransferId uuid) ∧
     s' = set_transfer_data
            <[uuid := mkTransfer sender recipient rid amount now descr]> s).
Proof.
  unfold initiate_transfer. rewrite bind_get.
  destruct (accounts s !! recipient) as [ra|] eqn:Hr; [|intros [= <- <-]; by left].
  destruct (decide (account_id ra ≠ rid)) as [|Hid]; [intros [= <- <-]; by left|].
  destruct (decide (sender = recipient)); [intros [= <- <-]; by left|].
  destruct (accounts s !! sender) as [sa|] eqn:Hs;
    [|by rewrite (bind_subscript_None _ _ _ _ Hs)].
  rewrite (bind_subscript_Some _ _ _ _ _ Hs).
  destruct (balance sa <? amount) eqn:Hb; [intros [= <- <-]; by left|].
  rewrite bind_modify. intros [= <- <-]. right. exists sa, ra.
  apply Z.ltb_ge in Hb. apply dec_stable in Hid. done.
Qed.

(** The state after a confirmed transfer. When the sender is the recipient
    (no transfer the code initiates is such) the second update reads the
    account the first one wrote. *)
Definition transferred (now : Z) (uuid transfer_id : string) (td : Transfer)
    (sa : Account) (s : State) : State :=
  let debited := <[tr_sender td := set_balance (balance sa + - tr_amount td) sa]>
                   (accounts s) in
  let ra := default sa (debited !! tr_recipient td) in
  let credited := <[tr_recipient td := set_balance (balance ra + tr_amount td) ra]>
                    debited in
  set_transfer_data (delete transfer_id)
    (set_transactions
       (λ txs,
          record (tr_recipient td) uuid
            (mkTransaction TransferIn (tr_amount td) now (balance ra + tr_amount td)
               uuid (tr_description td))
            (record (tr_sender td) uuid
               (mkTransaction TransferOut (tr_amount td) now
                  (balance (default sa (credited !! tr_sender td)))
                  uuid (tr_description td))
               txs))
       (set_accounts (λ _, credited) s)).

Lemma confirm_transfer_Done now uuid transfer_id s r s' :
  confirm_transfer now uuid transfer_id s = Done r s' →
  (transfer_data s !! transfer_id = None ∧ r = (false, InvalidTransferRequest) ∧ s' = s) ∨
  (∃ td sa,
     transfer_data s !! transfer_id = Some td ∧
     accounts s !! tr_sender td = Some sa ∧
     is_Some (accounts s !! tr_recipient td) ∧
     r = (true, Transferred (tr_amount td) (tr_recipient td) uuid) ∧
     s' = transferred now uuid transfer_id td sa s).
Proof.
  unfold confirm_transfer. rewrite bind_get.
  destruct (transfer_data s !! transfer_id) as [td|] eqn:Htd;
    [|intros [= <- <-]; by left].
  intros ([] & s1 & H1 & H2)%bind_Done_inv.
  apply add_balance_Done in H1 as (sa & Hsa & ->).
  apply bind_Done_inv in H2 as ([] & s2 & H2 & H3).
  apply add_balance_Done in H2 as (ra & Hra & ->).
  apply bind_Done_inv in H3 as (i1 & s3 & H3 & H4).
  apply record_transaction_Done in H3 as (a1 & Ha1 & -> & ->).
  apply bind_Done_inv in H4 as (i2 & s4 & H4 & H5).
  apply record_transaction_Done in H4 as (a2 & Ha2 & -> & ->).
  rewrite bind_modify in H5. injection H5 as <- <-.
  right. exists td, sa. split; [done|]. split; [done|]. simpl in *.
  split.
  { destruct (decide (tr_sender td = tr_recipient td)) as [E|E].
    - rewrite <- E. eauto.
    - rewrite lookup_insert_ne in Hra by done. eauto. }
  split; [done|].
  unfold transferred. simpl. rewrite Hra. simpl. rewrite Ha1. simpl.
  rewrite lookup_insert_eq in Ha2. injection Ha2 as <-. reflexivity.
Qed.

Lemma apply_for_loan_failure now loan_id uuid username amount months s m s' :
  apply_for_loan now loan_id uuid username amount months s = Done (false, m) s' → s' = s.
Proof.
  unfold apply_for_loan.
  destruct (amount <=? 0); [by intros [= <- <-]|].
  destruct (months <=? 0); [by intros [= <- <-]|].
  rewrite bind_get.
  destruct (accounts s !! username) as [acct|] eqn:Ha;
    [|by rewrite (bind_subscript_None _ _ _ _ Ha)].
  rewrite (bind_subscript_Some _ _ _ _ _ Ha).
  destruct (_ <? 90); [by intros [= <- <-]|].
  destruct (has_active_loan s username); [by intros [= <- <-]|].
  intros (mp & s1 & H1 & H2)%bind_Done_inv.
  rewrite bind_modify in H2.
  apply bind_Done_inv in H2 as (rate & s2 & H2 & H3).
  apply bind_Done_inv in H3 as (rem & s3 & H3 & H4).
  rewrite bind_get in H4.
  apply bind_Done_inv in H4 as (ul & s4 & H4 & H5).
  rewrite bind_modify in H5.
  apply bind_Done_inv in H5 as ([] & s5 & H5 & H6).
  apply bind_Done_inv in H6 as (i & s6 & H6 & H7). discriminate H7.
Qed.

Lemma create_fixed_deposit_failure now fd_id uuid username amount months s m s' :
  create_fixed_deposit now fd_id uuid username amount months s = Done (false, m) s' →
  s' = s.
Proof.
  unfold create_fixed_deposit.
  destruct (amount <=? 0); [by intros [= <- <-]|].
  destruct (months <=? 0); [by intros [= <- <-]|].
  rewrite bind_get.
  destruct (accounts s !! username) as [acct|] eqn:Ha;
    [|by rewrite (bind_subscript_None _ _ _ _ Ha)].
  rewrite (bind_subscript_Some _ _ _ _ _ Ha).
  destruct (_ <? amount); [by intros [= <- <-]|].
  intros (mp & s1 & H1 & H2)%bind_Done_inv.
  rewrite bind_modify in H2.
  apply bind_Done_inv in H2 as (md & s2 & H2 & H3).
  rewrite bind_get in H3.
  apply bind_Done_inv in H3 as (ul & s4 & H4 & H5).
  rewrite bind_modify in H5.
  apply bind_Done_inv in H5 as ([] & s5 & H5 & H6).
  apply bind_Done_inv in H6 as (i & s6 & H6 & H7). discriminate H7.
Qed.

Lemma make_loan_payment_Done now uuid username loan_id amount s r s' :
  make_loan_payment now uuid username loan_id amount s = Done r s' →
  (fst r = false ∧ s' = s) ∨
  (∃ acct user_loans loan,
     loans s !! username = Some user_loans ∧ user_loans !! loan_id = Some loan ∧
     accounts s !! username = Some acct ∧ status loan = LoanActive ∧
     0 < amount ≤ balance acct ∧ monthly_payment loan ≤ amount ∧
     r = (true, PaymentApplied amount loan_id) ∧
     s' = payment_applied now uuid username loan_id amount acct user_loans loan
            (Float64.sub (remaining_balance loan) (Float64.of_Z amount)) s).
Proof.
  intros Hrun. pose proof Hrun as Hrun0. revert Hrun.
  unfold make_loan_payment. rewrite bind_get.
  destruct (find_loan s username loan_id) as [loan|] eqn:Hfind;
    [|intros [= <- <-]; by left].
  destruct (decide (status loan ≠ LoanActive)) as [|Hst];
    [intros [= <- <-]; by left|].
  destruct (amount <=? 0) eqn:E1; [intros [= <- <-]; by left|].
  destruct (accounts s !! username) as [acct|] eqn:Ha;
    [|by rewrite (bind_subscript_None _ _ _ _ Ha)].
  rewrite (bind_subscript_Some _ _ _ _ _ Ha).
  destruct (balance acct <? amount) eqn:E2; [intros [= <- <-]; by left|].
  destruct (amount <? monthly_payment loan) eqn:E3; [intros [= <- <-]; by left|].
  intros _. right.
  apply find_loan_Some in Hfind as (user_loans & Hul & Hl).
  assert (Hact : status loan = LoanActive)
    by (destruct (status loan); [done|by destruct Hst]).
  rewrite (make_loan_payment_accepted now uuid username loan_id amount s acct
             user_loans loan Hul Hl Ha Hact ltac:(lia) ltac:(lia) ltac:(lia)) in Hrun0.
  exists acct, user_loans, loan. repeat (split; [done || lia|]).
  destruct (Float64.of_Z amount); try discriminate Hrun0; by injection Hrun0 as <- <-.
Qed.

Lemma close_fixed_deposit_Done now uuid username fd_id s r s' :
  close_fixed_deposit now uuid username fd_id s = Done r s' →
  (fst r = false ∧ s' = s) ∨
  (∃ acct user_fds fd,
     fixed_deposits s !! username = Some user_fds ∧ user_fds !! fd_id = Some fd ∧
     accounts s !! username = Some acct ∧ fd_state fd = FdActive ∧
     maturity_date fd ≤ now ∧
     r = (true, FixedDepositClosed fd_id (maturity_amount fd)) ∧
     s' = fixed_deposit_closed now uuid username fd_id acct user_fds fd s).
Proof.
  intros Hrun. pose proof Hrun as Hrun0. revert Hrun.
  unfold close_fixed_deposit. rewrite bind_get.
  destruct (find_fixed_deposit s username fd_id) as [fd|] eqn:Hfind;
    [|intros [= <- <-]; by left].
  destruct (decide (fd_state fd ≠ FdActive)) as [|Hst];
    [intros [= <- <-]; by left|].
  destruct (now <? maturity_date fd) eqn:E1; [intros [= <- <-]; by left|].
  destruct (accounts s !! username) as [acct|] eqn:Ha.
  2:{ by rewrite (bind_Raised _ _ _ _ _ (add_balance_missing _ _ _ Ha)). }
  intros _. right.
  apply find_fixed_deposit_Some in Hfind as (user_fds & Hu & Hf).
  assert (Hact : fd_state fd = FdActive)
    by (destruct (fd_state fd); [done|by destruct Hst]).
  rewrite (close_fixed_deposit_matured now uuid username fd_id s acct user_fds fd
             Hu Hf Ha Hact ltac:(lia)) in Hrun0.
  injection Hrun0 as <- <-. exists acct, user_fds, fd. repeat (split; [done || lia|]).
  done.
Qed.

Section AccountOperations.

Variable hash_password : string -> string.

(** The state after the creation of an account. *)
Definition account_created (now : Z) (account_id uuid username password email : string)
    (initial_deposit : Z) (s : State) : State :=
  let s1 := set_accounts
              <[username := mkAccount (hash_password password) initial_deposit now
                              account_id (Some email) None]> s in
  if 0 <? initial_deposit then
    set_transactions
      (record username uuid
         (mkTransaction AccountCreationDeposit initial_deposit now initial_deposit
            uuid None)) s1
  else s1.

Definition email_registered (s : State) (email : string) : Prop :=
  map_Exists (λ _ data, acct_email data = Some email) (accounts s).

Lemma create_account_Done now aid uuid username password email deposit s r s' :
  create_account hash_password now aid uuid username password email deposit s = Done r s' →
  (is_Some (accounts s !! username) ∧ r = (false, UsernameAlreadyExists) ∧ s' = s) ∨
  (accounts s !! username = None ∧ email_registered s email ∧
   r = (false, EmailAlreadyRegistered) ∧ s' = s) ∨
  (accounts s !! username = None ∧ ¬ email_registered s email ∧
   r = (true, AccountCreated aid) ∧
   s' = account_created now aid uuid username password email deposit s).
Proof.
  unfold create_account. rewrite bind_get.
  destruct (decide (is_Some (accounts s !! username))) as [|Hnone].
  { intros [= <- <-]. by left. }
  assert (Hn : accounts s !! username = None)
    by (destruct (accounts s !! username); [destruct Hnone; eauto|done]).
  destruct (decide _) as [He|He].
  { intros [= <- <-]. right. left. done. }
  rewrite bind_modify. unfold account_created.
  destruct (0 <? _).
  - erewrite bind_Done.
    2:{ erewrite bind_Done
          by (apply record_transaction_spec; simpl; apply lookup_insert_eq).
        reflexivity. }
    intros [= <- <-]. right. right. done.
  - intros [= <- <-]. right. right. done.
Qed.

Lemma authenticate_Done now username password s r s' :
  authenticate hash_password now username password s = Done r s' →
  (is_locked now s username = true ∧ r = (false, AccountLocked) ∧ s' = s) ∨
  (is_locked now s username = false ∧ accounts s !! username = None ∧
   r = (false, UsernameNotFound) ∧ s' = s) ∨
  (is_locked now s username = false ∧
   ∃ acct, accounts s !! username = Some acct ∧
     password_hash acct ≠ hash_password password ∧
     r = (false,
          if 5 - (failed_count s username + 1) <=? 0 then AccountLocked
          else IncorrectPassword (5 - (failed_count s username + 1))) ∧
     s' = attempt_failed now username s) ∨
  (is_locked now s username = false ∧
   ∃ acct, accounts s !! username = Some acct ∧
     password_hash acct = hash_password password ∧
     r = (true, LoginSuccessful) ∧ s' = logged_in now username acct s).
Proof.
  destruct (is_locked now s username) eqn:Hl.
  { rewrite authenticate_locked by done. intros [= <- <-]. by left. }
  destruct (accounts s !! username) as [acct|] eqn:Ha.
  - destruct (decide (password_hash acct = hash_password password)) as [Hp|Hp].
    + rewrite (authenticate_correct_password _ _ _ _ _ _ Hl Ha Hp).
      intros [= <- <-]. right. right. right. eauto 10.
    + rewrite (authenticate_wrong_password _ _ _ _ _ _ Hl Ha Hp).
      intros [= <- <-]. right. right. left. eauto 10.
  - unfold authenticate. rewrite bind_get, Hl, Ha. intros [= <- <-].
    right. left. done.
Qed.

End AccountOperations.

Lemma apply_for_loan_granted now loan_id uuid username amount months s m s' :
  apply_for_loan now loan_id uuid username amount months s = Done (true, m) s' →
  ∃ acct,
    accounts s !! username = Some acct ∧ 0 < amount ∧ 0 < months ∧
    90 ≤ timedelta_days (now - created acct) ∧
    has_active_loan s username = false ∧
    m = LoanApproved amount loan_id ∧
    s' = loan_granted now loan_id uuid username amount months acct s.
Proof.
  intros Hrun.
  destruct (apply_for_loan_Done _ _ _ _ _ _ _ _ _ Hrun) as (acct & Ha & -> & ->).
  exists acct. revert Hrun. unfold apply_for_loan.
  destruct (amount <=? 0) eqn:E1; [discriminate|].
  destruct (months <=? 0) eqn:E2; [discriminate|].
  rewrite bind_get, (bind_subscript_Some _ _ _ _ _ Ha).
  destruct (_ <? 90) eqn:E3; [discriminate|].
  destruct (has_active_loan s username) eqn:E4; [discriminate|].
  intros _. repeat (split; [done || lia|]). done.
Qed.

(** ** The effect of an operation

    [effect op s r s'] lists what a call of [op] in state [s] can return: a
    failure with the state untouched, or one of the state changes above under
    the conditions the code has checked. The only failure that changes the
    state is a wrong password, which is counted. *)
Section Effects.

Variable hash_password : string -> string.

Inductive effect : operation → State → bool * message → State → Prop :=
  | effect_failure op s m :
      effect op s (false, m) s
  | effect_created now aid uuid username password email deposit s :
      accounts s !! username = None →
      ¬ email_registered s email →
      effect (CreateAccount now aid uuid username password email deposit) s
        (true, AccountCreated aid)
        (account_created hash_password now aid uuid username password email deposit s)
  | effect_wrong_password now username password s acct m :
      is_locked now s username = false →
      accounts s !! username = Some acct →
      password_hash acct ≠ hash_password password →
      effect (Authenticate now username password) s (false, m)
        (attempt_failed now username s)
  | effect_logged_in now username password s acct :
      is_locked now s username = false →
      accounts s !! username = Some acct →
      password_hash acct = hash_password password →
      effect (Authenticate now username password) s (true, LoginSuccessful)
        (logged_in now username acct s)
  | effect_deposited now uuid username amount s acct :
      accounts s !! username = Some acct →
      0 < amount →
      effect (DepositOp now uuid username amount) s (true, Deposited amount uuid)
        (posted Deposit now uuid username amount amount None acct s)
  | effect_withdrawn now uuid username amount s acct :
      accounts s !! username = Some acct →
      0 < amount ≤ balance acct →
      effect (WithdrawOp now uuid username amount) s (true, Withdrew amount uuid)
        (posted Withdrawal now uuid username (- amount) amount None acct s)
  | effect_initiated now uuid sender recipient rid amount descr s sa ra :
      accounts s !! sender = Some sa →
      accounts s !! recipient = Some ra →
      account_id ra = rid →
      sender ≠ recipient →
      amount ≤ balance sa →
      effect (InitiateTransfer now uuid sender recipient rid amount descr) s
        (true, TransferId uuid)
        (set_transfer_data
           <[uuid := mkTransfer sender recipient rid amount now descr]> s)
  | effect_transferred now uuid transfer_id s td sa :
      transfer_data s !! transfer_id = Some td →
      accounts s !! tr_sender td = Some sa →
      is_Some (accounts s !! tr_recipient td) →
      effect (ConfirmTransfer now uuid transfer_id) s
        (true, Transferred (tr_amount td) (tr_recipient td) uuid)
        (transferred now uuid transfer_id td sa s)
  | effect_loan_granted now loan_id uuid username amount months s acct :
      accounts s !! username = Some acct →
      0 < amount → 0 < months →
      90 ≤ timedelta_days (now - created acct) →
      has_active_loan s username = false →
      effect (ApplyForLoan now loan_id uuid username amount months) s
        (true, LoanApproved amount loan_id)
        (loan_granted now loan_id uuid username amount months acct s)
  | effect_loan_paid now uuid username loan_id amount s acct user_loans loan :
      loans s !! username = Some user_loans →
      user_loans !! loan_id = Some loan →
      accounts s !! username = Some acct →
      status loan = LoanActive →
      0 < amount ≤ balance acct →
      monthly_payment loan ≤ amount →
      effect (MakeLoanPayment now uuid username loan_id amount) s
        (true, PaymentApplied amount loan_id)
        (payment_applied now uuid username loan_id amount acct user_loans loan
           (Float64.sub (remaining_balance loan) (Float64.of_Z amount)) s)
  | effect_fd_created now fd_id uuid username amount months s acct :
      accounts s !! username = Some acct →
      0 < amount ≤ balance acct → 0 < months →
      effect (CreateFixedDeposit now fd_id uuid username amount months) s
        (true, FixedDepositCreated fd_id)
        (fixed_deposit_created now fd_id uuid username amount months acct s)
  | effect_fd_closed now uuid username fd_id s acct user_fds fd :
      fixed_deposits s !! username = Some user_fds →
      user_fds !! fd_id = Some fd →
      accounts s !! username = Some acct →
      fd_state fd = FdActive →
      maturity_date fd ≤ now →
      effect (CloseFixedDeposit now uuid username fd_id) s
        (true, FixedDepositClosed fd_id (maturity_amount fd))
        (fixed_deposit_closed now uuid username fd_id acct user_fds fd s).

Lemma run_effect op s r s' :
  run hash_password op s = Done r s' → effect op s r s'.
Proof.
  destruct op; simpl; intros H.
  - apply create_account_Done in H
      as [(_ & -> & ->)|[(_ & _ & -> & ->)|(Hn & He & -> & ->)]];
      by constructor.
  - apply authenticate_Done in H
      as [(_ & -> & ->)|[(_ & _ & -> & ->)|[(Hl & acct & Ha & Hp & -> & ->)|
          (Hl & acct & Ha & Hp & -> & ->)]]]; by econstructor.
  - apply deposit_Done in H as [(_ & -> & ->)|(Hp & acct & Ha & -> & ->)];
      by constructor.
  - apply withdraw_Done in H
      as [(_ & -> & ->)|[(acct & _ & _ & _ & -> & ->)|(acct & Ha & Hb & -> & ->)]];
      by constructor.
  - apply initiate_transfer_Done in H
      as [[Hf ->]|(sa & ra & Hs & Hr & Hid & Hne & Hb & -> & ->)].
    + destruct r as [[] m]; [discriminate|constructor].
    + by eapply effect_initiated.
  - apply confirm_transfer_Done in H
      as [(_ & -> & ->)|(td & sa & Htd & Hs & Hr & -> & ->)]; by constructor.
  - destruct r as [[] m].
    + apply apply_for_loan_granted in H
        as (acct & Ha & H1 & H2 & H3 & H4 & -> & ->). by constructor.
    + apply apply_for_loan_failure in H as ->. constructor.
  - apply make_loan_payment_Done in H
      as [[Hf ->]|(acct & ul & loan & H1 & H2 & H3 & H4 & H5 & H6 & -> & ->)].
    + destruct r as [[] m]; [discriminate|constructor].
    + by eapply effect_loan_paid.
  - destruct r as [[] m].
    + apply create_fixed_deposit_Done in H
        as (acct & Ha & H1 & H2 & _ & -> & ->). by constructor.
    + apply create_fixed_deposit_failure in H as ->. constructor.
  - apply close_fixed_deposit_Done in H
      as [[Hf ->]|(acct & ul & fd & H1 & H2 & H3 & H4 & H5 & -> & ->)].
    + destruct r as [[] m]; [discriminate|constructor].
    + by eapply effect_fd_closed.
Qed.

End Effects.

(** ** Sequences of operations *)

(** [steps_of allowed s s']: some sequence of operations satisfying
    [allowed], each returning normally, leads from [s] to [s']. *)
Inductive steps_of (allowed : operation → Prop) (hash_password : string -> string)
    : State → State → Prop :=
  | steps_refl s : steps_of allowed hash_password s s
  | steps_step s op r s1 s2 :
      allowed op →
      run hash_password op s = Done r s1 →
      steps_of allowed hash_password s1 s2 →
      steps_of allowed hash_password s s2.

(** Any sequence of operations. *)
Definition steps : (string -> string) → State → State → Prop :=
  steps_of (λ _, True).

(** The states the application can be in: those a sequence of operations
    reaches from the initial session state. *)
Definition reachable (hash_password : string -> string) (s : State) : Prop :=
  steps hash_password init_session_state s.

Lemma steps_of_invariant (allowed : operation → Prop) hash_password
    (I : State → Prop) :
  (∀ op s r s', allowed op → run hash_password op s = Done r s' → I s → I s') →
  ∀ s s', steps_of allowed hash_password s s' → I s → I s'.
Proof.
  intros Hstep s s'. induction 1 as [s|s op r s1 s2 Hop Hrun _ IH]; [done|].
  intros Hi. apply IH. by eapply Hstep.
Qed.

(** Running a list of operations, as long as none raises: the executable
    form of [steps_of]. *)
Fixpoint run_list (hash_password : string -> string) (ops : list operation)
    (s : State) : option State :=
  match ops with
  | [] => Some s
  | op :: ops' =>
      match run hash_password op s with
      | Done _ s1 => run_list hash_password ops' s1
      | Raised _ _ => None
      end
  end.

Lemma run_list_steps allowed hash_password ops s s' :
  Forall allowed ops →
  run_list hash_password ops s = Some s' →
  steps_of allowed hash_password s s'.
Proof.
  intros Hall. revert s. induction Hall as [|op ops Hop _ IH]; simpl; intros s.
  - intros [= <-]. constructor.
  - destruct (run hash_password op s) as [r s1|] eqn:Hrun; [|done].
    intros Hrest. eapply steps_step; eauto.
Qed.

(** The examples store passwords in clear. *)
Definition plain (password : string) : string := password.

Definition after (ops : list operation) (s : State) : State :=
  default s (run_list plain ops s).

Lemma after_steps allowed ops s :
  Forall allowed ops →
  is_Some (run_list plain ops s) →
  steps_of allowed plain s (after ops s).
Proof.
  intros Hall [s' Hs']. apply (run_list_steps _ _ ops); [done|].
  unfold after. by rewrite Hs'.
Qed.

(** ** Accounts are never deleted, and keep their identity *)

Definition same_identity (a a' : Account) : Prop :=
  password_hash a' = password_hash a ∧ created a' = created a ∧
  account_id a' = account_id a ∧ acct_email a' = acct_email a.

Definition accounts_kept (s s' : State) : Prop :=
  ∀ username a, accounts s !! username = Some a →
    ∃ a', accounts s' !! username = Some a' ∧ same_identity a a'.

Lemma same_identity_refl a : same_identity a a.
Proof. by repeat split. Qed.

Lemma same_identity_trans a b c : same_identity a b → same_identity b c → same_identity a c.
Proof. unfold same_identity. intros (?&?&?&?) (?&?&?&?). repeat split; congruence. Qed.

Lemma accounts_kept_refl s : accounts_kept s s.
Proof. intros u a Ha. eauto using same_identity_refl. Qed.

Lemma accounts_kept_trans s1 s2 s3 :
  accounts_kept s1 s2 → accounts_kept s2 s3 → accounts_kept s1 s3.
Proof.
  intros H1 H2 u a Ha. destruct (H1 u a Ha) as (b & Hb & Hab).
  destruct (H2 u b Hb) as (c & Hc & Hbc). eauto using same_identity_trans.
Qed.

Lemma insert_kept (m : gmap string Account) u0 a0 a0' :
  m !! u0 = Some a0 → same_identity a0 a0' →
  ∀ u a, m !! u = Some a → ∃ a', <[u0 := a0']> m !! u = Some a' ∧ same_identity a a'.
Proof.
  intros H0 Hid u a Ha. destruct (decide (u0 = u)) as [<-|Hne].
  - rewrite lookup_insert_eq. rewrite H0 in Ha. injection Ha as <-. eauto.
  - rewrite lookup_insert_ne by done. eauto using same_identity_refl.
Qed.

Lemma insert_fresh_kept (m : gmap string Account) u0 a0 :
  m !! u0 = None →
  ∀ u a, m !! u = Some a → ∃ a', <[u0 := a0]> m !! u = Some a' ∧ same_identity a a'.
Proof.
  intros H0 u a Ha. destruct (decide (u0 = u)) as [<-|Hne]; [congruence|].
  rewrite lookup_insert_ne by done. eauto using same_identity_refl.
Qed.

Lemma transferred_accounts now uuid transfer_id td sa s :
  accounts s !! tr_sender td = Some sa →
  is_Some (accounts s !! tr_recipient td) →
  ∃ ra,
    <[tr_sender td := set_balance (balance sa + - tr_amount td) sa]> (accounts s)
      !! tr_recipient td = Some ra ∧
    accounts (transferred now uuid transfer_id td sa s) =
      <[tr_recipient td := set_balance (balance ra + tr_amount td) ra]>
        (<[tr_sender td := set_balance (balance sa + - tr_amount td) sa]> (accounts s)).
Proof.
  intros Hs [ra0 Hr].
  destruct (insert_kept (accounts s) (tr_sender td) sa
              (set_balance (balance sa + - tr_amount td) sa) Hs
              ltac:(by repeat split) _ _ Hr) as (ra & Hra & _).
  exists ra. split; [exact Hra|]. unfold transferred. simpl. by rewrite Hra.
Qed.

Lemma effect_accounts_kept hash_password op s r s' :
  effect hash_password op s r s' → accounts_kept s s'.
Proof.
  destruct 1; intros u a Ha;
    try (simpl; by eauto using same_identity_refl);
    try (simpl; by eapply insert_kept; [eassumption|by repeat split|eassumption]).
  - unfold account_created.
    destruct (0 <? _); simpl; by apply insert_fresh_kept.
  - destruct (transferred_accounts now uuid transfer_id td sa s) as (ra & Hra & ->);
      [done..|].
    destruct (insert_kept _ _ _ (set_balance (balance sa + - tr_amount td) sa)
                H0 ltac:(by repeat split) u a Ha) as (b & Hb & Hab).
    destruct (insert_kept _ _ _ (set_balance (balance ra + tr_amount td) ra)
                Hra ltac:(by repeat split) u b Hb) as (c & Hc & Hbc).
    eauto using same_identity_trans.
Qed.

Lemma steps_accounts_kept allowed hash_password s s' :
  steps_of allowed hash_password s s' → accounts_kept s s'.
Proof.
  induction 1 as [s|s op r s1 s2 _ Hrun _ IH]; [apply accounts_kept_refl|].
  apply (accounts_kept_trans s s1 s2); [|exact IH].
  eapply effect_accounts_kept, run_effect, Hrun.
Qed.

(** No sequence of operations deletes an account or changes its password
    hash, creation time, account identifier or email address. *)
Theorem accounts_never_deleted hash_password s s' :
  steps hash_password s s' →
  ∀ username a, accounts s !! username = Some a →
    ∃ a', accounts s' !! username = Some a' ∧
      password_hash a' = password_hash a ∧ created a' = created a ∧
      account_id a' = account_id a ∧ acct_email a' = acct_email a.
Proof. apply steps_accounts_kept. Qed.

(** ** Pending transfers stay well formed *)

(** A pending transfer names two distinct existing accounts, and the
    account identifier it carries is the recipient's. *)
Definition pending_wf (s : State) : Prop :=
  ∀ transfer_id td, transfer_data s !! transfer_id = Some td →
    tr_sender td ≠ tr_recipient td ∧
    ∃ sa ra,
      accounts s !! tr_sender td = Some sa ∧
      accounts s !! tr_recipient td = Some ra ∧
      account_id ra = tr_recipient_account_id td.

Lemma pending_wf_kept s s' :
  pending_wf s → accounts_kept s s' →
  (∀ transfer_id td, transfer_data s' !! transfer_id = Some td →
     transfer_data s !! transfer_id = Some td) →
  pending_wf s'.
Proof.
  intros Hwf Hk Hsub tid td Htd. destruct (Hwf tid td (Hsub _ _ Htd))
    as (Hne & sa & ra & Hs & Hr & Hid).
  split; [exact Hne|].
  destruct (Hk _ _ Hs) as (sa' & Hs' & _).
  destruct (Hk _ _ Hr) as (ra' & Hr' & _ & _ & Hid' & _).
  exists sa', ra'. repeat split; try done. congruence.
Qed.

Lemma effect_pending_wf hash_password op s r s' :
  effect hash_password op s r s' → pending_wf s → pending_wf s'.
Proof.
  intros Heff Hwf. pose proof (effect_accounts_kept _ _ _ _ _ Heff) as Hk.
  destruct Heff;
    try (apply (pending_wf_kept _ _ Hwf Hk); simpl; by auto).
  - apply (pending_wf_kept _ _ Hwf Hk). unfold account_created.
    destruct (0 <? _); simpl; auto.
  - intros tid td. simpl. destruct (decide (uuid = tid)) as [<-|Hne].
    + rewrite lookup_insert_eq. intros [= <-]. simpl. eauto 10.
    + rewrite lookup_insert_ne by done. apply Hwf.
  - apply (pending_wf_kept _ _ Hwf Hk). simpl. intros tid td'.
    destruct (decide (transfer_id = tid)) as [<-|Hne].
    + by rewrite lookup_delete_eq.
    + by rewrite lookup_delete_ne.
Qed.

Lemma steps_pending_wf hash_password s s' :
  steps hash_password s s' → pending_wf s → pending_wf s'.
Proof.
  apply steps_of_invariant. intros op s0 r s1 _ Hrun.
  eapply effect_pending_wf, run_effect, Hrun.
Qed.

(** In every state the application reaches, a pending transfer names two
    distinct existing accounts, so that its confirmation cannot fail: it
    raises no [KeyError] and returns success. *)
Theorem pending_transfer_confirmable hash_password s transfer_id td :
  reachable hash_password s →
  transfer_data s !! transfer_id = Some td →
  tr_sender td ≠ tr_recipient td ∧
  (account_id <$> accounts s !! tr_recipient td) = Some (tr_recipient_account_id td) ∧
  ∀ now uuid, ∃ s',
    confirm_transfer now uuid transfer_id s =
      Done (true, Transferred (tr_amount td) (tr_recipient td) uuid) s'.
Proof.
  intros Hreach Htd.
  assert (Hwf : pending_wf s).
  { eapply steps_pending_wf; [exact Hreach|]. intros tid td'. simpl.
    by rewrite lookup_empty. }
  destruct (Hwf _ _ Htd) as (Hne & sa & ra & Hs & Hr & Hid).
  split; [exact Hne|]. split; [by rewrite Hr; simpl; rewrite Hid|].
  intros now uuid. eexists. by apply (confirm_transfer_spec now uuid _ _ td sa ra).
Qed.

(** ** Signs of float results *)

Module Float64Signs.
Import Float64.












End Float64Signs.


(** ** Balances stay non-negative, transfers apart *)

Definition balances_nonneg (s : State) : Prop :=
  ∀ username acct, accounts s !! username = Some acct → 0 ≤ balance acct.






(** ** At most one active loan per user *)

Definition one_active_loan (s : State) : Prop :=
  ∀ username user_loans id1 id2 l1 l2,
    loans s !! username = Some user_loans →
    user_loans !! id1 = Some l1 → user_loans !! id2 = Some l2 →
    status l1 = LoanActive → status l2 = LoanActive → id1 = id2.

Lemma has_active_loan_false s username user_loans loan_id loan :
  has_active_loan s username = false →
  loans s !! username = Some user_loans → user_loans !! loan_id = Some loan →
  status loan ≠ LoanActive.
Proof.
  unfold has_active_loan. intros H Hu Hl Hst. rewrite Hu in H.
  apply bool_decide_eq_false in H. apply H. by eapply map_Exists_lookup_2.
Qed.

Lemma has_active_loan_true s username user_loans loan_id loan :
  loans s !! username = Some user_loans → user_loans !! loan_id = Some loan →
  status loan = LoanActive →
  has_active_loan s username = true.
Proof.
  unfold has_active_loan. intros Hu Hl Hst. rewrite Hu.
  apply bool_decide_eq_true. by eapply map_Exists_lookup_2.
Qed.

Lemma loan_after_payment_status now remaining loan :
  status (loan_after_payment now remaining loan) = LoanActive →
  status loan = LoanActive.
Proof.
  unfold loan_after_payment. by destruct (Float64.le_int remaining 0).
Qed.

Lemma effect_one_active_loan hash_password op s r s' :
  effect hash_password op s r s' → one_active_loan s → one_active_loan s'.
Proof.
  intros Heff Hone.
  destruct Heff; try exact Hone.
  - unfold account_created. by destruct (0 <? _).
  - (* a loan is granted: the user had no active loan *)
    intros u ul id1 id2 l1 l2. simpl.
    destruct (decide (username = u)) as [<-|Hne];
      [|rewrite lookup_insert_ne by done; apply Hone].
    rewrite lookup_insert_eq. intros [= <-] Hl1 Hl2 Hs1 Hs2.
    assert (Hold : ∀ id l,
      <[loan_id := mkLoan amount months LOAN_INTEREST_RATE
          (Float64.round
             (Float64.div (loan_total amount) (Float64.of_Z months)))
          (loan_total amount) now LoanActive 0 None]>
        (default ∅ (loans s !! username)) !! id = Some l →
      status l = LoanActive → id = loan_id).
    { intros id l Hl Hs. destruct (decide (loan_id = id)) as [<-|Hid]; [done|].
      rewrite lookup_insert_ne in Hl by done.
      destruct (loans s !! username) as [ul0|] eqn:E; simpl in Hl.
      - by destruct (has_active_loan_false s username ul0 id l).
      - by rewrite lookup_empty in Hl. }
    rewrite (Hold _ _ Hl1 Hs1), (Hold _ _ Hl2 Hs2). done.
  - (* a payment: the loan paid on was the active one *)
    intros u ul id1 id2 l1 l2. simpl.
    destruct (decide (username = u)) as [<-|Hne];
      [|rewrite lookup_insert_ne by done; apply Hone].
    rewrite lookup_insert_eq. intros [= <-] Hl1 Hl2 Hs1 Hs2.
    assert (Hold : ∀ id l,
      <[loan_id := loan_after_payment now
          (Float64.sub (remaining_balance loan) (Float64.of_Z amount)) loan]>
        user_loans !! id = Some l →
      status l = LoanActive → id = loan_id).
    { intros id l Hl Hs. destruct (decide (loan_id = id)) as [<-|Hid]; [done|].
      rewrite lookup_insert_ne in Hl by done.
      by apply (Hone username user_loans id loan_id l loan). }
    rewrite (Hold _ _ Hl1 Hs1), (Hold _ _ Hl2 Hs2). done.
Qed.

(** In every state the application reaches a user has at most one active
    loan; and while a user has an active loan, an application for another one
    is refused and changes nothing. *)
Theorem at_most_one_active_loan hash_password s :
  reachable hash_password s →
  (∀ username user_loans id1 id2 l1 l2,
     loans s !! username = Some user_loans →
     user_loans !! id1 = Some l1 → user_loans !! id2 = Some l2 →
     status l1 = LoanActive → status l2 = LoanActive → id1 = id2) ∧
  (∀ username user_loans id1 l1 acct now loan_id uuid amount months,
     loans s !! username = Some user_loans → user_loans !! id1 = Some l1 →
     status l1 = LoanActive →
     accounts s !! username = Some acct →
     0 < amount → 0 < months → 90 ≤ timedelta_days (now - created acct) →
     apply_for_loan now loan_id uuid username amount months s =
       Done (false, ActiveLoanExists) s).
Proof.
  intros Hreach. split.
  - apply (steps_of_invariant _ _ one_active_loan) in Hreach; [exact Hreach| |].
    + intros op s0 r s1 _ Hrun. eapply effect_one_active_loan, run_effect, Hrun.
    + intros u ul id1 id2 l1 l2. simpl. by rewrite lookup_empty.
  - intros u ul id1 l1 acct now loan_id uuid amount months Hu Hl Hs Ha Hp Hm Hage.
    unfold apply_for_loan.
    destruct (amount <=? 0) eqn:E1; [lia|].
    destruct (months <=? 0) eqn:E2; [lia|].
    rewrite bind_get, (bind_subscript_Some _ _ _ _ _ Ha).
    destruct (_ <? 90) eqn:E3; [lia|].
    by rewrite (has_active_loan_true s u ul id1 l1).
Qed.

(** ** Email addresses stay unique *)

Definition emails_unique_in (m : gmap string Account) : Prop :=
  ∀ u1 u2 a1 a2 e,
    m !! u1 = Some a1 → m !! u2 = Some a2 →
    acct_email a1 = Some e → acct_email a2 = Some e → u1 = u2.

Definition emails_unique (s : State) : Prop := emails_unique_in (accounts s).

Lemma emails_unique_update (m : gmap string Account) u0 a0 a0' :
  m !! u0 = Some a0 → acct_email a0' = acct_email a0 →
  emails_unique_in m → emails_unique_in (<[u0 := a0']> m).
Proof.
  intros H0 He Hu u1 u2 a1 a2 e H1 H2 E1 E2.
  assert (Hback : ∀ u a, <[u0 := a0']> m !! u = Some a →
            ∃ b, m !! u = Some b ∧ acct_email b = acct_email a).
  { intros u a. destruct (decide (u0 = u)) as [<-|Hne].
    - rewrite lookup_insert_eq. intros [= <-]. eauto.
    - rewrite lookup_insert_ne by done. eauto. }
  destruct (Hback _ _ H1) as (b1 & Hb1 & Eb1).
  destruct (Hback _ _ H2) as (b2 & Hb2 & Eb2).
  apply (Hu u1 u2 b1 b2 e); congruence.
Qed.

Lemma emails_unique_create (m : gmap string Account) u0 a0 e0 :
  m !! u0 = None → acct_email a0 = Some e0 →
  ¬ map_Exists (λ _ data, acct_email data = Some e0) m →
  emails_unique_in m → emails_unique_in (<[u0 := a0]> m).
Proof.
  intros H0 He Hfresh Hu u1 u2 a1 a2 e H1 H2 E1 E2.
  destruct (decide (u0 = u1)) as [<-|N1], (decide (u0 = u2)) as [<-|N2]; [done|..].
  - rewrite lookup_insert_eq in H1. injection H1 as <-.
    rewrite lookup_insert_ne in H2 by done.
    destruct Hfresh. apply (map_Exists_lookup_2 _ _ u2 a2); congruence.
  - rewrite lookup_insert_eq in H2. injection H2 as <-.
    rewrite lookup_insert_ne in H1 by done.
    destruct Hfresh. apply (map_Exists_lookup_2 _ _ u1 a1); congruence.
  - rewrite lookup_insert_ne in H1, H2 by done. by apply (Hu u1 u2 a1 a2 e).
Qed.

Lemma effect_emails_unique hash_password op s r s' :
  effect hash_password op s r s' → emails_unique s → emails_unique s'.
Proof.
  intros Heff Hu. unfold emails_unique in *.
  destruct Heff; try exact Hu;
    try (simpl; by eapply emails_unique_update).
  - unfold account_created.
    destruct (0 <? _); simpl; by eapply emails_unique_create.
  - destruct (transferred_accounts now uuid transfer_id td sa s) as (ra & Hra & ->);
      [done..|].
    eapply emails_unique_update; [exact Hra|done|].
    by eapply emails_unique_update.
Qed.

(** In every state the application reaches no two accounts share an email
    address: [create_account] refuses an address that is registered, and no
    operation changes the address of an account. *)
Theorem emails_stay_unique hash_password s u1 u2 a1 a2 e :
  reachable hash_password s →
  accounts s !! u1 = Some a1 → accounts s !! u2 = Some a2 →
  acct_email a1 = Some e → acct_email a2 = Some e →
  u1 = u2.
Proof.
  intros Hreach. revert u1 u2 a1 a2 e. change (emails_unique s).
  apply (steps_of_invariant _ _ emails_unique) in Hreach; [exact Hreach| |].
  - intros op s0 r s1 _ Hrun. eapply effect_emails_unique, run_effect, Hrun.
  - intros u1 u2 a1 a2 e. simpl. by rewrite lookup_empty.
Qed.

(** ** The session: persistence, logout and the transfer page *)

(** The document [save_data] writes and [load_data] reads: the five
    dictionaries of the ledger. Pending transfers and the session fields are
    not part of it. *)
Record Snapshot : Type := mkSnapshot {
  snap_accounts : gmap string Account;
  snap_transactions : gmap string (gmap string Transaction);
  snap_loans : gmap string (gmap string Loan);
  snap_fixed_deposits : gmap string (gmap string FixedDeposit);
  snap_failed_attempts : gmap string FailedAttempt
}.


(** [load_data] with the content of the data file, if the file exists. *)
Definition load_data (file : option Snapshot) : M unit :=
  match file with
  | Some data =>
      modify (λ s,
        mkState (snap_accounts data) (snap_transactions data) (transfer_data s)
          (snap_loans data) (snap_fixed_deposits data) (snap_failed_attempts data)
          (authenticated s) (current_user s) (login_time s)
          (transfer_confirmation s) (session_transfer_id s))
  | None => mret tt
  end.

(** The Logout button of [dashboard]. *)
Definition dashboard_logout : M unit :=
  s ← get;
  modify (set_session false None (login_time s));;
  modify (set_transfer_confirmation false).

(** The confirmation step of the transfer page reads the pending transfer
    of the session before it shows its two buttons. *)
Definition render_confirmation : M Transfer :=
  s ← get;
  match session_transfer_id s with
  | Some transfer_id => subscript (transfer_data s) transfer_id
  | None => raise KeyError
  end.

(** What the user can do in a session. The transfer page shows the form
    while [transfer_confirmation] is unset, and the Confirm and Cancel buttons
    while it is set; a button that is not shown cannot be pressed. *)
Inductive ui_event : Type :=
  | SubmitTransfer (now : Z) (uuid recipient recipient_account_id : string)
      (amount : Z) (description : option string)
  | ConfirmButton (now : Z) (uuid : string)
  | CancelButton
  | LogoutButton
  | SessionCheck (now : Z)
  | Reload (file : option Snapshot)
  | OtherPage (op : operation).

Definition ui_step (hash_password : string -> string) (ev : ui_event) : M unit :=
  match ev with
  | SubmitTransfer now uuid recipient rid amount description =>
      s ← get;
      if transfer_confirmation s then mret tt
      else
        _ ← dashboard_initiate_transfer now uuid recipient rid amount description;
        mret tt
  | ConfirmButton now uuid =>
      s ← get;
      if transfer_confirmation s then
        _ ← render_confirmation;
        _ ← dashboard_confirm_transfer now uuid;
        mret tt
      else mret tt
  | CancelButton =>
      s ← get;
      if transfer_confirmation s then
        _ ← render_confirmation;
        dashboard_cancel_transfer
      else mret tt
  | LogoutButton => dashboard_logout
  | SessionCheck now => _ ← check_session_timeout now; mret tt
  | Reload file => load_data file
  | OtherPage op => _ ← run hash_password op; mret tt
  end.

(** The events of a session in which the identifier [t] is never generated
    again and the transfer functions are reached through the transfer page
    only. *)
Definition through_the_page (t : string) (ev : ui_event) : Prop :=
  match ev with
  | SubmitTransfer _ uuid _ _ _ _ => uuid ≠ t
  | OtherPage (InitiateTransfer _ _ _ _ _ _ _) => False
  | OtherPage (ConfirmTransfer _ _ _) => False
  | _ => True
  end.

Inductive ui_steps (allowed : ui_event → Prop) (hash_password : string -> string)
    : State → State → Prop :=
  | ui_steps_refl s : ui_steps allowed hash_password s s
  | ui_steps_step s ev s1 s2 :
      allowed ev →
      ui_step hash_password ev s = Done tt s1 →
      ui_steps allowed hash_password s1 s2 →
      ui_steps allowed hash_password s s2.

(** The pending transfer [t] is stored and is not the one the page would
    confirm. *)
Definition abandoned (t : string) (td : Transfer) (s : State) : Prop :=
  transfer_data s !! t = Some td ∧
  (transfer_confirmation s = false ∨ session_transfer_id s ≠ Some t).

Lemma effect_session_frame hash_password op s r s' :
  effect hash_password op s r s' →
  match op with
  | InitiateTransfer _ _ _ _ _ _ _ | ConfirmTransfer _ _ _ => True
  | _ =>
      transfer_data s' = transfer_data s ∧
      transfer_confirmation s' = transfer_confirmation s ∧
      session_transfer_id s' = session_transfer_id s
  end.
Proof.
  destruct 1; try done; try (by destruct op).
  unfold account_created. by destruct (0 <? _).
Qed.

Lemma ret_Done_inv {A : Type} (a b : A) (s s' : State) :
  (mret a : M A) s = Done b s' → b = a ∧ s' = s.
Proof. by intros [= <- <-]. Qed.

Lemma ui_step_abandoned hash_password t td ev s s' :
  through_the_page t ev →
  ui_step hash_password ev s = Done tt s' →
  abandoned t td s → abandoned t td s'.
Proof.
  intros Hev Hrun Hab. pose proof Hab as [Htd Hflag].
  destruct ev; simpl in Hrun, Hev.
  - (* the form *)
    rewrite bind_get in Hrun.
    destruct (transfer_confirmation s) eqn:Hc; [by apply ret_Done_inv in Hrun as [_ ->]|].
    apply bind_Done_inv in Hrun as (r & s1 & Hrun & [= <-]).
    unfold dashboard_initiate_transfer in Hrun. rewrite bind_get in Hrun.
    destruct (current_user s) as [user|]; [|by munfold].
    apply bind_Done_inv in Hrun as ([ok m] & s2 & Hinit & Hrest).
    apply initiate_transfer_Done in Hinit as [[Hf ->]|(sa & ra & _ & _ & _ & _ & _ & Hr & ->)].
    + simpl in Hf. subst ok. munfold. simpl in Hrest. injection Hrest as _ <-.
      split; [done|by left].
    + injection Hr as -> ->. munfold. simpl in Hrest.
      injection Hrest as _ <-. split.
      * simpl. by rewrite lookup_insert_ne.
      * right. simpl. congruence.
  - (* Confirm *)
    rewrite bind_get in Hrun.
    destruct (transfer_confirmation s) eqn:Hc; [|by apply ret_Done_inv in Hrun as [_ ->]].
    destruct Hflag as [|Hid]; [congruence|].
    apply bind_Done_inv in Hrun as (td0 & s1 & Hrender & Hrun).
    assert (s1 = s) as ->.
    { revert Hrender. unfold render_confirmation. rewrite bind_get.
      destruct (session_transfer_id s) as [t1|]; [|mdiscriminate]. unfold subscript.
      destruct (transfer_data s !! t1); [|mdiscriminate]. by intros [= _ <-]. }
    apply bind_Done_inv in Hrun as (r & s1 & Hrun & [= <-]).
    unfold dashboard_confirm_transfer in Hrun. rewrite bind_get in Hrun.
    destruct (session_transfer_id s) as [t0|] eqn:Hsid; [|by munfold].
    assert (t0 ≠ t) by congruence.
    apply bind_Done_inv in Hrun as ([ok m] & s2 & Hconf & Hrest).
    apply confirm_transfer_Done in Hconf
      as [(_ & Hr & ->)|(td1 & sa & _ & _ & _ & Hr & ->)].
    + injection Hr as -> ->. munfold. simpl in Hrest. injection Hrest as _ <-.
      split; [done|by right; congruence].
    + injection Hr as -> ->. munfold. simpl in Hrest. injection Hrest as _ <-.
      split; [|by left]. simpl. by rewrite lookup_delete_ne.
  - (* Cancel *)
    rewrite bind_get in Hrun.
    destruct (transfer_confirmation s) eqn:Hc; [|by apply ret_Done_inv in Hrun as [_ ->]].
    apply bind_Done_inv in Hrun as (td0 & s1 & Hrender & Hrun).
    assert (s1 = s) as ->.
    { revert Hrender. unfold render_confirmation. rewrite bind_get.
      destruct (session_transfer_id s) as [t1|]; [|mdiscriminate]. unfold subscript.
      destruct (transfer_data s !! t1); [|mdiscriminate]. by intros [= _ <-]. }
    injection Hrun as <-. split; [done|by left].
  - (* Logout *)
    injection Hrun as <-. split; [done|by left].
  - (* the session check *)
    apply bind_Done_inv in Hrun as (b & s1 & Hrun & [= <-]).
    revert Hrun. unfold check_session_timeout. rewrite bind_get.
    destruct (login_time s); [|by intros [= _ <-]].
    destruct (_ && _); [|by intros [= _ <-]].
    rewrite bind_modify. by intros [= _ <-].
  - (* a reload *)
    destruct file; by injection Hrun as <-.
  - (* the other pages *)
    apply bind_Done_inv in Hrun as (r & s1 & Hrun & [= <-]).
    apply run_effect, effect_session_frame in Hrun.
    destruct op; try done; destruct Hrun as (H1 & H2 & H3);
      split; rewrite ?H1, ?H2, ?H3; done.
Qed.

(** A transfer the user has cancelled on the transfer page is never carried
    out in that session: whatever the user does afterwards, the pending entry
    is neither confirmed nor removed (it stays in [transfer_data] for the
    rest of the session), provided its identifier is not generated again. *)
Theorem cancelled_transfer_never_confirmed hash_password t td s s1 s' :
  transfer_data s !! t = Some td →
  dashboard_cancel_transfer s = Done tt s1 →
  ui_steps (through_the_page t) hash_password s1 s' →
  transfer_data s' !! t = Some td.
Proof.
  intros Htd [= <-] Hsteps.
  assert (Hab : abandoned t td (set_transfer_confirmation false s))
    by (split; [done|by left]).
  revert Hab. induction Hsteps as [s0|s0 ev s2 s3 Hev Hrun _ IH].
  - by intros [? _].
  - intros Hab. apply IH. by eapply ui_step_abandoned.
Qed.

(** ** Registration and login *)

(** Failed attempts are recorded for existing accounts only. *)
Definition attempts_have_accounts (s : State) : Prop :=
  ∀ username fa, failed_attempts s !! username = Some fa →
    is_Some (accounts s !! username).

Lemma effect_attempts_have_accounts hash_password op s r s' :
  effect hash_password op s r s' → attempts_have_accounts s → attempts_have_accounts s'.
Proof.
  intros Heff Hinv. pose proof (effect_accounts_kept _ _ _ _ _ Heff) as Hk.
  assert (Hframe : failed_attempts s' = failed_attempts s → attempts_have_accounts s').
  { intros E u fa. rewrite E. intros Hfa. destruct (Hinv u fa Hfa) as [a Ha].
    destruct (Hk u a Ha) as (a' & Ha' & _). eauto. }
  destruct Heff; try (by apply Hframe).
  - apply Hframe. unfold account_created. by destruct (0 <? _).
  - intros u fa. simpl. destruct (decide (username = u)) as [<-|Hne].
    + eauto.
    + rewrite lookup_insert_ne by done. apply Hinv.
  - intros u fa. simpl. destruct (decide (username = u)) as [<-|Hne].
    + by rewrite lookup_delete_eq.
    + rewrite lookup_delete_ne, lookup_insert_ne by done. apply Hinv.
Qed.

(** In every state the application reaches, a user who has just registered
    can log in with the password given at registration, at any later time:
    no failure record of an earlier user of the name stands in the way. The
    login opens the session for that user. *)
Theorem register_then_login hash_password s now aid uuid username password email
    deposit m s1 now' :
  reachable hash_password s →
  create_account hash_password now aid uuid username password email deposit s =
    Done (true, m) s1 →
  ∃ s2,
    authenticate hash_password now' username password s1 =
      Done (true, LoginSuccessful) s2 ∧
    authenticated s2 = true ∧ current_user s2 = Some username ∧
    login_time s2 = Some now' ∧
    (balance <$> accounts s2 !! username) = Some deposit.
Proof.
  intros Hreach Hcreate.
  apply (steps_of_invariant _ _ attempts_have_accounts) in Hreach.
  2:{ intros op s0 r s' _ Hrun. eapply effect_attempts_have_accounts, run_effect, Hrun. }
  2:{ intros u fa. simpl. by rewrite lookup_empty. }
  apply create_account_Done in Hcreate
    as [(_ & [=] & _)|[(_ & _ & [=] & _)|(Hn & _ & _ & ->)]].
  set (acct := mkAccount (hash_password password) deposit now aid (Some email) None).
  assert (Ha : accounts (account_created hash_password now aid uuid username password
                           email deposit s) !! username = Some acct).
  { unfold account_created. destruct (0 <? _); simpl; apply lookup_insert_eq. }
  assert (Hl : is_locked now' (account_created hash_password now aid uuid username
                                 password email deposit s) username = false).
  { unfold is_locked.
    assert (Hfa : failed_attempts (account_created hash_password now aid uuid username
                     password email deposit s) !! username = None).
    { unfold account_created.
      destruct (0 <? _); simpl;
        (destruct (failed_attempts s !! username) as [fa|] eqn:E; [|done];
         destruct (Hreach _ _ E); congruence). }
    by rewrite Hfa. }
  eexists. split; [by apply (authenticate_correct_password _ _ _ _ _ acct)|].
  simpl. rewrite lookup_insert_eq. done.
Qed.

(** [authenticate] opens a session only for an existing account that is not
    locked and whose stored hash is that of the password given; it then
    forgets the failed attempts of the user. *)
Theorem authenticate_sound hash_password now username password s m s' :
  authenticate hash_password now username password s = Done (true, m) s' →
  is_locked now s username = false ∧
  (password_hash <$> accounts s !! username) = Some (hash_password password) ∧
  authenticated s' = true ∧ current_user s' = Some username ∧
  failed_attempts s' !! username = None ∧
  ∀ now', is_locked now' s' username = false.
Proof.
  intros H. apply authenticate_Done in H
    as [(_ & [=] & _)|[(_ & _ & [=] & _)|[(_ & a & _ & _ & [=] & _)|
        (Hl & acct & Ha & Hp & _ & ->)]]].
  split; [done|]. split; [by rewrite Ha; simpl; rewrite Hp|].
  assert (Hfa : failed_attempts (logged_in now username acct s) !! username = None)
    by (simpl; apply lookup_delete_eq).
  repeat (split; [done|]). intros now'. unfold is_locked. by rewrite Hfa.
Qed.

(** ** Consecutive failed logins *)

Section FailedLogins.

Variable hash_password : string -> string.

(** Login attempts for one user, given by their times and passwords. *)
Fixpoint attempts (username : string) (l : list (Z * string)) : M unit :=
  match l with
  | [] => mret tt
  | (now, password) :: l' =>
      _ ← authenticate hash_password now username password;
      attempts username l'
  end.

Lemma is_locked_below_five now s username :
  failed_count s username < 5 → is_locked now s username = false.
Proof.
  unfold is_locked, failed_count.
  destruct (failed_attempts s !! username) as [fa|]; [|done]. simpl. intros H.
  apply andb_false_iff. left. lia.
Qed.

Lemma attempts_counted username acct l : ∀ s,
  accounts s !! username = Some acct →
  Forall (λ tp, password_hash acct ≠ hash_password tp.2) l →
  failed_count s username + Z.of_nat (length l) ≤ 5 →
  l ≠ [] →
  ∃ s',
    attempts username l s = Done tt s' ∧
    accounts s' = accounts s ∧
    (count <$> failed_attempts s' !! username) =
      Some (failed_count s username + Z.of_nat (length l)) ∧
    (timestamp <$> failed_attempts s' !! username) = last (l.*1).
Proof.
  induction l as [|[now password] l IH]; intros s Ha Hwrong Hlen Hne; [done|].
  apply Forall_cons in Hwrong as [Hw Hwrong]. simpl in Hw, Hlen.
  assert (Hl : is_locked now s username = false)
    by (apply is_locked_below_five; lia).
  cbn [attempts].
  rewrite (bind_Done _ _ _ _ _
             (authenticate_wrong_password _ _ _ _ _ _ Hl Ha Hw)).
  assert (Hc : failed_count (attempt_failed now username s) username =
               failed_count s username + 1).
  { unfold failed_count at 1. simpl. by rewrite lookup_insert_eq. }
  destruct l as [|tp l].
  - eexists. split; [reflexivity|]. simpl. rewrite lookup_insert_eq. simpl.
    split; [done|]. split; [f_equal; lia|done].
  - destruct (IH (attempt_failed now username s)) as (s' & Hrun & Hacc & Hcount & Hts);
      [done|done|rewrite Hc; simpl in *; lia|done|].
    exists s'. split; [exact Hrun|]. split; [by rewrite Hacc|].
    split; [rewrite Hcount, Hc; f_equal; simpl length; lia|].
    rewrite Hts. by destruct tp.
Qed.

(** Five consecutive wrong passwords for an account without failure record
    lock it: during the hour that follows the fifth failure every attempt,
    the correct password included, is refused with the locked message and
    leaves the state as it is. The times and the passwords tried are
    arbitrary. *)
Theorem five_failures_lock username acct s l now5 password5 :
  accounts s !! username = Some acct →
  failed_attempts s !! username = None →
  Forall (λ tp, password_hash acct ≠ hash_password tp.2) (l ++ [(now5, password5)]) →
  length l = 4%nat →
  ∃ s',
    attempts username (l ++ [(now5, password5)]) s = Done tt s' ∧
    failed_attempts s' !! username = Some (mkFailedAttempt 5 now5) ∧
    ∀ now password, 0 ≤ now - now5 < 3600 →
      authenticate hash_password now username password s' =
        Done (false, AccountLocked) s'.
Proof.
  intros Ha Hfa Hwrong Hlen.
  assert (Hc : failed_count s username = 0) by (unfold failed_count; by rewrite Hfa).
  destruct (attempts_counted username acct (l ++ [(now5, password5)]) s)
    as (s' & Hrun & _ & Hcount & Hts); [done|done| |by destruct l|].
  { rewrite Hc, length_app, Hlen. simpl. lia. }
  rewrite Hc, length_app, Hlen in Hcount. simpl in Hcount.
  rewrite fmap_app in Hts.
  change (fst <$> [(now5, password5)]) with [now5] in Hts. rewrite last_snoc in Hts.
  destruct (failed_attempts s' !! username) as [[c t]|] eqn:E; [|done].
  simpl in Hcount, Hts. injection Hcount as ->. injection Hts as ->.
  exists s'. split; [exact Hrun|]. split; [done|].
  intros now password Hnow. apply authenticate_locked, is_locked_iff.
  eexists. split; [exact E|]. simpl. split; [lia|].
  rewrite Z.mod_small by lia. lia.
Qed.

End FailedLogins.

(** ** Failures leave the state alone *)

(** An operation that reports a failure returns the state it received; the
    one exception is a login attempt with a wrong password, which is
    counted. *)
Theorem failure_changes_nothing hash_password op s m s' :
  run hash_password op s = Done (false, m) s' →
  s' = s ∨
  ∃ now username password acct,
    op = Authenticate now username password ∧
    accounts s !! username = Some acct ∧
    password_hash acct ≠ hash_password password ∧
    s' = attempt_failed now username s.
Proof.
  intros Hrun. apply run_effect in Hrun.
  inversion Hrun; subst; eauto 10.
Qed.

(** ** A fixed deposit from creation to closure *)

(** Once a fixed deposit of [P] over [M] months is created at time [now0],
    it cannot be closed before [30 * M] days have passed; from then on the
    first closure pays [round(P * (1 + 0.07 * M/12))], so that the balance
    ends at the balance before the creation, minus [P], plus that amount. *)
Theorem fixed_deposit_round_trip now0 fd_id uuid0 username P M s m s1 :
  create_fixed_deposit now0 fd_id uuid0 username P M s = Done (true, m) s1 →
  ∃ acct,
    accounts s !! username = Some acct ∧
    (balance <$> accounts s1 !! username) = Some (balance acct - P) ∧
    (∀ now uuid, now < now0 + 30 * M * 86400 →
       close_fixed_deposit now uuid username fd_id s1 =
         Done (false, FixedDepositNotMatured) s1) ∧
    (∀ now uuid, now0 + 30 * M * 86400 ≤ now →
       ∃ s2,
         close_fixed_deposit now uuid username fd_id s1 =
           Done (true, FixedDepositClosed fd_id (maturity_value P M)) s2 ∧
         (balance <$> accounts s2 !! username) =
           Some (balance acct - P + maturity_value P M)).
Proof.
  intros (acct & Ha & HP & HM & _ & -> & ->)%create_fixed_deposit_Done.
  exists acct. split; [done|].
  set (fd := mkFixedDeposit P M FIXED_DEPOSIT_INTEREST (maturity_value P M) now0
               (now0 + fd_term_seconds M) FdActive None).
  set (s1 := fixed_deposit_created now0 fd_id uuid0 username P M acct s).
  assert (Hu : fixed_deposits s1 !! username =
               Some (<[fd_id := fd]> (default ∅ (fixed_deposits s !! username))))
    by (simpl; apply lookup_insert_eq).
  assert (Hf : <[fd_id := fd]> (default ∅ (fixed_deposits s !! username)) !! fd_id
               = Some fd) by apply lookup_insert_eq.
  assert (Ha1 : accounts s1 !! username = Some (set_balance (balance acct - P) acct))
    by (simpl; apply lookup_insert_eq).
  split; [by rewrite Ha1|]. split.
  - intros now uuid Hlt.
    apply (close_fixed_deposit_not_matured _ _ _ _ _ fd);
      [apply find_fixed_deposit_Some; eauto|done|].
    simpl. unfold fd_term_seconds. lia.
  - intros now uuid Hge. eexists. split.
    + apply (close_fixed_deposit_matured _ _ _ _ _ _ _ fd Hu Hf Ha1); [done|].
      simpl. unfold fd_term_seconds. lia.
    + simpl. by rewrite lookup_insert_eq.
Qed.

(** ** The age of an account and its first loan *)

Lemma timedelta_days_lt delta : timedelta_days delta < 90 ↔ delta < 90 * 86400.
Proof.
  unfold timedelta_days. split; intros H.
  - destruct (Z.lt_ge_cases delta (90 * 86400)) as [|Hge]; [done|].
    assert (90 ≤ delta / 86400) by (apply Z.div_le_lower_bound; lia). lia.
  - apply Z.div_lt_upper_bound; lia.
Qed.

(** An account created at time [now0] is refused every loan until 90 days
    of 86400 seconds have passed, whatever has been done with the account in
    between; from that moment on no application is refused for the age of the
    account. *)
Theorem loan_refused_before_90_days hash_password now0 aid uuid0 username password
    email deposit s m s1 s2 now loan_id uuid amount months :
  create_account hash_password now0 aid uuid0 username password email deposit s =
    Done (true, m) s1 →
  steps hash_password s1 s2 →
  0 < amount → 0 < months →
  (now - now0 < 90 * 86400 →
     apply_for_loan now loan_id uuid username amount months s2 =
       Done (false, AccountTooNew) s2) ∧
  (90 * 86400 ≤ now - now0 →
     ∀ r s3, apply_for_loan now loan_id uuid username amount months s2 = Done r s3 →
       r ≠ (false, AccountTooNew)).
Proof.
  intros Hcreate Hsteps Hp Hm.
  apply create_account_Done in Hcreate
    as [(_ & [=] & _)|[(_ & _ & [=] & _)|(Hn & _ & _ & ->)]].
  assert (Ha : ∃ acct, accounts s2 !! username = Some acct ∧ created acct = now0).
  { apply steps_accounts_kept in Hsteps.
    destruct (Hsteps username
                (mkAccount (hash_password password) deposit now0 aid (Some email) None))
      as (acct & Ha & _ & Hc & _).
    - unfold account_created. destruct (0 <? _); simpl; apply lookup_insert_eq.
    - eauto. }
  destruct Ha as (acct & Ha & Hc).
  pose proof (timedelta_days_lt (now - created acct)) as Hdays. rewrite Hc in Hdays.
  unfold apply_for_loan.
  destruct (amount <=? 0) eqn:E1; [lia|].
  destruct (months <=? 0) eqn:E2; [lia|].
  rewrite bind_get, (bind_subscript_Some _ _ _ _ _ Ha), Hc.
  split.
  - intros Hlt. destruct (_ <? 90) eqn:E3; [done|]. lia.
  - intros Hge r s3. destruct (_ <? 90) eqn:E3; [lia|].
    destruct (has_active_loan s2 username); [by intros [= <- _]|].
    intros H [= ->]. revert H.
    intros (mp & s4 & H1 & H2)%bind_Done_inv.
    rewrite bind_modify in H2.
    apply bind_Done_inv in H2 as (rate & s5 & H2 & H3).
    apply bind_Done_inv in H3 as (rem & s6 & H3 & H4).
    rewrite bind_get in H4.
    apply bind_Done_inv in H4 as (ul & s7 & H4 & H5).
    rewrite bind_modify in H5.
    apply bind_Done_inv in H5 as ([] & s8 & H5 & H6).
    apply bind_Done_inv in H6 as (i & s9 & H6 & H7). discriminate H7.
Qed.

(** ** The money in the ledger *)

(** The sum of all balances. *)
Definition total_in (m : gmap string Account) : Z :=
  map_fold (λ _ acct sum, balance acct + sum) 0 m.

Definition total_balance (s : State) : Z := total_in (accounts s).

Lemma total_in_insert_fresh (m : gmap string Account) u a :
  m !! u = None → total_in (<[u := a]> m) = total_in m + balance a.
Proof.
  intros H. unfold total_in. rewrite map_fold_insert_L; [lia| |done].
  intros. lia.
Qed.

Lemma total_in_insert (m : gmap string Account) u a a' :
  m !! u = Some a → total_in (<[u := a']> m) = total_in m - balance a + balance a'.
Proof.
  intros H. rewrite <- (insert_delete_eq m u a').
  rewrite total_in_insert_fresh by apply lookup_delete_eq.
  unfold total_in at 2. rewrite (map_fold_delete_L _ _ u a m); [|intros; lia|done].
  unfold total_in. lia.
Qed.

(** The money an operation brings into the ledger (out of it, when
    negative), read off the call and its result. *)
Definition inflow (op : operation) (r : bool * message) : Z :=
  if fst r then
    match op, snd r with
    | CreateAccount _ _ _ _ _ _ initial_deposit, _ => initial_deposit
    | DepositOp _ _ _ amount, _ => amount
    | WithdrawOp _ _ _ amount, _ => - amount
    | ApplyForLoan _ _ _ _ amount _, _ => amount
    | MakeLoanPayment _ _ _ _ amount, _ => - amount
    | CreateFixedDeposit _ _ _ _ amount _, _ => - amount
    | CloseFixedDeposit _ _ _ _, FixedDepositClosed _ maturity_amount => maturity_amount
    | _, _ => 0
    end
  else 0.

Lemma effect_total hash_password op s r s' :
  effect hash_password op s r s' → total_balance s' = total_balance s + inflow op r.
Proof.
  unfold total_balance.
  destruct 1; cbn [inflow fst snd];
    try (simpl accounts; erewrite total_in_insert by eassumption; simpl; lia);
    try (simpl; lia).
  - unfold account_created.
    destruct (0 <? _); simpl; by rewrite total_in_insert_fresh.
  - destruct (transferred_accounts now uuid transfer_id td sa s) as (ra & Hra & ->);
      [done..|].
    erewrite total_in_insert by exact Hra.
    erewrite total_in_insert by eassumption. simpl. lia.
Qed.

(** Money enters and leaves the ledger through deposits, withdrawals, loans
    and fixed deposits only: after every operation the sum of all balances is
    the sum before plus the amount the operation brings in. In particular a
    confirmed transfer leaves the sum of all balances unchanged, and so does
    every failed operation. *)
Theorem total_balance_accounted hash_password op s r s' :
  run hash_password op s = Done r s' →
  total_balance s' = total_balance s + inflow op r ∧
  (∀ now uuid transfer_id, op = ConfirmTransfer now uuid transfer_id →
     total_balance s' = total_balance s) ∧
  (fst r = false → total_balance s' = total_balance s).
Proof.
  intros Hrun. apply run_effect, effect_total in Hrun. split; [exact Hrun|]. split.
  - intros now uuid tid ->. rewrite Hrun. unfold inflow. destruct (fst r); simpl; lia.
  - intros Hf. rewrite Hrun. unfold inflow. rewrite Hf. lia.
Qed.

(** ** Transaction histories are append-only *)

(** The identifier under which an operation records its transaction. *)
Definition records_under (op : operation) : option string :=
  match op with
  | CreateAccount _ _ uuid _ _ _ _ | DepositOp _ uuid _ _ | WithdrawOp _ uuid _ _
  | ConfirmTransfer _ uuid _ | ApplyForLoan _ _ uuid _ _ _
  | MakeLoanPayment _ uuid _ _ _ | CreateFixedDeposit _ _ uuid _ _ _
  | CloseFixedDeposit _ uuid _ _ => Some uuid
  | Authenticate _ _ _ | InitiateTransfer _ _ _ _ _ _ _ => None
  end.

Lemma record_lookup_other username uuid t txs username' id :
  uuid ≠ id →
  record username uuid t txs !! username' ≫= (.!! id) = txs !! username' ≫= (.!! id).
Proof.
  intros Hne. unfold record. destruct (decide (username = username')) as [<-|Hu].
  - rewrite lookup_insert_eq. simpl. rewrite lookup_insert_ne by done.
    by destruct (txs !! username).
  - by rewrite lookup_insert_ne.
Qed.

Lemma effect_history_kept hash_password op s r s' username id t :
  effect hash_password op s r s' →
  records_under op ≠ Some id →
  find_transaction s username id = Some t →
  find_transaction s' username id = Some t.
Proof.
  unfold find_transaction.
  destruct 1; cbn [records_under]; intros Hid Ht; try exact Ht;
    try (simpl; rewrite record_lookup_other by congruence; exact Ht).
  - unfold account_created. destruct (0 <? _); simpl; [|exact Ht].
    rewrite record_lookup_other by congruence. exact Ht.
  - simpl. rewrite !record_lookup_other by congruence. exact Ht.
Qed.

(** A recorded transaction is never removed or altered: it is found
    unchanged after any sequence of operations, as long as its identifier is
    not generated again. *)
Theorem transactions_append_only hash_password id s s' username t :
  steps_of (λ op, records_under op ≠ Some id) hash_password s s' →
  find_transaction s username id = Some t →
  find_transaction s' username id = Some t.
Proof.
  apply (steps_of_invariant _ _ (λ s, find_transaction s username id = Some t)).
  intros op s0 r s1 Hop Hrun.
  eapply effect_history_kept; [eapply run_effect, Hrun|exact Hop].
Qed.

(** ** Fixed deposits and loans keep their terms *)

Definition creates_deposit (username fd_id : string) (op : operation) : Prop :=
  match op with
  | CreateFixedDeposit _ fd_id' _ username' _ _ => username' = username ∧ fd_id' = fd_id
  | _ => False
  end.

Definition same_terms (fd fd' : FixedDeposit) : Prop :=
  principal fd' = principal fd ∧ fd_duration_months fd' = fd_duration_months fd ∧
  maturity_amount fd' = maturity_amount fd ∧ fd_start_date fd' = fd_start_date fd ∧
  maturity_date fd' = maturity_date fd ∧
  (fd_state fd = FdClosed → fd' = fd).

Lemma effect_deposit_kept hash_password op s r s' username fd_id fd :
  effect hash_password op s r s' →
  ¬ creates_deposit username fd_id op →
  find_fixed_deposit s username fd_id = Some fd →
  ∃ fd', find_fixed_deposit s' username fd_id = Some fd' ∧ same_terms fd fd'.
Proof.
  assert (Hrefl : same_terms fd fd) by by repeat split.
  unfold find_fixed_deposit.
  destruct 1; cbn [creates_deposit]; intros Hop Hfd; try (by eauto).
  - unfold account_created. destruct (0 <? _); eauto.
  - (* another deposit is created *)
    simpl. destruct (decide (username0 = username)) as [->|Hu].
    + rewrite lookup_insert_eq. simpl.
      destruct (decide (fd_id0 = fd_id)) as [->|Hf]; [by destruct Hop|].
      rewrite lookup_insert_ne by done.
      destruct (fixed_deposits s !! username); simpl in *; [eauto|done].
    + rewrite lookup_insert_ne by done. eauto.
  - (* a deposit is closed *)
    simpl. destruct (decide (username0 = username)) as [->|Hu].
    + rewrite lookup_insert_eq. simpl. rewrite H in Hfd. simpl in Hfd.
      destruct (decide (fd_id0 = fd_id)) as [->|Hf].
      * rewrite lookup_insert_eq. rewrite H0 in Hfd. injection Hfd as <-.
        eexists. split; [done|]. repeat split. intros Hc. congruence.
      * rewrite lookup_insert_ne by done. eauto.
    + rewrite lookup_insert_ne by done. eauto.
Qed.

(** A fixed deposit is never deleted and its terms never change: along any
    sequence of operations that does not create a deposit under the same
    identifier, it keeps its principal, duration, maturity amount, start date
    and maturity date, and once closed it is not touched again. *)
Theorem fixed_deposit_terms_kept hash_password username fd_id s s' fd :
  steps_of (λ op, ¬ creates_deposit username fd_id op) hash_password s s' →
  find_fixed_deposit s username fd_id = Some fd →
  ∃ fd',
    find_fixed_deposit s' username fd_id = Some fd' ∧
    principal fd' = principal fd ∧ fd_duration_months fd' = fd_duration_months fd ∧
    maturity_amount fd' = maturity_amount fd ∧ fd_start_date fd' = fd_start_date fd ∧
    maturity_date fd' = maturity_date fd ∧
    (fd_state fd = FdClosed → fd' = fd).
Proof.
  intros Hsteps Hfd.
  apply (steps_of_invariant _ _
           (λ s, ∃ fd', find_fixed_deposit s username fd_id = Some fd' ∧
                        same_terms fd fd')) in Hsteps; [exact Hsteps| |].
  - intros op s0 r s1 Hop Hrun (fd0 & Hfd0 & Hsame).
    destruct (effect_deposit_kept _ _ _ _ _ _ _ _ (run_effect _ _ _ _ _ Hrun) Hop Hfd0)
      as (fd1 & Hfd1 & Hsame1).
    exists fd1. split; [done|].
    destruct Hsame as (?&?&?&?&?&Hc), Hsame1 as (?&?&?&?&?&Hc1).
    repeat split; try congruence.
    intros Hcl. rewrite (Hc1 ltac:(by rewrite (Hc Hcl))). by apply Hc.
  - exists fd. split; [done|]. by repeat split.
Qed.

Definition creates_loan (username loan_id : string) (op : operation) : Prop :=
  match op with
  | ApplyForLoan _ loan_id' _ username' _ _ => username' = username ∧ loan_id' = loan_id
  | _ => False
  end.

Definition loan_continues (loan loan' : Loan) : Prop :=
  loan_amount loan' = loan_amount loan ∧ duration_months loan' = duration_months loan ∧
  monthly_payment loan' = monthly_payment loan ∧ start_date loan' = start_date loan ∧
  payments_made loan ≤ payments_made loan' ∧
  (status loan = LoanPaid → loan' = loan).

Lemma loan_after_payment_continues now remaining loan :
  status loan = LoanActive →
  loan_continues loan (loan_after_payment now remaining loan).
Proof.
  intros Hst. unfold loan_after_payment.
  destruct (Float64.le_int remaining 0); repeat split; simpl; try lia; congruence.
Qed.

Lemma effect_loan_kept hash_password op s r s' username loan_id loan :
  effect hash_password op s r s' →
  ¬ creates_loan username loan_id op →
  find_loan s username loan_id = Some loan →
  ∃ loan', find_loan s' username loan_id = Some loan' ∧ loan_continues loan loan'.
Proof.
  assert (Hrefl : loan_continues loan loan) by (repeat split; lia).
  unfold find_loan.
  destruct 1; cbn [creates_loan]; intros Hop Hl; try (by eauto).
  - unfold account_created. destruct (0 <? _); eauto.
  - (* another loan is granted *)
    simpl. destruct (decide (username0 = username)) as [->|Hu].
    + rewrite lookup_insert_eq. simpl.
      destruct (decide (loan_id0 = loan_id)) as [->|Hf]; [by destruct Hop|].
      rewrite lookup_insert_ne by done.
      destruct (loans s !! username); simpl in *; [eauto|done].
    + rewrite lookup_insert_ne by done. eauto.
  - (* a payment *)
    simpl. destruct (decide (username0 = username)) as [->|Hu].
    + rewrite lookup_insert_eq. simpl. rewrite H in Hl. simpl in Hl.
      destruct (decide (loan_id0 = loan_id)) as [->|Hf].
      * rewrite lookup_insert_eq. rewrite H0 in Hl. injection Hl as <-.
        eexists. split; [done|]. by apply loan_after_payment_continues.
      * rewrite lookup_insert_ne by done. eauto.
    + rewrite lookup_insert_ne by done. eauto.
Qed.

(** A loan is never deleted and its terms never change: along any sequence
    of operations that does not grant a loan under the same identifier, it
    keeps its principal, duration, monthly payment and start date, its count
    of payments never decreases, and once paid it is not touched again: a
    paid loan is never active again. *)
Theorem loan_terms_kept hash_password username loan_id s s' loan :
  steps_of (λ op, ¬ creates_loan username loan_id op) hash_password s s' →
  find_loan s username loan_id = Some loan →
  ∃ loan',
    find_loan s' username loan_id = Some loan' ∧
    loan_amount loan' = loan_amount loan ∧ duration_months loan' = duration_months loan ∧
    monthly_payment loan' = monthly_payment loan ∧ start_date loan' = start_date loan ∧
    payments_made loan ≤ payments_made loan' ∧
    (status loan = LoanPaid → loan' = loan).
Proof.
  intros Hsteps Hl.
  apply (steps_of_invariant _ _
           (λ s, ∃ loan', find_loan s username loan_id = Some loan' ∧
                          loan_continues loan loan')) in Hsteps; [exact Hsteps| |].
  - intros op s0 r s1 Hop Hrun (l0 & Hl0 & Hsame).
    destruct (effect_loan_kept _ _ _ _ _ _ _ _ (run_effect _ _ _ _ _ Hrun) Hop Hl0)
      as (l1 & Hl1 & Hsame1).
    exists l1. split; [done|].
    destruct Hsame as (?&?&?&?&?&Hc), Hsame1 as (?&?&?&?&?&Hc1).
    repeat split; try congruence; try lia.
    intros Hp. rewrite (Hc1 ltac:(by rewrite (Hc Hp))). by apply Hc.
  - exists loan. split; [done|]. repeat split; lia.
Qed.

(** ** Transfers and deposits that follow one another *)

(** A transfer of a non-negative amount that is confirmed right after its
    initiation succeeds, moves the amount and overdraws nobody: the sender
    keeps [balance - amount >= 0]. *)
Theorem transfer_confirmed_at_once now uuid sender recipient rid amount descr s m s1
    now' uuid' :
  balances_nonneg s →
  0 ≤ amount →
  initiate_transfer now uuid sender recipient rid amount descr s = Done (true, m) s1 →
  ∃ s2 sa ra,
    accounts s !! sender = Some sa ∧ accounts s !! recipient = Some ra ∧
    m = TransferId uuid ∧
    confirm_transfer now' uuid' uuid s1 =
      Done (true, Transferred amount recipient uuid') s2 ∧
    (balance <$> accounts s2 !! sender) = Some (balance sa - amount) ∧
    (balance <$> accounts s2 !! recipient) = Some (balance ra + amount) ∧
    balances_nonneg s2 ∧
    transfer_data s2 !! uuid = None.
Proof.
  intros Hb Hamt Hinit.
  apply initiate_transfer_Done in Hinit
    as [[[=] _]|(sa & ra & Hs & Hr & Hid & Hne & Hle & [= ->] & ->)].
  set (td := mkTransfer sender recipient rid amount now descr).
  eexists _, sa, ra. split; [done|]. split; [done|]. split; [done|].
  split.
  { apply (confirm_transfer_spec now' uuid' uuid _ td sa ra); simpl; try done.
    apply lookup_insert_eq. }
  simpl. rewrite lookup_insert_ne by done. rewrite !lookup_insert_eq.
  split; [done|]. split; [done|]. split; [|apply lookup_delete_eq].
  intros u a. simpl. pose proof (Hb _ _ Hs). pose proof (Hb _ _ Hr).
  destruct (decide (recipient = u)) as [<-|Hu1].
  { rewrite lookup_insert_eq. intros [= <-]. simpl. lia. }
  rewrite lookup_insert_ne by done.
  destruct (decide (sender = u)) as [<-|Hu2].
  { rewrite lookup_insert_eq. intros [= <-]. simpl. lia. }
  rewrite lookup_insert_ne by done. apply Hb.
Qed.

Lemma find_transaction_posted type now uuid username delta amount descr acct s
    username' id' :
  find_transaction (posted type now uuid username delta amount descr acct s)
    username' id' =
    if decide (username = username' ∧ uuid = id') then
      Some (mkTransaction type amount now (balance acct + delta) uuid descr)
    else find_transaction s username' id'.
Proof.
  exact (find_transaction_record
           (set_accounts <[username := set_balance (balance acct + delta) acct]> s)
           username uuid _ username' id').
Qed.

(** A deposit followed by the withdrawal of the same amount leaves the
    account exactly as it was (with two more records in its history). *)
Theorem deposit_then_withdraw now1 uuid1 now2 uuid2 username amount s acct :
  accounts s !! username = Some acct →
  0 ≤ balance acct →
  0 < amount →
  ∃ s2,
    (deposit now1 uuid1 username amount ≫= λ _,
       withdraw now2 uuid2 username amount) s =
      Done (true, Withdrew amount uuid2) s2 ∧
    accounts s2 = accounts s ∧
    (tx_type <$> find_transaction s2 username uuid2) = Some Withdrawal ∧
    (uuid1 ≠ uuid2 →
       (tx_type <$> find_transaction s2 username uuid1) = Some Deposit).
Proof.
  intros Ha Hb Hamt.
  assert (Hdep : deposit now1 uuid1 username amount s =
            Done (true, Deposited amount uuid1)
              (posted Deposit now1 uuid1 username amount amount None acct s)).
  { unfold deposit. destruct (amount <=? 0) eqn:E; [lia|].
    by rewrite (add_then_record _ _ _ _ _ _ _ _ _ _ Ha). }
  set (s1 := posted Deposit now1 uuid1 username amount amount None acct s).
  assert (Ha1 : accounts s1 !! username = Some (set_balance (balance acct + amount) acct))
    by (simpl; apply lookup_insert_eq).
  eexists. split.
  { rewrite (bind_Done _ _ _ _ _ Hdep). unfold withdraw.
    destruct (amount <=? 0) eqn:E; [lia|].
    rewrite bind_get, (bind_subscript_Some _ _ _ _ _ Ha1).
    destruct (balance _ <? amount) eqn:E2; [simpl in E2; lia|].
    by rewrite (add_then_record _ _ _ _ _ _ _ _ _ _ Ha1). }
  split.
  { simpl. rewrite insert_insert_eq.
    replace (balance acct + amount + - amount) with (balance acct) by lia.
    destruct acct. by apply insert_id. }
  split.
  { by rewrite find_transaction_posted, decide_True. }
  intros Hne. rewrite find_transaction_posted, decide_False by (intros [_ ?]; done).
  unfold s1. by rewrite find_transaction_posted, decide_True.
Qed.

(** ** Session expiry *)




(** ** Password strength *)

Inductive password_message : Type :=
  | PasswordTooShort
  | PasswordNeedsUppercase
  | PasswordNeedsLowercase
  | PasswordNeedsDigit
  | PasswordNeedsSpecial
  | PasswordIsStrong.

(** [re.search] with a character class: some character of the password is
    in the class. A password is a string of characters with code points below
    256, one [ascii] each. *)
Fixpoint re_search (class : ascii → bool) (password : string) : bool :=
  match password with
  | EmptyString => false
  | String c rest => class c || re_search class rest
  end.

Definition in_range (lo hi : N) (c : ascii) : bool :=
  ((lo <=? N_of_ascii c) && (N_of_ascii c <=? hi))%N.

(** The twenty characters of the last class of the source, by code point:
    the punctuation [! @ # $ % ^ & * ( ) , . ? : { } | < >] and the double
    quote (34). *)
Definition special_characters : list N :=
  [33; 64; 35; 36; 37; 94; 38; 42; 40; 41; 44; 46; 63; 34; 58; 123; 125; 124; 60; 62]%N.

Definition is_special (c : ascii) : bool :=
  existsb (N.eqb (N_of_ascii c)) special_characters.

Definition check_password_strength (password : string) : bool * password_message :=
  if Z.of_nat (String.length password) <? MIN_PASSWORD_LENGTH then
    (false, PasswordTooShort)
  else if negb (re_search (in_range 65 90) password) then
    (false, PasswordNeedsUppercase)
  else if negb (re_search (in_range 97 122) password) then
    (false, PasswordNeedsLowercase)
  else if negb (re_search (in_range 48 57) password) then
    (false, PasswordNeedsDigit)
  else if negb (re_search is_special password) then
    (false, PasswordNeedsSpecial)
  else (true, PasswordIsStrong).

Lemma re_search_app class a b :
  re_search class (a +:+ b) = re_search class a || re_search class b.
Proof.
  induction a as [|c a IH]; simpl; [done|]. by rewrite IH, orb_assoc.
Qed.

Lemma string_length_app a b :
  String.length (a +:+ b) = (String.length a + String.length b)%nat.
Proof. induction a as [|c a IH]; simpl; [done|]. by rewrite IH. Qed.

Lemma check_password_strength_true password :
  fst (check_password_strength password) = true ↔
  8 ≤ Z.of_nat (String.length password) ∧
  re_search (in_range 65 90) password = true ∧
  re_search (in_range 97 122) password = true ∧
  re_search (in_range 48 57) password = true ∧
  re_search is_special password = true.
Proof.
  unfold check_password_strength, MIN_PASSWORD_LENGTH.
  destruct (_ <? 8) eqn:E; simpl; [split; [done|lia]|].
  destruct (re_search (in_range 65 90) password); simpl; [|by split; [|intros (?&?&?)]].
  destruct (re_search (in_range 97 122) password); simpl;
    [|by split; [|intros (?&?&?&?)]].
  destruct (re_search (in_range 48 57) password); simpl;
    [|by split; [|intros (?&?&?&?&?)]].
  destruct (re_search is_special password); simpl; [|by split; [|intros (?&?&?&?&?)]].
  split; [|done]. intros _. repeat split. lia.
Qed.

(** A strong password stays strong when characters are inserted anywhere
    in it, and a password shorter than 8 characters, or without a special
    character, is never accepted. *)
Theorem strong_password_extended prefix inserted suffix :
  fst (check_password_strength (prefix +:+ suffix)) = true →
  fst (check_password_strength (prefix +:+ inserted +:+ suffix)) = true ∧
  8 ≤ Z.of_nat (String.length (prefix +:+ suffix)) ∧
  re_search is_special (prefix +:+ suffix) = true.
Proof.
  intros H. pose proof H as (Hlen & Hu & Hl & Hd & Hs)%check_password_strength_true.
  split; [|done]. apply check_password_strength_true.
  rewrite !string_length_app in *. rewrite !re_search_app in *.
  repeat split; [lia|..];
    match goal with
    | H : ?a || ?c = true |- ?a || (_ || ?c) = true =>
        apply orb_true_iff in H as [->| ->]; by rewrite ?orb_true_r
    end.
Qed.

(** ** The registration form of [login_section] *)

Inductive registration : Type :=
  | PasswordsDoNotMatch
  | WeakPassword (reason : password_message)
  | InvalidEmail (reason : string)
  | Submitted (result : bool * message).

(** The handler of the Create Account button. [validate_email_address]
    wraps the [email_validator] package, which is outside the source: it is a
    parameter, returning a flag and a text. The account is created with the
    address as typed. *)
Definition register (hash_password : string -> string)
    (validate_email_address : string → bool * string)
    (now : Z) (account_id uuid : string)
    (new_username email new_password confirm_password : string)
    (initial_deposit : Z) : M registration :=
  if decide (new_password ≠ confirm_password) then mret PasswordsDoNotMatch
  else
    let '(pw_strong, pw_msg) := check_password_strength new_password in
    if negb pw_strong then mret (WeakPassword pw_msg)
    else
      let '(email_valid, email_msg) := validate_email_address email in
      if negb email_valid then mret (InvalidEmail email_msg)
      else
        r ← create_account hash_password now account_id uuid new_username
              new_password email initial_deposit;
        mret (Submitted r).

(** The registration form creates an account only for a password that was
    typed twice, is strong, and comes with an address the validator accepts;
    the account did not exist and its address was not registered. In every
    other case the form changes nothing. *)
Theorem register_guards hash_password validate now aid uuid username email password
    confirm deposit s out s' :
  register hash_password validate now aid uuid username email password confirm deposit s
    = Done out s' →
  (s' = s ∧ ∀ m, out ≠ Submitted (true, m)) ∨
  (out = Submitted (true, AccountCreated aid) ∧
   password = confirm ∧
   fst (check_password_strength password) = true ∧
   fst (validate email) = true ∧
   accounts s !! username = None ∧
   ¬ email_registered s email ∧
   s' = account_created hash_password now aid uuid username password email deposit s).
Proof.
  unfold register.
  destruct (decide (password ≠ confirm)) as [|Heq]; [intros [= <- <-]; by left|].
  apply dec_stable in Heq.
  destruct (check_password_strength password) as [strong pm] eqn:Hs.
  destruct strong; simpl; [|intros [= <- <-]; by left].
  destruct (validate email) as [valid em] eqn:Hv.
  destruct valid; simpl; [|intros [= <- <-]; by left].
  intros (r & s1 & Hc & [= <- <-])%bind_Done_inv.
  apply create_account_Done in Hc
    as [(_ & -> & ->)|[(_ & _ & -> & ->)|(Hn & He & -> & ->)]];
    [by left|by left|right; done].
Qed.

(** ** Closing a fixed deposit *)







(** eve opens an account with 1500 and places 1000 for 12 months at time 0:
    the deposit matures after 360 days with 1070. *)
Definition eve_deposit : FixedDeposit :=
  mkFixedDeposit 1000 12 FIXED_DEPOSIT_INTEREST 1070 0 (360 * 86400) FdActive None.

Definition eve_saves : list operation :=
  [ CreateAccount 0 "4e5f6a7b" "x0" "eve" "Pa55word!" "eve@x.org" 1500;
    CreateFixedDeposit 0 "f1" "x1" "eve" 1000 12 ].

Definition eve_has_saved : State := after eve_saves init_session_state.






(** ** Worked examples

    The statements above, applied to short sessions. *)

Fixpoint ui_run_list (hash_password : string -> string) (evs : list ui_event)
    (s : State) : option State :=
  match evs with
  | [] => Some s
  | ev :: evs' =>
      match ui_step hash_password ev s with
      | Done _ s1 => ui_run_list hash_password evs' s1
      | Raised _ _ => None
      end
  end.

Lemma ui_run_list_steps allowed hash_password evs s s' :
  Forall allowed evs →
  ui_run_list hash_password evs s = Some s' →
  ui_steps allowed hash_password s s'.
Proof.
  intros Hall. revert s. induction Hall as [|ev evs Hev _ IH]; simpl; intros s.
  - intros [= <-]. constructor.
  - destruct (ui_step hash_password ev s) as [[] s1|] eqn:Hrun; [|done].
    intros Hrest. eapply ui_steps_step; eauto.
Qed.

(** alice and bob register; alice logs in, deposits 50, submits a transfer
    of 60 to bob and, a hundred days later, borrows 1200 and places 1000 in a
    fixed deposit. *)
Definition a_session : list operation :=
  [ CreateAccount 0 "a1b2c3d4" "x1" "alice" "Str0ng!pw" "alice@x.org" 100;
    CreateAccount 0 "e5f6a7b8" "x2" "bob" "Passw0rd?" "bob@x.org" 0;
    Authenticate 5 "alice" "Str0ng!pw";
    DepositOp 6 "x3" "alice" 50;
    InitiateTransfer 10 "t1" "alice" "bob" "e5f6a7b8" 60 None;
    ApplyForLoan (100 * 86400) "l1" "x4" "alice" 1200 12;
    CreateFixedDeposit (100 * 86400) "f1" "x5" "alice" 1000 12 ].

Definition after_a_session : State := after a_session init_session_state.

Lemma a_session_runs : is_Some (run_list plain a_session init_session_state).
Proof. vm_compute. eauto. Qed.

Lemma after_a_session_reachable : reachable plain after_a_session.
Proof. apply after_steps; [by repeat constructor|exact a_session_runs]. Qed.

(** What alice and bob do once they have their accounts. *)
Definition a_day : list operation :=
  [ DepositOp 6 "x3" "alice" 50;
    InitiateTransfer 10 "t1" "alice" "bob" "e5f6a7b8" 60 None;
    ConfirmTransfer 20 "x4" "t1";
    WithdrawOp 30 "x5" "bob" 10 ].

Lemma a_day_runs : is_Some (run_list plain a_day two_accounts).
Proof. vm_compute. eauto. Qed.

Lemma accounts_never_deleted_witness :
  ∃ a', accounts (after a_day two_accounts) !! "alice" = Some a' ∧
    password_hash a' = password_hash alice ∧ created a' = created alice ∧
    account_id a' = account_id alice ∧ acct_email a' = acct_email alice.
Proof.
  apply (accounts_never_deleted plain two_accounts (after a_day two_accounts)).
  - apply after_steps; [by repeat constructor|exact a_day_runs].
  - vm_compute. reflexivity.
Defined.

Lemma pending_transfer_confirmable_witness :
  ∃ s', confirm_transfer (101 * 86400) "x9" "t1" after_a_session =
          Done (true, Transferred 60 "bob" "x9") s'.
Proof.
  destruct (pending_transfer_confirmable plain after_a_session "t1" pending_60
              after_a_session_reachable ltac:(vm_compute; reflexivity))
    as (_ & _ & H).
  exact (H (101 * 86400) "x9").
Defined.



Lemma at_most_one_active_loan_witness :
  apply_for_loan (200 * 86400) "l2" "x9" "alice" 500 6 after_a_session =
    Done (false, ActiveLoanExists) after_a_session.
Proof.
  destruct (at_most_one_active_loan plain after_a_session after_a_session_reachable)
    as [_ H].
  eapply (H "alice" _ "l1").
  - vm_compute. reflexivity.
  - vm_compute. reflexivity.
  - vm_compute. reflexivity.
  - vm_compute. reflexivity.
  - lia.
  - lia.
  - vm_compute. discriminate.
Defined.

Lemma emails_stay_unique_witness : "alice" = "alice".
Proof.
  eapply (emails_stay_unique plain after_a_session "alice" "alice" _ _ "alice@x.org"
            after_a_session_reachable).
  - vm_compute. reflexivity.
  - vm_compute. reflexivity.
  - vm_compute. reflexivity.
  - vm_compute. reflexivity.
Defined.

(** After the cancellation alice submits another transfer and confirms it,
    withdraws 5 and logs out. *)
Definition after_the_cancellation : list ui_event :=
  [ SubmitTransfer 20 "t2" "bob" "e5f6a7b8" 10 None;
    ConfirmButton 30 "x9";
    OtherPage (WithdrawOp 40 "x10" "alice" 5);
    LogoutButton ].

Definition cancelled : State :=
  final_state (dashboard_cancel_transfer awaiting_confirmation).

Definition session_end : State :=
  default cancelled (ui_run_list plain after_the_cancellation cancelled).

Lemma cancelled_transfer_never_confirmed_witness :
  transfer_data session_end !! "t1" = Some pending_60 ∧
  balance <$> accounts session_end !! "alice" = Some 85.
Proof.
  split; [|vm_compute; reflexivity].
  apply (cancelled_transfer_never_confirmed plain "t1" pending_60
           awaiting_confirmation cancelled session_end).
  - vm_compute. reflexivity.
  - reflexivity.
  - apply (ui_run_list_steps _ _ after_the_cancellation).
    + repeat (constructor; [simpl; try done|]). constructor.
    + vm_compute. reflexivity.
Defined.

Definition alice_registers : M (bool * message) :=
  create_account plain 0 "a1b2c3d4" "x1" "alice" "Str0ng!pw" "alice@x.org" 100.

Definition alice_registered : State := final_state (alice_registers init_session_state).

Lemma register_then_login_witness :
  ∃ s2,
    authenticate plain 50 "alice" "Str0ng!pw" alice_registered =
      Done (true, LoginSuccessful) s2 ∧
    authenticated s2 = true ∧ current_user s2 = Some "alice" ∧
    login_time s2 = Some 50 ∧
    (balance <$> accounts s2 !! "alice") = Some 100.
Proof.
  apply (register_then_login plain init_session_state 0 "a1b2c3d4" "x1" "alice"
           "Str0ng!pw" "alice@x.org" 100 (AccountCreated "a1b2c3d4") alice_registered 50).
  - apply steps_refl.
  - vm_compute. reflexivity.
Defined.

Definition alice_in : State :=
  final_state (authenticate plain 5 "alice" "h1" two_accounts).

Lemma authenticate_sound_witness :
  is_locked 5 two_accounts "alice" = false ∧
  (password_hash <$> accounts two_accounts !! "alice") = Some (plain "h1") ∧
  authenticated alice_in = true ∧ current_user alice_in = Some "alice" ∧
  failed_attempts alice_in !! "alice" = None ∧
  ∀ now', is_locked now' alice_in "alice" = false.
Proof.
  apply (authenticate_sound plain 5 "alice" "h1" two_accounts LoginSuccessful alice_in).
  vm_compute. reflexivity.
Defined.

Lemma five_failures_lock_witness :
  ∃ s',
    attempts plain "bob"
      ([(100, "g1"); (200, "g2"); (300, "g3"); (400, "g4")] ++ [(1000, "g5")])
      two_accounts = Done tt s' ∧
    failed_attempts s' !! "bob" = Some (mkFailedAttempt 5 1000) ∧
    ∀ now password, 0 ≤ now - 1000 < 3600 →
      authenticate plain now "bob" password s' = Done (false, AccountLocked) s'.
Proof.
  apply (five_failures_lock plain "bob" bob two_accounts).
  - vm_compute. reflexivity.
  - vm_compute. reflexivity.
  - repeat (constructor; [simpl; discriminate|]). constructor.
  - reflexivity.
Defined.

Lemma failure_changes_nothing_witness :
  two_accounts = two_accounts ∨
  ∃ now username password acct,
    WithdrawOp 7 "x1" "alice" 1000 = Authenticate now username password ∧
    accounts two_accounts !! username = Some acct ∧
    password_hash acct ≠ plain password ∧
    two_accounts = attempt_failed now username two_accounts.
Proof.
  apply (failure_changes_nothing plain (WithdrawOp 7 "x1" "alice" 1000) two_accounts
           InsufficientFunds two_accounts).
  vm_compute. reflexivity.
Defined.

Definition eve_registered : State :=
  after [CreateAccount 0 "4e5f6a7b" "x0" "eve" "Pa55word!" "eve@x.org" 1500]
    init_session_state.

Lemma fixed_deposit_round_trip_witness :
  ∃ acct,
    accounts eve_registered !! "eve" = Some acct ∧
    (balance <$> accounts eve_has_saved !! "eve") = Some (balance acct - 1000) ∧
    (∀ now uuid, now < 0 + 30 * 12 * 86400 →
       close_fixed_deposit now uuid "eve" "f1" eve_has_saved =
         Done (false, FixedDepositNotMatured) eve_has_saved) ∧
    (∀ now uuid, 0 + 30 * 12 * 86400 ≤ now →
       ∃ s2,
         close_fixed_deposit now uuid "eve" "f1" eve_has_saved =
           Done (true, FixedDepositClosed "f1" (maturity_value 1000 12)) s2 ∧
         (balance <$> accounts s2 !! "eve") =
           Some (balance acct - 1000 + maturity_value 1000 12)).
Proof.
  apply (fixed_deposit_round_trip 0 "f1" "x1" "eve" 1000 12 eve_registered
           (FixedDepositCreated "f1") eve_has_saved).
  vm_compute. reflexivity.
Defined.

Lemma loan_refused_before_90_days_witness :
  (90 * 86400 - 1 - 0 < 90 * 86400 →
     apply_for_loan (90 * 86400 - 1) "l1" "x9" "alice" 500 6
       (after [DepositOp 6 "x3" "alice" 50] alice_registered) =
       Done (false, AccountTooNew) (after [DepositOp 6 "x3" "alice" 50] alice_registered)) ∧
  (90 * 86400 ≤ 90 * 86400 - 1 - 0 →
     ∀ r s3,
       apply_for_loan (90 * 86400 - 1) "l1" "x9" "alice" 500 6
         (after [DepositOp 6 "x3" "alice" 50] alice_registered) = Done r s3 →
       r ≠ (false, AccountTooNew)).
Proof.
  apply (loan_refused_before_90_days plain 0 "a1b2c3d4" "x1" "alice" "Str0ng!pw"
           "alice@x.org" 100 init_session_state (AccountCreated "a1b2c3d4")
           alice_registered).
  - vm_compute. reflexivity.
  - apply after_steps; [by repeat constructor|]. vm_compute. eauto.
  - lia.
  - lia.
Defined.

Definition confirmed : State :=
  final_state (confirm_transfer 20 "x9" "t1" one_pending).

Lemma total_balance_accounted_witness :
  total_balance confirmed =
    total_balance one_pending +
    inflow (ConfirmTransfer 20 "x9" "t1") (true, Transferred 60 "bob" "x9") ∧
  (∀ now uuid transfer_id,
     ConfirmTransfer 20 "x9" "t1" = ConfirmTransfer now uuid transfer_id →
     total_balance confirmed = total_balance one_pending) ∧
  (fst (true, Transferred 60 "bob" "x9") = false →
   total_balance confirmed = total_balance one_pending).
Proof.
  apply (total_balance_accounted plain (ConfirmTransfer 20 "x9" "t1") one_pending
           (true, Transferred 60 "bob" "x9") confirmed).
  vm_compute. reflexivity.
Defined.

Definition opening_deposit : Transaction :=
  mkTransaction AccountCreationDeposit 100 0 100 "x1" None.

Lemma transactions_append_only_witness :
  find_transaction (after [DepositOp 6 "x3" "alice" 50; WithdrawOp 7 "x4" "alice" 120]
                      alice_registered) "alice" "x1" = Some opening_deposit.
Proof.
  apply (transactions_append_only plain "x1" alice_registered).
  - apply after_steps; [|vm_compute; eauto].
    repeat (constructor; [simpl; discriminate|]). constructor.
  - vm_compute. reflexivity.
Defined.

Lemma fixed_deposit_terms_kept_witness :
  ∃ fd',
    find_fixed_deposit
      (after [CloseFixedDeposit (360 * 86400) "x2" "eve" "f1"; DepositOp 6 "x3" "eve" 50]
         eve_has_saved) "eve" "f1" = Some fd' ∧
    principal fd' = principal eve_deposit ∧
    fd_duration_months fd' = fd_duration_months eve_deposit ∧
    maturity_amount fd' = maturity_amount eve_deposit ∧
    fd_start_date fd' = fd_start_date eve_deposit ∧
    maturity_date fd' = maturity_date eve_deposit ∧
    (fd_state eve_deposit = FdClosed → fd' = eve_deposit).
Proof.
  apply (fixed_deposit_terms_kept plain "eve" "f1" eve_has_saved).
  - apply after_steps; [|vm_compute; eauto].
    repeat (constructor; [simpl; tauto|]). constructor.
  - vm_compute. reflexivity.
Defined.

Lemma loan_terms_kept_witness :
  ∃ loan',
    find_loan (after [MakeLoanPayment 10 "x1" "carol" "l1" 105] carol_with_loan)
      "carol" "l1" = Some loan' ∧
    loan_amount loan' = loan_amount carol_loan ∧
    duration_months loan' = duration_months carol_loan ∧
    monthly_payment loan' = monthly_payment carol_loan ∧
    start_date loan' = start_date carol_loan ∧
    payments_made carol_loan ≤ payments_made loan' ∧
    (status carol_loan = LoanPaid → loan' = carol_loan).
Proof.
  apply (loan_terms_kept plain "carol" "l1" carol_with_loan).
  - apply after_steps; [|vm_compute; eauto].
    repeat (constructor; [simpl; tauto|]). constructor.
  - vm_compute. reflexivity.
Defined.

Lemma two_accounts_nonneg : balances_nonneg two_accounts.
Proof.
  intros u a H. unfold two_accounts in H. simpl in H.
  apply lookup_insert_Some in H as [[_ <-]|[_ H]]; [simpl; lia|].
  apply lookup_singleton_Some in H as [_ <-]. simpl. lia.
Qed.

Lemma transfer_confirmed_at_once_witness :
  ∃ s2 sa ra,
    accounts two_accounts !! "alice" = Some sa ∧
    accounts two_accounts !! "bob" = Some ra ∧
    TransferId "t1" = TransferId "t1" ∧
    confirm_transfer 20 "x9" "t1" one_pending =
      Done (true, Transferred 60 "bob" "x9") s2 ∧
    (balance <$> accounts s2 !! "alice") = Some (balance sa - 60) ∧
    (balance <$> accounts s2 !! "bob") = Some (balance ra + 60) ∧
    balances_nonneg s2 ∧
    transfer_data s2 !! "t1" = None.
Proof.
  apply (transfer_confirmed_at_once 10 "t1" "alice" "bob" "e5f6a7b8" 60 None
           two_accounts (TransferId "t1") one_pending 20 "x9").
  - exact two_accounts_nonneg.
  - lia.
  - vm_compute. reflexivity.
Defined.

Lemma deposit_then_withdraw_witness :
  ∃ s2,
    (deposit 6 "x1" "alice" 30 ≫= λ _, withdraw 7 "x2" "alice" 30) two_accounts =
      Done (true, Withdrew 30 "x2") s2 ∧
    accounts s2 = accounts two_accounts ∧
    (tx_type <$> find_transaction s2 "alice" "x2") = Some Withdrawal ∧
    ("x1" ≠ "x2" → (tx_type <$> find_transaction s2 "alice" "x1") = Some Deposit).
Proof.
  apply (deposit_then_withdraw 6 "x1" 7 "x2" "alice" 30 two_accounts alice).
  - vm_compute. reflexivity.
  - simpl. lia.
  - lia.
Defined.


Lemma strong_password_extended_witness :
  fst (check_password_strength ("Str0ng" +:+ "er" +:+ "!pw")) = true ∧
  8 ≤ Z.of_nat (String.length ("Str0ng" +:+ "!pw")) ∧
  re_search is_special ("Str0ng" +:+ "!pw") = true.
Proof.
  apply (strong_password_extended "Str0ng" "er" "!pw").
  vm_compute. reflexivity.
Defined.

(** A validator for the examples: it accepts every address. *)
Definition any_address (email : string) : bool * string := (true, email).

Definition form_submitted : State :=
  final_state
    (register plain any_address 0 "a1b2c3d4" "x1" "alice" "alice@x.org" "Str0ng!pw"
       "Str0ng!pw" 100 init_session_state).

Lemma register_guards_witness :
  (form_submitted = init_session_state ∧
   ∀ m, Submitted (true, AccountCreated "a1b2c3d4") ≠ Submitted (true, m)) ∨
  (Submitted (true, AccountCreated "a1b2c3d4") = Submitted (true, AccountCreated "a1b2c3d4") ∧
   "Str0ng!pw" = "Str0ng!pw" ∧
   fst (check_password_strength "Str0ng!pw") = true ∧
   fst (any_address "alice@x.org") = true ∧
   accounts init_session_state !! "alice" = None ∧
   ¬ email_registered init_session_state "alice@x.org" ∧
   form_submitted =
     account_created plain 0 "a1b2c3d4" "x1" "alice" "Str0ng!pw" "alice@x.org" 100
       init_session_state).
Proof.
  apply (register_guards plain any_address 0 "a1b2c3d4" "x1" "alice" "alice@x.org"
           "Str0ng!pw" "Str0ng!pw" 100 init_session_state).
  vm_compute. reflexivity.
Defined.
